(** * Dashpie: the GeoBrain synchronisation client and the dashboard's
      filter and aggregation engine (src/Dashboard.js)

    The development embeds the parts of [Dashboard.js] that carry the
    behaviour: the class [GeoBrainApiService] (token lifecycle, [request],
    [fetchAllEmpreendimentos], [transformData], [fetchCompleteData]) and
    the derived values of the [Dashboard] component ([filterOptions],
    [activeFilterCount], [filteredData], [kpis], [vgvPorCidade],
    [vgvPorTipo], [vgvPorPadrao], [topEmpreendimentos],
    [topIncorporadoras], [evolucaoIncorporadoras]) with the updates of its
    filter state. What prints numbers for display ([formatCurrency],
    [formatNumber], [formatDateTime]) is left out: it depends on the
    rounding of doubles and on the locale data of the platform.

    Layout of the file:
    - [JS]: the fragment of JavaScript the code relies on (values,
      truthiness, [||], [parseInt], [parseFloat], property keys, the order
      of [Object.values], the stable [Array.prototype.sort]);
    - [Normalizer]: [transformData];
    - [FilterEngine]: [DEFAULT_FILTERS] and the predicate of [filteredData];
    - [Aggregation]: the three grouped series;
    - [Session]: the token state, [isTokenExpired], [parseTokenExpiry] and
      the interleaving model of [login];
    - [Client]: [request] and [fetchAllEmpreendimentos] over a scripted
      network;
    - [Panel]: the filter panel of the component ([filterOptions],
      [toggleFilter], [clearFilters], the handlers of the range sliders,
      [activeFilterCount]);
    - [Ranking]: [kpis], [topEmpreendimentos], the table of [generatePDF],
      [topIncorporadoras] and [evolucaoIncorporadoras];
    - [Sync]: the vocabulary of the statements about a whole
      synchronisation.
    The definitions come first; the facts about each part follow in the
    same order ([JSFacts], the session, [FilterFacts], [NormalizerFacts],
    [AggregationFacts], [SessionFacts], [ClientFacts]), each part closing
    with the properties of the specification it settles. The file ends
    with the properties of the code that the specification does not state
    ([SortFacts], [PanelFacts], [RankingFacts], [SyncFacts],
    [ShapeFacts]), numbered X1 to X22.

    Numbers. A JavaScript number is modelled as [NaN] or an exact rational
    [Num q]: every JSON literal and every decimal string denotes a rational,
    and sums of rationals are rationals. Rounding to IEEE doubles, the two
    infinities and the sign of zero are not represented; the string
    ["Infinity"] is read as non-numeric. Strings are sequences of 8-bit
    characters standing for UTF-16 code units.

    Where the model is the program. Three things the program can do are
    therefore not represented: a conversion of an object that throws a
    TypeError (the object holds an own property [toString], which JSON
    cannot make a function), a number beyond the range of the doubles (an
    infinity, or a zero by underflow), and an addition that rounds. A
    statement about code that converts a value or adds amounts is made for
    the inputs on which none of them happens:
    - [JS.prints]: the conversion of the value to a text does not throw and
      prints no number out of range;
    - [JS.readable]: [Number], [parseInt], [parseFloat] and the arithmetic
      operators read the value without throwing and within range;
    - [Normalizer.readable_record], [Normalizer.printable]: the same for
      the numeric properties of a raw record and for a text field of the
      normalized records;
    - [Aggregation.adds_exactly]: whole amounts whose magnitudes add up to
      at most [2 ^ 53], which doubles add without rounding, in any order.
    On these inputs the functions of the model return what the program
    returns. *)

From Stdlib Require Import ZArith QArith Qround Qabs Qcanon Lqa Lia Arith Bool.
From Stdlib Require Import List String Ascii DecimalString Permutation Sorted.
Import ListNotations.

Set Warnings "-register-all".

(* Rationals are compared and rewritten, not unfolded. *)
#[local] Arguments Qred : simpl never.
#[local] Arguments Qplus : simpl never.
#[local] Arguments Qminus : simpl never.
#[local] Arguments Qmult : simpl never.
#[local] Arguments Qopp : simpl never.
#[local] Arguments Qle_bool : simpl never.
#[local] Arguments Qeq_bool : simpl never.

Local Open Scope string_scope.
Local Open Scope Z_scope.

(* ====================================================================== *)
(** * The JavaScript fragment                                              *)
(* ====================================================================== *)

Module JS.

(** ** Numbers *)

Inductive num : Type :=
| NaN
| Num (q : Q).

(** The integer [z] as a number. *)
Definition int (z : Z) : num := Num (z # 1).

(** Numbers are kept in lowest terms by everything that produces them, so
    that two produced numbers are the same JavaScript number exactly when
    they are equal terms. *)
Definition canon (n : num) : num :=
  match n with
  | NaN => NaN
  | Num q => Num (Qred q)
  end.

Definition is_nan (n : num) : bool :=
  match n with NaN => true | Num _ => false end.

(** [a + b] *)
Definition num_add (a b : num) : num :=
  match a, b with
  | Num p, Num q => Num (Qred (p + q))
  | _, _ => NaN
  end.

(** [a - b] *)
Definition num_sub (a b : num) : num :=
  match a, b with
  | Num p, Num q => Num (Qred (p - q))
  | _, _ => NaN
  end.

(** [a * b] *)
Definition num_mul (a b : num) : num :=
  match a, b with
  | Num p, Num q => Num (Qred (p * q))
  | _, _ => NaN
  end.

(** [a < b]: false as soon as one side is [NaN]. *)
Definition num_lt (a b : num) : bool :=
  match a, b with
  | Num p, Num q => negb (Qle_bool q p)
  | _, _ => false
  end.

(** [a > b] *)
Definition num_gt (a b : num) : bool := num_lt b a.

(** [a >= b]: false as soon as one side is [NaN]. *)
Definition num_ge (a b : num) : bool :=
  match a, b with
  | Num p, Num q => Qle_bool q p
  | _, _ => false
  end.

(** [a === b] on numbers: [NaN] differs from itself. *)
Definition num_strict_eq (a b : num) : bool :=
  match a, b with
  | Num p, Num q => Qeq_bool p q
  | _, _ => false
  end.

(** SameValueZero on numbers (the equality of [Array.prototype.includes]):
    [NaN] equals itself. *)
Definition num_same (a b : num) : bool :=
  match a, b with
  | NaN, NaN => true
  | Num p, Num q => Qeq_bool p q
  | _, _ => false
  end.

(** ** Values *)

(** What [JSON.parse] can produce, with [undefined] for a property that is
    not there. An object is the list of its own properties. *)
Inductive value : Type :=
| VUndef
| VNull
| VBool (b : bool)
| VNum (n : num)
| VStr (s : string)
| VArr (items : list value)
| VObj (fields : list (string * value)).

Definition vint (z : Z) : value := VNum (int z).

(** ToBoolean. *)
Definition truthy (v : value) : bool :=
  match v with
  | VUndef | VNull => false
  | VBool b => b
  | VNum NaN => false
  | VNum (Num q) => negb (Qeq_bool q 0)
  | VStr s => negb (String.eqb s "")
  | VArr _ | VObj _ => true
  end.

(** [a || b] *)
Definition or_else (a b : value) : value := if truthy a then a else b.

Infix "|||" := or_else (at level 50, left associativity).

(** [n || 0] on a number. *)
Definition num_or (n d : num) : num :=
  if truthy (VNum n) then n else d.

Fixpoint lookup (fs : list (string * value)) (k : string) : option value :=
  match fs with
  | [] => None
  | (k', v) :: rest => if String.eqb k' k then Some v else lookup rest k
  end.

(** [o.k] for a value [o] other than [null] and [undefined]; none of the
    property names the program reads is defined on the prototype of a
    primitive, of an array or of a plain object, so reading them on anything
    but an object with that own property gives [undefined]. *)
Definition get (o : value) (k : string) : value :=
  match o with
  | VObj fs => match lookup fs k with Some v => v | None => VUndef end
  | _ => VUndef
  end.

(** [o.k] throws a TypeError exactly on [null] and [undefined]. *)
Definition nullish (v : value) : bool :=
  match v with
  | VUndef | VNull => true
  | _ => false
  end.

(** ** Characters and digits *)

Definition code (c : ascii) : Z := Z.of_nat (nat_of_ascii c).

(** StrWhiteSpaceChar, as far as 8-bit characters go. *)
Definition is_space (c : ascii) : bool :=
  let n := code c in
  ((9 <=? n) && (n <=? 13)) || (n =? 32) || (n =? 160).

Fixpoint trim_left (cs : list ascii) : list ascii :=
  match cs with
  | c :: rest => if is_space c then trim_left rest else cs
  | [] => []
  end.

(** The value of [c] as a digit in [radix], if it is one. *)
Definition digit_of (radix : Z) (c : ascii) : option Z :=
  let n := code c in
  let d :=
    if (48 <=? n) && (n <=? 57) then n - 48
    else if (97 <=? n) && (n <=? 122) then n - 87
    else if (65 <=? n) && (n <=? 90) then n - 55
    else 99 in
  if d <? radix then Some d else None.

(** Reads the longest prefix of digits: its value (continuing [acc]), the
    number of digits read and the rest of the input. *)
Fixpoint read_digits (radix : Z) (cs : list ascii) (acc : Z) (n : nat)
  : Z * nat * list ascii :=
  match cs with
  | c :: rest =>
      match digit_of radix c with
      | Some d => read_digits radix rest (acc * radix + d) (S n)
      | None => (acc, n, cs)
      end
  | [] => (acc, n, [])
  end.

Definition read_sign (cs : list ascii) : bool * list ascii :=
  match cs with
  | "-"%char :: rest => (true, rest)
  | "+"%char :: rest => (false, rest)
  | _ => (false, cs)
  end.

Definition signed (neg : bool) (q : Q) : Q := if neg then Qopp q else q.

(** [10 ^ e] for an integer exponent. *)
Definition pow10 (e : Z) : Q :=
  if 0 <=? e then (10 ^ e) # 1 else 1 # Z.to_pos (10 ^ (- e)).

(** ** parseInt and parseFloat on strings *)

(** [parseInt(s)] with no radix: leading white space, a sign, an optional
    [0x] prefix, then the longest run of digits; [NaN] without a digit. *)
Definition parseInt_str (s : string) : num :=
  let (neg, cs) := read_sign (trim_left (list_ascii_of_string s)) in
  let (radix, ds) :=
    match cs with
    | "0"%char :: "x"%char :: rest => (16, rest)
    | "0"%char :: "X"%char :: rest => (16, rest)
    | _ => (10, cs)
    end in
  match read_digits radix ds 0 0 with
  | (_, O, _) => NaN
  | (v, S _, _) => Num (Qred (signed neg (v # 1)))
  end.

(** The exponent part [e[+-]digits] if there is a complete one. *)
Definition read_exponent (cs : list ascii) : Z * list ascii :=
  match cs with
  | c :: rest =>
      if (code c =? 101) || (code c =? 69) then
        let (eneg, ds) := read_sign rest in
        match read_digits 10 ds 0 0 with
        | (_, O, _) => (0, cs)
        | (e, S _, rest') => ((if eneg then - e else e), rest')
        end
      else (0, cs)
  | [] => (0, [])
  end.

(** The longest prefix that is an unsigned decimal literal
    ([digits], [digits.digits], [.digits], each with an optional exponent):
    its value and the rest, or nothing when there is no digit. *)
Definition read_decimal (cs : list ascii) : option (Q * list ascii) :=
  let '(ip, ni, r1) := read_digits 10 cs 0 0 in
  let '(fp, nf, r2) :=
    match r1 with
    | "."%char :: r => read_digits 10 r 0 0
    | _ => (0, O, r1)
    end in
  let r2 :=
    match r1 with
    | "."%char :: _ => match ni, nf with O, O => r1 | _, _ => r2 end
    | _ => r1
    end in
  match ni, nf with
  | O, O => None
  | _, _ =>
      let (e, r3) := read_exponent r2 in
      let mant := ((ip # 1) + (fp # 1) * pow10 (- Z.of_nat nf))%Q in
      Some (Qred (mant * pow10 e), r3)
  end.

(** [parseFloat(s)]: leading white space, a sign, then the longest decimal
    literal; [NaN] when there is none. *)
Definition parseFloat_str (s : string) : num :=
  let (neg, cs) := read_sign (trim_left (list_ascii_of_string s)) in
  match read_decimal cs with
  | Some (q, _) => Num (Qred (signed neg q))
  | None => NaN
  end.

(** StringToNumber, the conversion behind [Number(s)] and behind [<] on a
    string operand: the whole string, white space trimmed, must be a
    literal; the empty string is [0]. *)
Definition string_to_number (s : string) : num :=
  let cs := trim_left (list_ascii_of_string s) in
  let all_space (r : list ascii) := forallb is_space r in
  let radix_literal (radix : Z) (ds : list ascii) :=
    match read_digits radix ds 0 0 with
    | (_, O, _) => NaN
    | (v, S _, r) => if all_space r then Num (v # 1) else NaN
    end in
  match cs with
  | [] => int 0
  | "0"%char :: "x"%char :: ds | "0"%char :: "X"%char :: ds => radix_literal 16 ds
  | "0"%char :: "o"%char :: ds | "0"%char :: "O"%char :: ds => radix_literal 8 ds
  | "0"%char :: "b"%char :: ds | "0"%char :: "B"%char :: ds => radix_literal 2 ds
  | _ =>
      let (neg, ds) := read_sign cs in
      match read_decimal ds with
      | Some (q, r) => if all_space r then Num (Qred (signed neg q)) else NaN
      | None => NaN
      end
  end.

(** ** Number to string *)

Definition digits_of_Z (z : Z) : list ascii :=
  list_ascii_of_string (NilZero.string_of_int (Z.to_int z)).

Fixpoint strip_zeros_rev (cs : list ascii) : list ascii :=
  match cs with
  | "0"%char :: rest => strip_zeros_rev rest
  | _ => cs
  end.

(** Drops the trailing zeros. *)
Definition strip_trailing_zeros (cs : list ascii) : list ascii :=
  rev (strip_zeros_rev (rev cs)).

Definition zeros (n : Z) : list ascii := repeat "0"%char (Z.to_nat n).

(** The significant digits kept when a number is printed. A double has at
    most 17; 21 are kept so that every integer below [10 ^ 21] prints
    exactly. *)
Definition sig_count : Z := 21.

(** For [q > 0]: the decimal exponent [n] with [10 ^ (n-1) <= q < 10 ^ n]
    and the first [sig_count] digits of [q] as an integer. *)
Definition scientific (q : Q) : Z * Z :=
  let r := Qred q in
  let da := Z.of_nat (List.length (digits_of_Z (Qnum r))) in
  let db := Z.of_nat (List.length (digits_of_Z (Zpos (Qden r)))) in
  let n0 := da - db in
  let n := if Qle_bool (pow10 n0) r then n0 + 1 else n0 in
  (n, Qfloor (r * pow10 (sig_count - n))).

(** Number::toString for a positive rational, after the case analysis of
    the language definition on the digits [s] and the exponent [n]. *)
Definition positive_to_chars (q : Q) : list ascii :=
  let (n, m) := scientific q in
  let s := strip_trailing_zeros (digits_of_Z m) in
  let k := Z.of_nat (List.length s) in
  if (k <=? n) && (n <=? 21) then s ++ zeros (n - k)
  else if (0 <? n) && (n <=? 21) then
    firstn (Z.to_nat n) s ++ "."%char :: skipn (Z.to_nat n) s
  else if (-6 <? n) && (n <=? 0) then
    "0"%char :: "."%char :: zeros (- n) ++ s
  else
    let e := n - 1 in
    let esign := if e <? 0 then "-"%char else "+"%char in
    let mant :=
      match s with
      | [d] => [d]
      | d :: rest => d :: "."%char :: rest
      | [] => []
      end in
    mant ++ "e"%char :: esign :: digits_of_Z (Z.abs e).

Definition number_to_string (n : num) : string :=
  match n with
  | NaN => "NaN"
  | Num q =>
      if Qeq_bool q 0 then "0"
      else if Qle_bool 0 q then string_of_list_ascii (positive_to_chars q)
      else string_of_list_ascii ("-"%char :: positive_to_chars (Qopp q))
  end.

(** ToString. An array prints its elements separated by commas, [null] and
    [undefined] elements as nothing. *)
Fixpoint to_string (v : value) : string :=
  match v with
  | VUndef => "undefined"
  | VNull => "null"
  | VBool true => "true"
  | VBool false => "false"
  | VNum n => number_to_string n
  | VStr s => s
  | VArr items =>
      (fix join (l : list value) : string :=
         match l with
         | [] => ""
         | x :: rest =>
             (match x with
              | VUndef | VNull => ""
              | _ => to_string x
              end)
             ++ (match rest with
                 | [] => ""
                 | _ :: _ => "," ++ join rest
                 end)
         end) items
  | VObj _ => "[object Object]"
  end.

(** ToNumber. *)
Definition to_number (v : value) : num :=
  match v with
  | VUndef => NaN
  | VNull => int 0
  | VBool true => int 1
  | VBool false => int 0
  | VNum n => n
  | VStr s => string_to_number s
  | VArr _ => string_to_number (to_string v)
  | VObj _ => NaN
  end.

(** ** parseInt and parseFloat on values *)

(** [parseInt] prints its argument and reads the integer prefix back. On a
    number the result is known without the detour: the integer part when the
    number prints in plain notation ([1e-6 <= |q| < 1e21]), and the leading
    digit when it prints in exponent notation. *)
Definition parseInt_num (n : num) : num :=
  match n with
  | NaN => NaN
  | Num q =>
      if Qeq_bool q 0 then int 0
      else
        let a := Qabs q in
        let neg := negb (Qle_bool 0 q) in
        if Qle_bool (pow10 (-6)) a && negb (Qle_bool (pow10 21) a)
        then Num (Qred (signed neg (Qfloor a # 1)))
        else
          let (_, m) := scientific a in
          Num (Qred (signed neg ((m / 10 ^ (sig_count - 1)) # 1)))
  end.

Definition parseInt (v : value) : num :=
  match v with
  | VNum n => parseInt_num n
  | _ => parseInt_str (to_string v)
  end.

(** [parseFloat] prints its argument and reads it back; printing a number
    and reading it back gives the number. *)
Definition parseFloat (v : value) : num :=
  match v with
  | VNum n => canon n
  | _ => parseFloat_str (to_string v)
  end.

(** ** Equality *)

(** SameValueZero, the equality of [Array.prototype.includes]. Two arrays
    or two objects are the same value only when they are the same object,
    which the values of the model do not record: they are taken to
    differ. *)
Definition same_value_zero (a b : value) : bool :=
  match a, b with
  | VUndef, VUndef => true
  | VNull, VNull => true
  | VBool x, VBool y => Bool.eqb x y
  | VNum x, VNum y => num_same x y
  | VStr x, VStr y => String.eqb x y
  | _, _ => false
  end.

(** [a === b]: as SameValueZero, but [NaN] differs from itself. *)
Definition strict_eq (a b : value) : bool :=
  match a, b with
  | VNum x, VNum y => num_strict_eq x y
  | _, _ => same_value_zero a b
  end.

(** [arr.includes(v)] *)
Definition includes (arr : list value) (v : value) : bool :=
  existsb (fun x => same_value_zero x v) arr.

(** ** Objects used as maps *)

(** The names a plain object inherits from [Object.prototype]; reading one
    of them on an object that has no such own property gives a function (or
    the prototype itself), which is truthy. *)
Definition object_prototype_names : list string :=
  [ "constructor"; "__defineGetter__"; "__defineSetter__"; "hasOwnProperty";
    "__lookupGetter__"; "__lookupSetter__"; "isPrototypeOf";
    "propertyIsEnumerable"; "toString"; "valueOf"; "__proto__";
    "toLocaleString" ].

Definition inherited (k : string) : bool :=
  existsb (String.eqb k) object_prototype_names.

(** An array index: the canonical decimal form of an integer below
    [2 ^ 32 - 1]. *)
Definition array_index (k : string) : option Z :=
  match read_digits 10 (list_ascii_of_string k) 0 0 with
  | (v, S _, []) =>
      if (v <? 2 ^ 32 - 1)
         && String.eqb (NilZero.string_of_int (Z.to_int v)) k
      then Some v else None
  | _ => None
  end.

Section Store.

(** An object whose own properties all hold a [G]: the properties in the
    order of their creation. *)
Variable G : Type.

Definition store : Type := list (string * G).

Fixpoint store_get (g : store) (k : string) : option G :=
  match g with
  | [] => None
  | (k', x) :: rest => if String.eqb k' k then Some x else store_get rest k
  end.

(** [g[k] = x] for a key that is already there: the property keeps its
    place. *)
Fixpoint store_update (g : store) (k : string) (f : G -> G) : store :=
  match g with
  | [] => []
  | (k', x) :: rest =>
      if String.eqb k' k then (k', f x) :: rest
      else (k', x) :: store_update rest k f
  end.

(** [g[k] = x] for a new key: the property is created last. *)
Definition store_create (g : store) (k : string) (x : G) : store :=
  (g ++ [(k, x)])%list.

Fixpoint insert_index (e : Z * G) (l : list (Z * G)) : list (Z * G) :=
  match l with
  | [] => [e]
  | e' :: rest =>
      if fst e <? fst e' then e :: l else e' :: insert_index e rest
  end.

(** The own properties that are array indices, by ascending index. *)
Fixpoint index_entries (g : store) : list (Z * G) :=
  match g with
  | [] => []
  | (k, x) :: rest =>
      match array_index k with
      | Some i => insert_index (i, x) (index_entries rest)
      | None => index_entries rest
      end
  end.

(** The own properties that are not array indices, by creation. *)
Fixpoint name_entries (g : store) : list G :=
  match g with
  | [] => []
  | (k, x) :: rest =>
      match array_index k with
      | Some _ => name_entries rest
      | None => x :: name_entries rest
      end
  end.

(** [Object.values(g)]: array indices first, ascending, then the other
    keys in the order of their creation. *)
Definition object_values (g : store) : list G :=
  (map snd (index_entries g) ++ name_entries g)%list.

End Store.

Arguments store_get {G}.
Arguments store_update {G}.
Arguments store_create {G}.
Arguments object_values {G}.
Arguments index_entries {G}.
Arguments name_entries {G}.
Arguments insert_index {G}.

(** ** Array.prototype.sort *)

Section Sort.

Variable A : Type.

(** The comparator, as the number it returns. *)
Variable compare : A -> A -> num.

(** [x] goes after [y] when the comparator says more than zero; a [NaN]
    counts as zero. *)
Definition goes_after (x y : A) : bool := num_gt (compare x y) (int 0).

Fixpoint sort_insert (x : A) (l : list A) : list A :=
  match l with
  | [] => [x]
  | y :: rest =>
      if goes_after x y then y :: sort_insert x rest else x :: l
  end.

(** The sort is stable (ECMAScript 2019): with a consistent comparator
    its result is the one of this insertion sort, which puts each element
    in front of the sorted rest and moves it behind the elements that go
    strictly before it. *)
Fixpoint sort (l : list A) : list A :=
  match l with
  | [] => []
  | x :: rest => sort_insert x (sort rest)
  end.

End Sort.

Arguments sort {A}.
Arguments sort_insert {A}.
Arguments goes_after {A}.

(** ** The values that are converted as the program converts them

    A conversion of an object to a text or to a number calls its
    [toString]. When the object holds an own property of that name, which
    in a value read from JSON is never a function, the conversion throws a
    TypeError, whatever [valueOf] is; otherwise [Object.prototype.toString]
    answers. And a text or a literal beyond the range of the doubles is read
    as an infinity, as is the text [Infinity], and one too small for them as
    zero. None of this is represented by [to_string], [to_number],
    [parseInt] and [parseFloat]; the predicates below delimit the values on
    which none of it happens. *)

(** The number is within the range of the doubles: [NaN], zero, or a
    magnitude that is neither read as an infinity (the largest double is
    about [1.797e308]) nor as zero (the smallest is about [4.94e-324]). *)
Definition in_range (n : num) : bool :=
  match n with
  | NaN => true
  | Num q =>
      Qeq_bool q 0
      || (Qle_bool (pow10 (-323)) (Qabs q) && Qle_bool (Qabs q) (pow10 308))
  end.

(** The conversion of the value to a text is the one of [to_string]: it
    does not throw, because no object that is converted, the value itself
    or an element of an array that is joined, holds an own property
    [toString]; and it prints no infinity, because the numbers are within
    range. *)
Fixpoint prints (v : value) : bool :=
  match v with
  | VNum n => in_range n
  | VArr items => forallb prints items
  | VObj fields =>
      match lookup fields "toString" with
      | Some _ => false
      | None => true
      end
  | _ => true
  end.

Fixpoint starts_with (prefix cs : list ascii) : bool :=
  match prefix, cs with
  | [], _ => true
  | p :: prefix', c :: cs' => Ascii.eqb p c && starts_with prefix' cs'
  | _ :: _, [] => false
  end.

(** The text is one that [Number] or [parseFloat] reads as an infinity:
    after white space and a sign, it starts with [Infinity]. *)
Definition infinity_text (s : string) : bool :=
  let (_, cs) := read_sign (trim_left (list_ascii_of_string s)) in
  starts_with (list_ascii_of_string "Infinity") cs.

(** The values that [Number], [parseInt], [parseFloat] and the arithmetic
    operators read as [to_number], [parseInt] and [parseFloat] do: the
    conversion does not throw, and both the value and what its text is read
    as are within range. *)
Definition readable (v : value) : bool :=
  prints v
  && match v with
     | VStr _ | VArr _ =>
         let s := to_string v in
         negb (infinity_text s)
         && in_range (string_to_number s)
         && in_range (parseInt_str s)
         && in_range (parseFloat_str s)
     | _ => true
     end.

End JS.

(* ====================================================================== *)
(** * Errors                                                               *)
(* ====================================================================== *)

(** What the program can throw. The two [Error] objects it builds itself
    are told apart by their message; the others come from the platform. *)
Inductive error : Type :=
| TypeError                 (* property read on null/undefined, spread of a non-iterable *)
| LoginFailed (status : Z)  (* new Error(`Login failed: ${res.status}`) *)
| ApiError (status : Z)     (* new Error(`API Error: ${res.status}`) *)
| NetworkError              (* fetch rejected *)
| SyntaxError.              (* res.json() rejected *)

Inductive result (A : Type) : Type :=
| Ok (a : A)
| Throw (e : error).

Arguments Ok {A}.
Arguments Throw {A}.

(* ====================================================================== *)
(** * The normalizer: [transformData]                                      *)
(* ====================================================================== *)

Module Normalizer.
Import JS.

(** What [new Date()] gives while one record is mapped. *)
Record Clock : Type := {
  fullYear : Z;          (* new Date().getFullYear() *)
  isoString : string     (* new Date().toISOString() *)
}.

Record NormalizedRecord : Type := {
  id : value;
  nome : value;
  cidade : value;
  estado : value;
  bairro : value;
  incorporadora : value;
  tipo : value;
  padrao : value;
  tipoImovel : value;
  quartos : num;
  vgvTotal : num;
  vgvVendido : num;
  unidadesVendidas : num;
  totalUnidades : num;
  preco : num;
  m2 : num;
  valorM2 : num;
  status : value;
  anoLancamento : num;
  dataAtualizacao : value
}.

(** The arrow function given to [apiData.map], for an [emp] that is neither
    [null] nor [undefined]. *)
Definition normalize (now : Clock) (emp : value) (index : nat)
  : NormalizedRecord :=
  {| id := get emp "id" ||| vint (Z.of_nat index);
     nome := get emp "nome" ||| get emp "empreendimento" ||| get emp "name"
             ||| VStr "N/A";
     cidade := get emp "cidade" ||| get emp "city" ||| VStr "N/A";
     estado := get emp "estado" ||| get emp "uf" ||| get emp "state"
               ||| VStr "N/A";
     bairro := get emp "bairro" ||| get emp "neighborhood" ||| VStr "N/A";
     incorporadora := get emp "incorporadora" ||| get emp "construtora"
                      ||| get emp "developer" ||| VStr "N/A";
     tipo := get emp "tipo" ||| get emp "type" ||| VStr "Vertical";
     padrao := get emp "padrao" ||| get emp "standard" ||| VStr "Standard";
     tipoImovel := get emp "tipologia" ||| get emp "tipo_imovel"
                   ||| get emp "property_type" ||| VStr "Padrao";
     quartos := parseInt (get emp "quartos" ||| get emp "dormitorios"
                          ||| get emp "bedrooms" ||| vint 2);
     vgvTotal := parseFloat (get emp "vgv_total" ||| get emp "vgv"
                             ||| get emp "total_value" ||| vint 0);
     vgvVendido := parseFloat (get emp "vgv_vendido" ||| get emp "sold_value"
                               ||| vint 0);
     unidadesVendidas := parseInt (get emp "unidades_vendidas"
                                   ||| get emp "sold_units" ||| vint 0);
     totalUnidades := parseInt (get emp "total_unidades" ||| get emp "unidades"
                                ||| get emp "total_units" ||| vint 0);
     preco := parseFloat (get emp "preco_medio" ||| get emp "ticket_medio"
                          ||| get emp "average_price" ||| vint 0);
     m2 := parseFloat (get emp "area_privativa" ||| get emp "m2"
                       ||| get emp "private_area" ||| vint 0);
     valorM2 := parseFloat (get emp "valor_m2" ||| get emp "price_per_sqm"
                            ||| vint 0);
     status := get emp "status" ||| VStr "Comercializacao";
     anoLancamento := parseInt (get emp "ano_lancamento" ||| get emp "ano"
                                ||| get emp "launch_year"
                                ||| vint (fullYear now));
     dataAtualizacao := get emp "updated_at" ||| get emp "data_atualizacao"
                        ||| VStr (isoString now) |}.

Section TransformData.

(** The clock as read while the record at each index is mapped. *)
Variable clock : nat -> Clock.

(** [apiData.map((emp, index) => ...)] from position [index] on. Reading
    [emp.id] throws when [emp] is [null] or [undefined], and the exception
    leaves [map]. *)
Fixpoint transform_from (index : nat) (apiData : list value)
  : result (list NormalizedRecord) :=
  match apiData with
  | [] => Ok []
  | emp :: rest =>
      if nullish emp then Throw TypeError
      else
        match transform_from (S index) rest with
        | Ok out => Ok (normalize (clock index) emp index :: out)
        | Throw e => Throw e
        end
  end.

Definition transformData (apiData : list value)
  : result (list NormalizedRecord) :=
  transform_from 0 apiData.

End TransformData.

(** The raw record that carries a normalized record under the first alias
    of every field, as the specification's idempotence property reads a
    normalized record back. *)
Definition as_default_aliases (r : NormalizedRecord) : value :=
  VObj [ ("id", id r);
         ("nome", nome r);
         ("cidade", cidade r);
         ("estado", estado r);
         ("bairro", bairro r);
         ("incorporadora", incorporadora r);
         ("tipo", tipo r);
         ("padrao", padrao r);
         ("tipologia", tipoImovel r);
         ("quartos", VNum (quartos r));
         ("vgv_total", VNum (vgvTotal r));
         ("vgv_vendido", VNum (vgvVendido r));
         ("unidades_vendidas", VNum (unidadesVendidas r));
         ("total_unidades", VNum (totalUnidades r));
         ("preco_medio", VNum (preco r));
         ("area_privativa", VNum (m2 r));
         ("valor_m2", VNum (valorM2 r));
         ("status", status r);
         ("ano_lancamento", VNum (anoLancamento r));
         ("updated_at", dataAtualizacao r) ].

(** The fields that fall back on a text are truthy, the identifier is
    truthy or the index, and the fields read by [parseFloat] are in lowest
    terms. *)
Definition well_formed (index : nat) (r : NormalizedRecord) : Prop :=
  (truthy (id r) = true \/ id r = vint (Z.of_nat index))
  /\ truthy (nome r) = true /\ truthy (cidade r) = true
  /\ truthy (estado r) = true /\ truthy (bairro r) = true
  /\ truthy (incorporadora r) = true /\ truthy (tipo r) = true
  /\ truthy (padrao r) = true /\ truthy (tipoImovel r) = true
  /\ truthy (status r) = true
  /\ canon (vgvTotal r) = vgvTotal r /\ canon (vgvVendido r) = vgvVendido r
  /\ canon (preco r) = preco r /\ canon (m2 r) = m2 r
  /\ canon (valorM2 r) = valorM2 r.

(** No alias of the list is a property of the raw record. *)
Definition absent (emp : value) (aliases : list string) : Prop :=
  Forall (fun k => get emp k = VUndef) aliases.

(** The raw record has no identifier, or a falsy one. *)
Definition lacks_id (emp : value) : Prop := truthy (get emp "id") = false.

(** A character a numeric text can start with: white space, a sign, a
    digit, a dot. *)
Definition numeric_start (c : ascii) : bool :=
  is_space c
  || match digit_of 10 c with Some _ => true | None => false end
  || Ascii.eqb c "-" || Ascii.eqb c "+" || Ascii.eqb c ".".

(** Values that are truthy and not numeric: a text that does not start like
    a number, [true], an object. *)
Inductive non_numeric : value -> Prop :=
| non_numeric_text (c : ascii) (s : string) :
    numeric_start c = false -> non_numeric (VStr (String c s))
| non_numeric_true : non_numeric (VBool true)
| non_numeric_object (fields : list (string * value)) :
    non_numeric (VObj fields).

(** An integer below [10 ^ 21] in magnitude, the range where an integer
    prints in plain notation. *)
Definition plain_integer (x : num) : Prop :=
  exists z, x = int z /\ Z.abs z < 10 ^ 21.

(** The records on which a second normalization changes nothing: no numeric
    field is [NaN], the four integer fields are below [10 ^ 21] in
    magnitude, the bedroom count and the launch year are not zero, and the
    time stamp is not empty. *)
Definition settled_record (r : NormalizedRecord) : Prop :=
  plain_integer (quartos r) /\ quartos r <> int 0
  /\ plain_integer (anoLancamento r) /\ anoLancamento r <> int 0
  /\ plain_integer (unidadesVendidas r)
  /\ plain_integer (totalUnidades r)
  /\ is_nan (vgvTotal r) = false
  /\ is_nan (vgvVendido r) = false
  /\ is_nan (preco r) = false
  /\ is_nan (m2 r) = false
  /\ is_nan (valorM2 r) = false
  /\ truthy (dataAtualizacao r) = true.

(** Re-normalizing the output, read back through the first alias of every
    field, gives the output again. *)
Definition idempotent_on (clock : nat -> Clock) (apiData : list value)
  : Prop :=
  forall out,
    transformData clock apiData = Ok out ->
    transformData clock (map as_default_aliases out) = Ok out.

(** The identifiers of the records at two different positions differ. *)
Definition distinct_ids (out : list NormalizedRecord) : Prop :=
  forall i j ri rj,
    i <> j -> nth_error out i = Some ri -> nth_error out j = Some rj ->
    strict_eq (id ri) (id rj) = false.

(** The defaults as the specification states them, on three fields: a
    numeric field without a source is [0], and the fields that hold text
    share one sentinel. *)
Definition bedrooms_default_to_zero : Prop :=
  forall now emp index,
    absent emp ["quartos"; "dormitorios"; "bedrooms"] ->
    quartos (normalize now emp index) = int 0.

Definition texts_share_a_sentinel : Prop :=
  exists unknown : value,
    forall now emp index,
      (absent emp ["nome"; "empreendimento"; "name"] ->
       nome (normalize now emp index) = unknown)
      /\ (absent emp ["tipo"; "type"] ->
          tipo (normalize now emp index) = unknown).

Definition non_numeric_is_zero : Prop :=
  forall now emp index v,
    non_numeric v -> get emp "vgv_total" = v ->
    vgvTotal (normalize now emp index) = int 0.

(** A clock that stands still. *)
Definition frozen : nat -> Clock :=
  fun _ => {| fullYear := 2026; isoString := "2026-01-01T00:00:00.000Z" |}.

(** The properties that [transformData] gives to [parseInt] or to
    [parseFloat]. *)
Definition numeric_aliases : list string :=
  [ "quartos"; "dormitorios"; "bedrooms";
    "vgv_total"; "vgv"; "total_value";
    "vgv_vendido"; "sold_value";
    "unidades_vendidas"; "sold_units";
    "total_unidades"; "unidades"; "total_units";
    "preco_medio"; "ticket_medio"; "average_price";
    "area_privativa"; "m2"; "private_area";
    "valor_m2"; "price_per_sqm";
    "ano_lancamento"; "ano"; "launch_year" ].

(** A raw record whose numeric properties hold readable values: [parseInt]
    and [parseFloat] read whichever alias they are given without a
    TypeError and within the range of the doubles. *)
Definition readable_record (emp : value) : Prop :=
  Forall (fun k => readable (get emp k) = true) numeric_aliases.

(** The field prints in every record: the dashboard converts it to a
    text, as an element that [sort()] compares or as a property key,
    without a TypeError and as [to_string] does. *)
Definition printable (field : NormalizedRecord -> value)
  (data : list NormalizedRecord) : Prop :=
  Forall (fun d => prints (field d) = true) data.

End Normalizer.

(* ====================================================================== *)
(** * The filter engine: [DEFAULT_FILTERS] and [filteredData]              *)
(* ====================================================================== *)

Module FilterEngine.
Import JS.

(** The state held by [filters]: ten arrays of selected values and three
    two-element arrays [[min, max]]. *)
Record Filters : Type := {
  estados : list value;
  cidades : list value;
  bairros : list value;
  padroes : list value;
  status : list value;
  tipos : list value;
  tiposImovel : list value;
  quartos : list value;
  anosLancamento : list value;
  incorporadoras : list value;
  m2Range : num * num;
  ticketRange : num * num;
  valorM2Range : num * num
}.

Definition DEFAULT_FILTERS : Filters :=
  {| estados := []; cidades := []; bairros := []; padroes := [];
     status := []; tipos := []; tiposImovel := []; quartos := [];
     anosLancamento := []; incorporadoras := [];
     m2Range := (int 0, int 2000);
     ticketRange := (int 0, int 100000000);
     valorM2Range := (int 0, int 100000) |}.

(** [sel.length && !sel.includes(v)] *)
Definition excludes (sel : list value) (v : value) : bool :=
  negb (Nat.eqb (List.length sel) 0) && negb (includes sel v).

(** [x < range[0] || x > range[1]] *)
Definition outside (range : num * num) (x : num) : bool :=
  num_lt x (fst range) || num_gt x (snd range).

(** The predicate given to [rawData.filter]. *)
Definition keeps (filters : Filters) (i : Normalizer.NormalizedRecord)
  : bool :=
  if excludes (estados filters) (Normalizer.estado i) then false
  else if excludes (cidades filters) (Normalizer.cidade i) then false
  else if excludes (bairros filters) (Normalizer.bairro i) then false
  else if excludes (padroes filters) (Normalizer.padrao i) then false
  else if excludes (status filters) (Normalizer.status i) then false
  else if excludes (tipos filters) (Normalizer.tipo i) then false
  else if excludes (tiposImovel filters) (Normalizer.tipoImovel i) then false
  else if excludes (quartos filters) (VNum (Normalizer.quartos i)) then false
  else if excludes (anosLancamento filters)
                   (VNum (Normalizer.anoLancamento i)) then false
  else if excludes (incorporadoras filters) (Normalizer.incorporadora i)
       then false
  else if outside (m2Range filters) (Normalizer.m2 i) then false
  else if outside (ticketRange filters) (Normalizer.preco i) then false
  else if outside (valorM2Range filters) (Normalizer.valorM2 i) then false
  else true.

Definition filteredData (rawData : list Normalizer.NormalizedRecord)
  (filters : Filters) : list Normalizer.NormalizedRecord :=
  filter (keeps filters) rawData.

(** [lo <= x <= hi] for three numbers. *)
Definition within (range : num * num) (x : num) : Prop :=
  exists lo hi q,
    fst range = Num lo /\ snd range = Num hi /\ x = Num q
    /\ (lo <= q)%Q /\ (q <= hi)%Q.

(** [v] is one of the selected values. *)
Definition selected (sel : list value) (v : value) : Prop :=
  exists x, In x sel /\ same_value_zero x v = true.

(** The record passes the selection, as the specification puts it: every
    categorical dimension with a non-empty selection holds a selected value,
    and the three numeric values lie within their ranges. *)
Definition passes (filters : Filters) (i : Normalizer.NormalizedRecord)
  : Prop :=
  (estados filters = [] \/ selected (estados filters) (Normalizer.estado i))
  /\ (cidades filters = [] \/ selected (cidades filters) (Normalizer.cidade i))
  /\ (bairros filters = [] \/ selected (bairros filters) (Normalizer.bairro i))
  /\ (padroes filters = [] \/ selected (padroes filters) (Normalizer.padrao i))
  /\ (status filters = [] \/ selected (status filters) (Normalizer.status i))
  /\ (tipos filters = [] \/ selected (tipos filters) (Normalizer.tipo i))
  /\ (tiposImovel filters = []
      \/ selected (tiposImovel filters) (Normalizer.tipoImovel i))
  /\ (quartos filters = []
      \/ selected (quartos filters) (VNum (Normalizer.quartos i)))
  /\ (anosLancamento filters = []
      \/ selected (anosLancamento filters) (VNum (Normalizer.anoLancamento i)))
  /\ (incorporadoras filters = []
      \/ selected (incorporadoras filters) (Normalizer.incorporadora i))
  /\ within (m2Range filters) (Normalizer.m2 i)
  /\ within (ticketRange filters) (Normalizer.preco i)
  /\ within (valorM2Range filters) (Normalizer.valorM2 i).

(** The three numeric values of the record and the six bounds of the
    selection are numbers. *)
Definition numeric (filters : Filters) (i : Normalizer.NormalizedRecord)
  : Prop :=
  is_nan (Normalizer.m2 i) = false
  /\ is_nan (Normalizer.preco i) = false
  /\ is_nan (Normalizer.valorM2 i) = false
  /\ is_nan (fst (m2Range filters)) = false
  /\ is_nan (snd (m2Range filters)) = false
  /\ is_nan (fst (ticketRange filters)) = false
  /\ is_nan (snd (ticketRange filters)) = false
  /\ is_nan (fst (valorM2Range filters)) = false
  /\ is_nan (snd (valorM2Range filters)) = false.

(** [x] is a number above [b]; [x] is a number below zero. *)
Definition exceeds (x : num) (b : Z) : Prop :=
  exists q, x = Num q /\ (inject_Z b < q)%Q.

Definition negative (x : num) : Prop :=
  exists q, x = Num q /\ (q < 0)%Q.

(** A record as [transformData] builds it from a raw record whose private
    area is the text ["abc"]: its [m2] is [NaN]. *)
Definition record_without_area : Normalizer.NormalizedRecord :=
  Normalizer.normalize
    {| Normalizer.fullYear := 2026;
       Normalizer.isoString := "2026-01-01T00:00:00.000Z" |}
    (VObj [("area_privativa", VStr "abc")]) 0.

End FilterEngine.

(* ====================================================================== *)
(** * The aggregation engine: the grouped series                           *)
(* ====================================================================== *)

Module Aggregation.
Import JS.

(** The objects of [vgvPorCidade] and [vgvPorPadrao]:
    [{ cidade, vgvTotal, vgvVendido }] and [{ padrao, vgvTotal, vgvVendido }];
    [label] is the [cidade] or the [padrao]. *)
Record Group : Type := {
  label : value;
  vgvTotal : num;
  vgvVendido : num
}.

(** The objects of [vgvPorTipo]: [{ tipo, vgvTotal }]. *)
Record TipoGroup : Type := {
  tipo : value;
  tipoVgvTotal : num
}.

Section GroupBy.

(** The shape shared by the three [forEach] loops: [G] is the type of the
    group objects, [field] the property of the record the groups are keyed
    by, [init] the object created for a new key and [add] the compound
    assignments done for each record. *)
Variable G : Type.
Variable field : Normalizer.NormalizedRecord -> value.
Variable init : value -> G.
Variable add : Normalizer.NormalizedRecord -> G -> G.

(** One iteration:
    [if (!g[k]) g[k] = init; g[k].vgvTotal += ...].
    The key is the field converted to a property key. For a name
    inherited from [Object.prototype], [g[k]] is truthy without being an
    own property, nothing is created, and the assignments land on the
    inherited object. *)
Definition group_step (g : store G) (i : Normalizer.NormalizedRecord)
  : store G :=
  let k := to_string (field i) in
  if inherited k then g
  else
    let g' :=
      match store_get g k with
      | Some _ => g
      | None => store_create g k (init (field i))
      end in
    store_update g' k (add i).

(** [const g = {}; filteredData.forEach(...)] *)
Definition group_by (data : list Normalizer.NormalizedRecord) : store G :=
  fold_left group_step data [].

End GroupBy.

Arguments group_by {G}.
Arguments group_step {G}.

Definition new_group (v : value) : Group :=
  {| label := v; vgvTotal := int 0; vgvVendido := int 0 |}.

(** [g[k].vgvTotal += i.vgvTotal || 0; g[k].vgvVendido += i.vgvVendido || 0] *)
Definition add_to_group (i : Normalizer.NormalizedRecord) (x : Group)
  : Group :=
  {| label := label x;
     vgvTotal := num_add (vgvTotal x) (num_or (Normalizer.vgvTotal i) (int 0));
     vgvVendido :=
       num_add (vgvVendido x) (num_or (Normalizer.vgvVendido i) (int 0)) |}.

Definition new_tipo_group (v : value) : TipoGroup :=
  {| tipo := v; tipoVgvTotal := int 0 |}.

(** [g[i.tipo].vgvTotal += i.vgvTotal || 0] *)
Definition add_to_tipo_group (i : Normalizer.NormalizedRecord) (x : TipoGroup)
  : TipoGroup :=
  {| tipo := tipo x;
     tipoVgvTotal :=
       num_add (tipoVgvTotal x) (num_or (Normalizer.vgvTotal i) (int 0)) |}.

(** [(a, b) => b.vgvTotal - a.vgvTotal] *)
Definition by_vgvTotal_desc (a b : Group) : num :=
  num_sub (vgvTotal b) (vgvTotal a).

Definition vgvPorCidade (filteredData : list Normalizer.NormalizedRecord)
  : list Group :=
  firstn 8
    (sort by_vgvTotal_desc
       (object_values
          (group_by Normalizer.cidade new_group add_to_group filteredData))).

Definition vgvPorTipo (filteredData : list Normalizer.NormalizedRecord)
  : list TipoGroup :=
  object_values
    (group_by Normalizer.tipo new_tipo_group add_to_tipo_group filteredData).

Definition vgvPorPadrao (filteredData : list Normalizer.NormalizedRecord)
  : list Group :=
  firstn 8
    (sort by_vgvTotal_desc
       (object_values
          (group_by Normalizer.padrao new_group add_to_group filteredData))).

(** *** The series as the specification describes them *)

(** The property key a record is grouped under. *)
Definition key_of (field : Normalizer.NormalizedRecord -> value)
  (i : Normalizer.NormalizedRecord) : string :=
  to_string (field i).

(** The distinct keys of a list, in the order of their first occurrence. *)
Fixpoint first_occurrences (ks : list string) : list string :=
  match ks with
  | [] => []
  | k :: rest =>
      k :: filter (fun k' => negb (String.eqb k k')) (first_occurrences rest)
  end.

(** The keys that get a group: the distinct keys of the records, first
    met first, but for the names inherited from [Object.prototype]. *)
Definition group_keys (field : Normalizer.NormalizedRecord -> value)
  (data : list Normalizer.NormalizedRecord) : list string :=
  first_occurrences
    (filter (fun k => negb (inherited k)) (map (key_of field) data)).

(** The records grouped under [k], in their order. *)
Definition members (field : Normalizer.NormalizedRecord -> value)
  (data : list Normalizer.NormalizedRecord) (k : string)
  : list Normalizer.NormalizedRecord :=
  filter (fun i => String.eqb (key_of field i) k) data.

(** What a loop has stored under [k] once it has gone through [done]:
    nothing for an inherited name or a key not met, and otherwise the
    object created at the first record of the key, after the assignments
    done for each record of the key. *)
Definition folded {G : Type} (field : Normalizer.NormalizedRecord -> value)
  (init : value -> G) (add : Normalizer.NormalizedRecord -> G -> G)
  (done : list Normalizer.NormalizedRecord) (k : string) : option G :=
  if inherited k then None
  else
    match members field done k with
    | [] => None
    | i0 :: l =>
        Some (fold_left (fun x i => add i x) (i0 :: l) (init (field i0)))
    end.

(** The launched total of the group is a number. *)
Definition numeric_total (x : Group) : Prop := is_nan (vgvTotal x) = false.

(** What a value contributes to a sum: the value, and nothing for [NaN]. *)
Definition amount (x : num) : Q :=
  match x with
  | Num q => q
  | NaN => 0
  end.

Definition sum_of (f : Normalizer.NormalizedRecord -> num)
  (l : list Normalizer.NormalizedRecord) : Q :=
  fold_right (fun i acc => (amount (f i) + acc)%Q) 0%Q l.

(** The group of the key [k]: labelled by the first record of the group,
    with the sums of the launched and of the sold values of its members. *)
Definition group_of (field : Normalizer.NormalizedRecord -> value)
  (data : list Normalizer.NormalizedRecord) (k : string) : Group :=
  {| label :=
       match members field data k with
       | i :: _ => field i
       | [] => VUndef
       end;
     vgvTotal := Num (Qred (sum_of Normalizer.vgvTotal (members field data k)));
     vgvVendido :=
       Num (Qred (sum_of Normalizer.vgvVendido (members field data k))) |}.

Definition tipo_group_of (data : list Normalizer.NormalizedRecord)
  (k : string) : TipoGroup :=
  {| tipo :=
       match members Normalizer.tipo data k with
       | i :: _ => Normalizer.tipo i
       | [] => VUndef
       end;
     tipoVgvTotal :=
       Num (Qred (sum_of Normalizer.vgvTotal
                    (members Normalizer.tipo data k))) |}.

(** No record is grouped under an array index. *)
Definition no_index_key (field : Normalizer.NormalizedRecord -> value)
  (data : list Normalizer.NormalizedRecord) : Prop :=
  forall i, In i data -> array_index (key_of field i) = None.

(** [a] has a launched total at least as large as [b]'s. *)
Definition at_least (a b : Group) : Prop :=
  exists p q, vgvTotal a = Num p /\ vgvTotal b = Num q /\ (q <= p)%Q.

Definition tipo_at_least (a b : TipoGroup) : Prop :=
  exists p q, tipoVgvTotal a = Num p /\ tipoVgvTotal b = Num q /\ (q <= p)%Q.

(** The group has the launched total [q]. *)
Definition has_total (q : Q) (x : Group) : bool :=
  match vgvTotal x with
  | Num p => Qeq_bool p q
  | NaN => false
  end.

(** A record of the city (and type, and tier) [name] with the launched
    value [launched]. *)
Definition project (name : string) (launched : Z)
  : Normalizer.NormalizedRecord :=
  Normalizer.normalize (Normalizer.frozen 0)
    (VObj [("cidade", VStr name); ("tipo", VStr name);
           ("padrao", VStr name); ("vgv_total", vint launched)]) 0.

(** *** The amounts that are added as the program adds them

    The program adds doubles, [num_add] adds rationals. The two agree on
    whole amounts whose magnitudes add up to at most [2 ^ 53]: the sum of
    any of them, in any order and any grouping, is a whole number of
    magnitude at most [2 ^ 53], which is a double, so that no addition and
    no subtraction of two such sums rounds. A [NaN] amount counts for
    nothing, as under [|| 0]. *)

(** [NaN] or a whole number. *)
Definition whole_amount (x : num) : bool :=
  match x with
  | NaN => true
  | Num q => Pos.eqb (Qden (Qred q)) 1
  end.

(** The sum of the magnitudes of the amounts. *)
Definition magnitude (f : Normalizer.NormalizedRecord -> num)
  (l : list Normalizer.NormalizedRecord) : Q :=
  fold_right (fun i acc => (Qabs (amount (f i)) + acc)%Q) 0%Q l.

Definition adds_exactly (f : Normalizer.NormalizedRecord -> num)
  (l : list Normalizer.NormalizedRecord) : Prop :=
  Forall (fun i => whole_amount (f i) = true) l
  /\ (magnitude f l <= inject_Z (2 ^ 53))%Q.

End Aggregation.

(* ====================================================================== *)
(** * The session manager: token state and [login]                         *)
(* ====================================================================== *)

Module Session.
Import JS.

(** The fields of [GeoBrainApiService]. A promise is known by the number of
    the login attempt that created it. *)
Record Service : Type := {
  token : value;
  tokenExpiresAt : num;
  refreshPromise : option nat
}.

(** [constructor()] *)
Definition new_service : Service :=
  {| token := VNull; tokenExpiresAt := int 0; refreshPromise := None |}.

Definition set_token (s : Service) (t : value) : Service :=
  {| token := t; tokenExpiresAt := tokenExpiresAt s;
     refreshPromise := refreshPromise s |}.

Definition set_tokenExpiresAt (s : Service) (e : num) : Service :=
  {| token := token s; tokenExpiresAt := e;
     refreshPromise := refreshPromise s |}.

Definition set_refreshPromise (s : Service) (p : option nat) : Service :=
  {| token := token s; tokenExpiresAt := tokenExpiresAt s;
     refreshPromise := p |}.

(** [isTokenExpired()], with [now] the value of [Date.now()]. *)
Definition isTokenExpired (s : Service) (now : Z) : bool :=
  if negb (truthy (token s)) then true
  else num_ge (int now) (num_sub (tokenExpiresAt s) (int 60000)).

(** What a fetch settles with: a rejection, or a response with its status
    and the value [res.json()] resolves to ([None] when it rejects). *)
Inductive fetch_result : Type :=
| Rejected
| Response (status : Z) (body : option value).

(** [res.ok] *)
Definition ok (status : Z) : bool := (200 <=? status) && (status <=? 299).

Section Login.

(** [JSON.parse(atob(token.split(".")[1]))]: the decoded payload of the
    token, [None] when one of the three steps throws. *)
Variable jwt_payload : value -> option value.

(** [parseTokenExpiry(token)], with [now] the value of [Date.now()].
    Reading [payload.exp] on a [null] payload throws inside the [try]. *)
Definition parseTokenExpiry (token : value) (now : Z) : num :=
  match jwt_payload token with
  | Some payload =>
      if nullish payload then int (now + 50 * 60 * 1000)
      else num_mul (to_number (get payload "exp")) (int 1000)
  | None => int (now + 50 * 60 * 1000)
  end.

(** The body of the async function of [login] runs in three pieces, cut
    at its two [await]s. This is the piece that runs when the fetch
    settles: the body goes on to [res.json()] or throws. *)
Definition after_fetch (r : fetch_result) : result (option value) :=
  match r with
  | Rejected => Throw NetworkError
  | Response status body =>
      if ok status then Ok body else Throw (LoginFailed status)
  end.

(** The piece that runs when [res.json()] settles: the token and its
    expiry are stored and the token is returned. *)
Definition after_json (s : Service) (body : option value) (now : Z)
  : Service * result value :=
  match body with
  | None => (s, Throw SyntaxError)
  | Some data =>
      if nullish data then (s, Throw TypeError)
      else
        let t := get data "token" ||| get data "access_token" in
        (set_tokenExpiresAt (set_token s t) (parseTokenExpiry t now), Ok t)
  end.

(** Where the in-flight body of [login] is suspended. *)
Inductive phase : Type :=
| AwaitingFetch
| AwaitingJson (body : option value).

(** The service together with what the event loop holds for it: the
    suspended body of the login in flight with the promise it will settle,
    the promises already settled, and two counters, of the login requests
    sent and of the executions of the [finally] block. *)
Record Runtime : Type := {
  service : Service;
  attempt : option (nat * phase);
  settled : list (nat * result value);
  loginCalls : nat;
  cleared : nat
}.

Definition start : Runtime :=
  {| service := new_service; attempt := None; settled := [];
     loginCalls := 0; cleared := 0 |}.

(** What can happen to the service between two suspensions. *)
Inductive event : Type :=
| CallLogin                         (* somebody calls login() *)
| FetchSettles (r : fetch_result)   (* the login request is answered *)
| JsonSettles (now : Z)             (* the body of the answer is read *)
| Invalidate.                       (* request() sets this.token = null *)

(** The promise a call of [login()] returns in this state: the one in
    flight, or the one the call creates. *)
Definition login_promise (rt : Runtime) : nat :=
  match refreshPromise (service rt) with
  | Some p => p
  | None => loginCalls rt
  end.

(** The end of the body: the promise settles and
    [finally { this.refreshPromise = null }] runs. *)
Definition finish (rt : Runtime) (p : nat) (s : Service) (r : result value)
  : Runtime :=
  {| service := set_refreshPromise s None;
     attempt := None;
     settled := (p, r) :: settled rt;
     loginCalls := loginCalls rt;
     cleared := S (cleared rt) |}.

(** What an event does. A call to [login()] returns the promise in flight
    or, when there is none, runs the body up to [await fetch(...)]: the
    request is sent and the marker is set. The two other pieces of the body
    run when what they wait for settles; an event that nothing waits for
    changes nothing. *)
Definition step (rt : Runtime) (ev : event) : Runtime :=
  match ev with
  | CallLogin =>
      match refreshPromise (service rt) with
      | Some _ => rt
      | None =>
          {| service :=
               set_refreshPromise (service rt) (Some (loginCalls rt));
             attempt := Some (loginCalls rt, AwaitingFetch);
             settled := settled rt;
             loginCalls := S (loginCalls rt);
             cleared := cleared rt |}
      end
  | FetchSettles r =>
      match attempt rt with
      | Some (p, AwaitingFetch) =>
          match after_fetch r with
          | Ok body =>
              {| service := service rt;
                 attempt := Some (p, AwaitingJson body);
                 settled := settled rt;
                 loginCalls := loginCalls rt;
                 cleared := cleared rt |}
          | Throw e => finish rt p (service rt) (Throw e)
          end
      | _ => rt
      end
  | JsonSettles now =>
      match attempt rt with
      | Some (p, AwaitingJson body) =>
          let (s, r) := after_json (service rt) body now in
          finish rt p s r
      | _ => rt
      end
  | Invalidate =>
      {| service := set_token (service rt) VNull;
         attempt := attempt rt;
         settled := settled rt;
         loginCalls := loginCalls rt;
         cleared := cleared rt |}
  end.

Definition run (rt : Runtime) (evs : list event) : Runtime :=
  fold_left step evs rt.

(** The promises returned to the callers of [login()] along a run, in the
    order of the calls. *)
Fixpoint returned (rt : Runtime) (evs : list event) : list nat :=
  match evs with
  | [] => []
  | CallLogin :: rest => login_promise rt :: returned (step rt CallLogin) rest
  | ev :: rest => returned (step rt ev) rest
  end.

(** What a promise has settled with, if it has. *)
Fixpoint settlement (l : list (nat * result value)) (p : nat)
  : option (result value) :=
  match l with
  | [] => None
  | (p', r) :: rest => if Nat.eqb p' p then Some r else settlement rest p
  end.

Definition in_flight (rt : Runtime) : nat :=
  match refreshPromise (service rt) with
  | Some _ => 1
  | None => 0
  end.

(** The event ends the attempt in flight: the login request fails, or the
    body of its answer has been read (or could not be). *)
Definition settles (rt : Runtime) (ev : event) : bool :=
  match attempt rt, ev with
  | Some (_, AwaitingFetch), FetchSettles r =>
      match after_fetch r with
      | Ok _ => false
      | Throw _ => true
      end
  | Some (_, AwaitingJson _), JsonSettles _ => true
  | _, _ => false
  end.

(** No event of the run ends the attempt in flight. *)
Fixpoint quiet (rt : Runtime) (evs : list event) : Prop :=
  match evs with
  | [] => True
  | ev :: rest => settles rt ev = false /\ quiet (step rt ev) rest
  end.

(** The states of the runtime that the steps keep within: the marker is
    set exactly while a body is suspended, on the promise that body will
    settle, which is the latest one and has not settled; the settled
    promises are earlier ones; and every login request sent has either
    run its [finally] block or is in flight. *)
Definition consistent (rt : Runtime) : Prop :=
  match refreshPromise (service rt), attempt rt with
  | Some p, Some (p', _) =>
      p = p' /\ S p = loginCalls rt /\ settlement (settled rt) p = None
  | None, None => True
  | _, _ => False
  end
  /\ (forall p, settlement (settled rt) p <> None -> (p < loginCalls rt)%nat)
  /\ loginCalls rt = (cleared rt + in_flight rt)%nat.

End Login.

End Session.

(* ====================================================================== *)
(** * The client: [request] and [fetchAllEmpreendimentos]                  *)
(* ====================================================================== *)

Module Client.
Import JS Session.

(** The remote side and the clock, as scripts: the answer to each login
    request and to each page request, by their rank, and the value of
    [Date.now()] by the number of requests sent so far. The answer to a
    page request may depend on its URL and on its Authorization header. *)
Record Network : Type := {
  login_response : nat -> fetch_result;
  page_response : nat -> string -> string -> fetch_result;
  time : nat -> Z
}.

(** The argument of [onProgress]. *)
Record Progress : Type := {
  loaded : nat;
  total : value;
  page : nat
}.

(** What the client does that can be seen from outside. *)
Inductive action : Type :=
| PostLogin                                    (* POST /auth/login *)
| GetPage (endpoint authorization : string)    (* GET endpoint *)
| TokenInvalidated.                            (* this.token = null *)

Record World : Type := {
  runtime : Runtime;
  fetches : nat;               (* page requests sent *)
  log : list action;
  observed : list Progress     (* what the progress callback has stored *)
}.

Definition set_runtime (w : World) (rt : Runtime) : World :=
  {| runtime := rt; fetches := fetches w; log := log w;
     observed := observed w |}.

Definition add_log (w : World) (a : action) : World :=
  {| runtime := runtime w; fetches := fetches w;
     log := (log w ++ [a])%list; observed := observed w |}.

(** A computation of the client: from a world, the value returned or the
    exception thrown, and the world after it; [None] when the computation
    does not come back (within the fuel it was given, or because it waits
    for a promise that nothing settles). *)
Definition M (A : Type) : Type := World -> option (result A * World).

Definition ret {A : Type} (a : A) : M A := fun w => Some (Ok a, w).

Definition throw {A : Type} (e : error) : M A := fun w => Some (Throw e, w).

Definition bind {A B : Type} (c : M A) (k : A -> M B) : M B :=
  fun w =>
    match c w with
    | Some (Ok a, w') => k a w'
    | Some (Throw e, w') => Some (Throw e, w')
    | None => None
    end.

Notation "x <- c ;; k" := (bind c (fun x => k))
  (at level 61, c at next level, right associativity).
Notation "c ;;; k" := (bind c (fun _ => k))
  (at level 61, right associativity).

Section Service.

Variable jwt_payload : value -> option value.
Variable net : Network.

(** [Date.now()] *)
Definition now (w : World) : Z :=
  time net (loginCalls (runtime w) + fetches w).

(** [await this.login()] with nobody else running: the call joins the
    attempt in flight or starts one, the attempt runs to its end on the
    scripted answer, and the caller resumes with its settlement. *)
Definition login : M value :=
  fun w =>
    let rt := runtime w in
    let p := login_promise rt in
    let w1 :=
      match refreshPromise (service rt) with
      | Some _ => w
      | None => add_log w PostLogin
      end in
    let rt1 := step jwt_payload rt CallLogin in
    let rt2 := step jwt_payload rt1 (FetchSettles (login_response net p)) in
    let rt3 :=
      step jwt_payload rt2 (JsonSettles (now (set_runtime w1 rt2))) in
    match settlement (settled rt3) p with
    | Some r => Some (r, set_runtime w1 rt3)
    | None => None
    end.

(** [ensureValidToken()] *)
Definition ensureValidToken : M value :=
  fun w =>
    if isTokenExpired (service (runtime w)) (now w)
    then (login ;;; (fun w' => ret (token (service (runtime w'))) w')) w
    else ret (token (service (runtime w))) w.

(** [this.token = null] *)
Definition invalidate : M unit :=
  fun w =>
    Some (Ok tt,
          add_log (set_runtime w (step jwt_payload (runtime w) Invalidate))
                  TokenInvalidated).

(** [await fetch(`${baseUrl}${endpoint}`, { headers })]: the answer as
    its status and its body. *)
Definition fetch_page (endpoint : string) : M (Z * option value) :=
  fun w =>
    let authorization :=
      "Bearer " ++ to_string (token (service (runtime w))) in
    let w' :=
      {| runtime := runtime w; fetches := S (fetches w);
         log := (log w ++ [GetPage endpoint authorization])%list;
         observed := observed w |} in
    match page_response net (fetches w) endpoint authorization with
    | Rejected => Some (Throw NetworkError, w')
    | Response status body => Some (Ok (status, body), w')
    end.

(** [request(endpoint, {}, retryCount)]. The recursion is on [fuel]; the
    call recurses with [retryCount + 1] only while [retryCount < 2], so one
    unit of fuel for the call and one for each retry left is enough. *)
Fixpoint request_from (fuel : nat) (endpoint : string) (retryCount : nat)
  : M value :=
  match fuel with
  | O => fun _ => None
  | S fuel' =>
      ensureValidToken ;;;
      res <- fetch_page endpoint ;;
      if (fst res =? 401) && (retryCount <? 2)%nat then
        invalidate ;;;
        login ;;;
        request_from fuel' endpoint (S retryCount)
      else if negb (ok (fst res)) then throw (ApiError (fst res))
      else
        match snd res with
        | Some v => ret v
        | None => throw SyntaxError
        end
  end.

Definition request (endpoint : string) (retryCount : nat) : M value :=
  request_from (S (2 - retryCount)) endpoint retryCount.

End Service.

Definition perPage : nat := 100.

(** [`/empreendimentos?page=${page}&per_page=${perPage}`] *)
Definition endpoint_of (page : nat) : string :=
  "/empreendimentos?page=" ++ to_string (vint (Z.of_nat page))
  ++ "&per_page=" ++ to_string (vint (Z.of_nat perPage)).

(** [v.length] for a truthy [v]. *)
Definition length_of (v : value) : value :=
  match v with
  | VArr items => vint (Z.of_nat (List.length items))
  | VStr s => vint (Z.of_nat (String.length s))
  | VObj _ => get v "length"
  | _ => VUndef
  end.

(** [...v] inside an array literal, for a truthy [v]: the elements of an
    array, the characters of a string, a TypeError for anything else. *)
Definition spread (v : value) : result (list value) :=
  match v with
  | VArr items => Ok items
  | VStr s => Ok (map (fun c => VStr (String c "")) (list_ascii_of_string s))
  | _ => Throw TypeError
  end.

(** [response.meta ? page < response.meta.last_page
                   : response.data.length === perPage] *)
Definition hasMore (page : nat) (response : value) : bool :=
  let meta := get response "meta" in
  if truthy meta
  then num_lt (int (Z.of_nat page)) (to_number (get meta "last_page"))
  else strict_eq (length_of (get response "data")) (vint (Z.of_nat perPage)).

(** [!response.data || response.data.length === 0] *)
Definition no_data (response : value) : bool :=
  negb (truthy (get response "data"))
  || strict_eq (length_of (get response "data")) (vint 0).

Section FetchAll.

(** [this.request], called with the URL only. *)
Variable request : string -> M value.

(** The callback, when one is given; it returns normally. *)
Variable onProgress : option (Progress -> World -> World).

Definition report (p : Progress) : M unit :=
  fun w =>
    match onProgress with
    | Some callback => Some (Ok tt, callback p w)
    | None => Some (Ok tt, w)
    end.

(** The [while (true)] loop, entered with [allData] and [page]; [fuel]
    bounds the number of iterations. *)
Fixpoint fetch_pages (fuel : nat) (allData : list value) (page : nat)
  : M (list value) :=
  match fuel with
  | O => fun _ => None
  | S fuel' =>
      response <- request (endpoint_of page) ;;
      if nullish response then throw TypeError
      else if no_data response then ret allData
      else
        match spread (get response "data") with
        | Throw e => throw e
        | Ok items =>
            let allData' := (allData ++ items)%list in
            report {| loaded := List.length allData';
                      total := get (get response "meta") "total"
                               ||| vint (Z.of_nat (List.length allData'));
                      page := page |} ;;;
            if negb (hasMore page response) then ret allData'
            else fetch_pages fuel' allData' (S page)
        end
  end.

(** [fetchAllEmpreendimentos(onProgress)] *)
Definition fetchAllEmpreendimentos (fuel : nat) : M (list value) :=
  fetch_pages fuel [] 1.

(** [fetchCompleteData(onProgress)] *)
Definition fetchCompleteData (clock : nat -> Normalizer.Clock) (fuel : nat)
  : M (list Normalizer.NormalizedRecord) :=
  rawData <- fetchAllEmpreendimentos fuel ;;
  match Normalizer.transformData clock rawData with
  | Ok out => ret out
  | Throw e => throw e
  end.

End FetchAll.

(** The callback of the dashboard, [(progress) => setLoadingProgress(progress)]. *)
Definition setLoadingProgress (p : Progress) (w : World) : World :=
  {| runtime := runtime w; fetches := fetches w; log := log w;
     observed := (observed w ++ [p])%list |}.

(** The stop conditions of the walk, as the specification lists them, for a
    page whose [data] is an array: an empty page; a last page according to
    the metadata; without metadata, a page that is not full. *)
Definition stops_at (page : nat) (response : value) : Prop :=
  exists items,
    get response "data" = VArr items /\
    (items = []
     \/ (items <> [] /\ truthy (get response "meta") = true
         /\ num_lt (int (Z.of_nat page))
              (to_number (get (get response "meta") "last_page")) = false)
     \/ (items <> [] /\ truthy (get response "meta") = false
         /\ List.length items <> perPage)).

(** The metadata of the page gives [last_page] as a readable value (a
    number, a numeric text, or nothing at all): the comparison
    [page < response.meta.last_page] neither throws nor meets an infinity,
    and is the one of [hasMore]. *)
Definition numbered (response : value) : Prop :=
  readable (get (get response "meta") "last_page") = true.

(** The records of the pages [first .. first + count - 1]. *)
Fixpoint records_of (resp : nat -> value) (first count : nat) : list value :=
  match count with
  | O => []
  | S n =>
      (match get (resp first) "data" with
       | VArr items => items
       | _ => []
       end ++ records_of resp (S first) n)%list
  end.

(** *** What the statements about the client speak of *)

(** Between two operations no login is in flight. *)
Definition idle (w : World) : Prop :=
  consistent (runtime w) /\ refreshPromise (service (runtime w)) = None.

(** The page requests sent to [endpoint], and the invalidations of the
    token, in a log. *)
Fixpoint gets (endpoint : string) (l : list action) : nat :=
  match l with
  | [] => 0
  | GetPage e _ :: rest =>
      if String.eqb e endpoint then S (gets endpoint rest)
      else gets endpoint rest
  | _ :: rest => gets endpoint rest
  end.

Fixpoint invalidations (l : list action) : nat :=
  match l with
  | [] => 0
  | TokenInvalidated :: rest => S (invalidations rest)
  | _ :: rest => invalidations rest
  end.

(** From [w] to [w']: [g] page requests, all to [endpoint], and [i]
    invalidations of the token. *)
Definition effect (endpoint : string) (w w' : World) (g i : nat) : Prop :=
  idle w'
  /\ fetches w' = (fetches w + g)%nat
  /\ gets endpoint (log w') = (gets endpoint (log w) + g)%nat
  /\ invalidations (log w') = (invalidations (log w) + i)%nat.

(** The answer is an authorization failure. *)
Definition unauthorized (r : fetch_result) : Prop :=
  exists body, r = Response 401 body.

(** Every login request is answered with a success status and a body that
    is neither [null] nor unreadable. *)
Definition logins_succeed (net : Network) : Prop :=
  forall n, exists status data,
    login_response net n = Response status (Some data)
    /\ ok status = true /\ nullish data = false.

(** A remote side that accepts every login, with a token that cannot be
    decoded, and answers every page request as [answer] says. *)
Definition scripted (answer : nat -> string -> string -> fetch_result)
  : Network :=
  {| login_response :=
       fun _ => Response 200 (Some (VObj [("token", VStr "t")]));
     page_response := answer;
     time := fun _ => 0 |}.

(** The world at the creation of the service. *)
Definition initial : World :=
  {| runtime := start; fetches := 0; log := []; observed := [] |}.

(** A page of [n] records, without metadata. *)
Definition page_of (n : nat) : value :=
  VObj [("data", VArr (repeat (VObj []) n))].

(** A catalog of one full page: page 1 holds 100 records, every other
    page none. *)
Definition catalog (p : nat) : value :=
  if String.eqb (endpoint_of p) (endpoint_of 1) then page_of 100
  else page_of 0.

Definition one_full_page : Network :=
  scripted
    (fun _ endpoint _ =>
       Response 200
         (Some (if String.eqb endpoint (endpoint_of 1) then page_of 100
                else page_of 0))).

(** A remote side that answers every page request with a full page. *)
Definition endless : Network :=
  scripted (fun _ _ _ => Response 200 (Some (page_of 100))).

(** The walk comes back, with a result or with an exception. *)
Definition terminates (run : nat -> M (list value)) (w : World) : Prop :=
  exists fuel out w', run fuel w = Some (out, w').

End Client.

(* ====================================================================== *)
(** * The filter panel: options, toggles and the badge                     *)
(* ====================================================================== *)

Module Panel.
Import JS.

(** [set.add(v)]: nothing when the value is already there (SameValueZero). *)
Definition set_add (s : list value) (v : value) : list value :=
  if includes s v then s else (s ++ [v])%list.

(** [[...new Set(values)]]: the values in the order in which they were
    first added. *)
Definition new_Set (values : list value) : list value :=
  fold_left set_add values [].

(** The comparator of [sort()] without argument: the elements are compared
    as texts, by code units. *)
Definition by_text (a b : value) : num :=
  match String.compare (to_string a) (to_string b) with
  | Lt => int (-1)
  | Eq => int 0
  | Gt => int 1
  end.

(** [(a, b) => a - b] *)
Definition ascending (a b : value) : num :=
  num_sub (to_number a) (to_number b).

(** [(a, b) => b - a] *)
Definition descending (a b : value) : num :=
  num_sub (to_number b) (to_number a).

(** [[...new Set(rawData.map(field).filter(Boolean))].sort(compare)] *)
Definition options (field : Normalizer.NormalizedRecord -> value)
  (compare : value -> value -> num)
  (rawData : list Normalizer.NormalizedRecord) : list value :=
  sort compare (new_Set (filter truthy (map field rawData))).

Record FilterOptions : Type := {
  estados : list value;
  cidades : list value;
  bairros : list value;
  status : list value;
  tipos : list value;
  padroes : list value;
  tiposImovel : list value;
  quartos : list value;
  anosLancamento : list value;
  incorporadoras : list value
}.

Definition filterOptions (rawData : list Normalizer.NormalizedRecord)
  : FilterOptions :=
  {| estados := options Normalizer.estado by_text rawData;
     cidades := options Normalizer.cidade by_text rawData;
     bairros := options Normalizer.bairro by_text rawData;
     status := options Normalizer.status by_text rawData;
     tipos := options Normalizer.tipo by_text rawData;
     padroes := options Normalizer.padrao by_text rawData;
     tiposImovel := options Normalizer.tipoImovel by_text rawData;
     quartos :=
       options (fun d => VNum (Normalizer.quartos d)) ascending rawData;
     anosLancamento :=
       options (fun d => VNum (Normalizer.anoLancamento d)) descending rawData;
     incorporadoras := options Normalizer.incorporadora by_text rawData |}.

(** The ten keys [toggleFilter] is called with. *)
Inductive category : Type :=
| Estados | Cidades | Bairros | Padroes | Status | Tipos | TiposImovel
| Quartos | AnosLancamento | Incorporadoras.

(** [p[c]] *)
Definition selection (p : FilterEngine.Filters) (c : category)
  : list value :=
  match c with
  | Estados => FilterEngine.estados p
  | Cidades => FilterEngine.cidades p
  | Bairros => FilterEngine.bairros p
  | Padroes => FilterEngine.padroes p
  | Status => FilterEngine.status p
  | Tipos => FilterEngine.tipos p
  | TiposImovel => FilterEngine.tiposImovel p
  | Quartos => FilterEngine.quartos p
  | AnosLancamento => FilterEngine.anosLancamento p
  | Incorporadoras => FilterEngine.incorporadoras p
  end.

(** [{ ...p, [c]: sel }] *)
Definition with_selection (p : FilterEngine.Filters) (c : category)
  (sel : list value) : FilterEngine.Filters :=
  let pick (c' : category) :=
    match c, c' with
    | Estados, Estados | Cidades, Cidades | Bairros, Bairros
    | Padroes, Padroes | Status, Status | Tipos, Tipos
    | TiposImovel, TiposImovel | Quartos, Quartos
    | AnosLancamento, AnosLancamento | Incorporadoras, Incorporadoras => sel
    | _, _ => selection p c'
    end in
  {| FilterEngine.estados := pick Estados;
     FilterEngine.cidades := pick Cidades;
     FilterEngine.bairros := pick Bairros;
     FilterEngine.padroes := pick Padroes;
     FilterEngine.status := pick Status;
     FilterEngine.tipos := pick Tipos;
     FilterEngine.tiposImovel := pick TiposImovel;
     FilterEngine.quartos := pick Quartos;
     FilterEngine.anosLancamento := pick AnosLancamento;
     FilterEngine.incorporadoras := pick Incorporadoras;
     FilterEngine.m2Range := FilterEngine.m2Range p;
     FilterEngine.ticketRange := FilterEngine.ticketRange p;
     FilterEngine.valorM2Range := FilterEngine.valorM2Range p |}.

(** [p[c].includes(v) ? p[c].filter((x) => x !== v) : [...p[c], v]] *)
Definition toggle (sel : list value) (v : value) : list value :=
  if includes sel v then filter (fun x => negb (strict_eq x v)) sel
  else (sel ++ [v])%list.

(** [toggleFilter(c, v)], as the function it gives to [setFilters]. *)
Definition toggleFilter (c : category) (v : value) (p : FilterEngine.Filters)
  : FilterEngine.Filters :=
  with_selection p c (toggle (selection p c) v).

(** [clearFilters()], as the state it gives to [setFilters]. *)
Definition clearFilters (p : FilterEngine.Filters) : FilterEngine.Filters :=
  FilterEngine.DEFAULT_FILTERS.

(** The three keys the range sliders write. *)
Inductive range_key : Type := M2Range | TicketRange | ValorM2Range.

(** [p[k]] *)
Definition range_of (p : FilterEngine.Filters) (k : range_key) : num * num :=
  match k with
  | M2Range => FilterEngine.m2Range p
  | TicketRange => FilterEngine.ticketRange p
  | ValorM2Range => FilterEngine.valorM2Range p
  end.

(** [{ ...p, [k]: v }] *)
Definition with_range (p : FilterEngine.Filters) (k : range_key)
  (v : num * num) : FilterEngine.Filters :=
  {| FilterEngine.estados := FilterEngine.estados p;
     FilterEngine.cidades := FilterEngine.cidades p;
     FilterEngine.bairros := FilterEngine.bairros p;
     FilterEngine.padroes := FilterEngine.padroes p;
     FilterEngine.status := FilterEngine.status p;
     FilterEngine.tipos := FilterEngine.tipos p;
     FilterEngine.tiposImovel := FilterEngine.tiposImovel p;
     FilterEngine.quartos := FilterEngine.quartos p;
     FilterEngine.anosLancamento := FilterEngine.anosLancamento p;
     FilterEngine.incorporadoras := FilterEngine.incorporadoras p;
     FilterEngine.m2Range :=
       match k with M2Range => v | _ => FilterEngine.m2Range p end;
     FilterEngine.ticketRange :=
       match k with TicketRange => v | _ => FilterEngine.ticketRange p end;
     FilterEngine.valorM2Range :=
       match k with ValorM2Range => v | _ => FilterEngine.valorM2Range p end |}.

(** The handlers of the two sliders of [RangeFilter], with [typed] the
    [e.target.value] of the event:
    [onChange([Number(e.target.value), value[1]])] and
    [onChange([value[0], Number(e.target.value)])], where [onChange] is
    [(v) => setFilters((p) => ({ ...p, [k]: v }))]. *)
Definition move_lower (k : range_key) (typed : string)
  (p : FilterEngine.Filters) : FilterEngine.Filters :=
  with_range p k (string_to_number typed, snd (range_of p k)).

Definition move_upper (k : range_key) (typed : string)
  (p : FilterEngine.Filters) : FilterEngine.Filters :=
  with_range p k (fst (range_of p k), string_to_number typed).

(** What [Object.entries(filters)] pairs a key with: an array of selected
    values or a pair of bounds. *)
Inductive setting : Type :=
| Selected (values : list value)
| Bounds (range : num * num).

(** [Object.entries(filters)], in the order of the keys of
    [DEFAULT_FILTERS], which every update keeps. *)
Definition entries (filters : FilterEngine.Filters)
  : list (string * setting) :=
  [ ("estados", Selected (FilterEngine.estados filters));
    ("cidades", Selected (FilterEngine.cidades filters));
    ("bairros", Selected (FilterEngine.bairros filters));
    ("padroes", Selected (FilterEngine.padroes filters));
    ("status", Selected (FilterEngine.status filters));
    ("tipos", Selected (FilterEngine.tipos filters));
    ("tiposImovel", Selected (FilterEngine.tiposImovel filters));
    ("quartos", Selected (FilterEngine.quartos filters));
    ("anosLancamento", Selected (FilterEngine.anosLancamento filters));
    ("incorporadoras", Selected (FilterEngine.incorporadoras filters));
    ("m2Range", Bounds (FilterEngine.m2Range filters));
    ("ticketRange", Bounds (FilterEngine.ticketRange filters));
    ("valorM2Range", Bounds (FilterEngine.valorM2Range filters)) ].

(** [key.includes(part)] *)
Definition key_includes (key part : string) : bool :=
  match String.index 0 part key with
  | Some _ => true
  | None => false
  end.

(** [DEFAULT_FILTERS[key]] *)
Fixpoint setting_of (l : list (string * setting)) (key : string)
  : option setting :=
  match l with
  | [] => None
  | (k, s) :: rest => if String.eqb k key then Some s else setting_of rest key
  end.

(** [value[0] !== def[0] || value[1] !== def[1]] *)
Definition moved (value def : num * num) : bool :=
  negb (num_strict_eq (fst value) (fst def))
  || negb (num_strict_eq (snd value) (snd def)).

(** The body of the loop of [activeFilterCount]. An entry whose key holds
    ["Range"] counts for one when it differs from its default; any other
    entry is an array and counts for its length. *)
Definition count_entry (count : nat) (e : string * setting) : nat :=
  let (key, value) := e in
  if key_includes key "Range" then
    match value, setting_of (entries FilterEngine.DEFAULT_FILTERS) key with
    | Bounds v, Some (Bounds def) => if moved v def then S count else count
    | _, _ => count
    end
  else
    match value with
    | Selected values => (count + List.length values)%nat
    | Bounds _ => (count + 2)%nat
    end.

Definition activeFilterCount (filters : FilterEngine.Filters) : nat :=
  fold_left count_entry (entries filters) 0%nat.

(** *** What the statements about the panel speak of *)

(** The field of the record a category filters on, as [filteredData]
    reads it. *)
Definition field_of (c : category) (d : Normalizer.NormalizedRecord)
  : value :=
  match c with
  | Estados => Normalizer.estado d
  | Cidades => Normalizer.cidade d
  | Bairros => Normalizer.bairro d
  | Padroes => Normalizer.padrao d
  | Status => Normalizer.status d
  | Tipos => Normalizer.tipo d
  | TiposImovel => Normalizer.tipoImovel d
  | Quartos => VNum (Normalizer.quartos d)
  | AnosLancamento => VNum (Normalizer.anoLancamento d)
  | Incorporadoras => Normalizer.incorporadora d
  end.

(** The check boxes of a category. *)
Definition options_of (o : FilterOptions) (c : category) : list value :=
  match c with
  | Estados => estados o
  | Cidades => cidades o
  | Bairros => bairros o
  | Padroes => padroes o
  | Status => status o
  | Tipos => tipos o
  | TiposImovel => tiposImovel o
  | Quartos => quartos o
  | AnosLancamento => anosLancamento o
  | Incorporadoras => incorporadoras o
  end.

(** The number a range filters on. *)
Definition measure_of (k : range_key) (d : Normalizer.NormalizedRecord)
  : num :=
  match k with
  | M2Range => Normalizer.m2 d
  | TicketRange => Normalizer.preco d
  | ValorM2Range => Normalizer.valorM2 d
  end.

(** A value that is not an array and not an object: it is the same value
    as itself wherever it comes from. *)
Definition primitive (v : value) : bool :=
  match v with
  | VArr _ | VObj _ => false
  | _ => true
  end.

(** The options that are the same value as [v]. *)
Definition same_as (v : value) (l : list value) : list value :=
  filter (fun x => same_value_zero x v) l.

(** [a] is not after [b] in the order of the code units of their texts. *)
Definition text_before (a b : value) : Prop :=
  String.leb (to_string a) (to_string b) = true.

(** [NaN] or a whole number: what [parseInt] returns. *)
Definition whole (x : num) : Prop := x = NaN \/ exists z, x = int z.

(** A number other than [NaN]. *)
Definition is_number (v : value) : Prop := exists q, v = VNum (Num q).

(** [a] and [b] are numbers, [a] at most [b]. *)
Definition number_before (a b : value) : Prop :=
  exists p q, a = VNum (Num p) /\ b = VNum (Num q) /\ (p <= q)%Q.

End Panel.

(* ====================================================================== *)
(** * The indicators and the rankings of the dashboard                     *)
(* ====================================================================== *)

Module Ranking.
Import JS.

(** The object of [kpis]. *)
Record Kpis : Type := {
  vgvTotal : num;
  vgvVendido : num;
  totalUnidades : num;
  unidadesVendidas : num;
  count : nat
}.

(** [filteredData.reduce((s, d) => s + (d.f || 0), 0)] *)
Definition total (f : Normalizer.NormalizedRecord -> num)
  (filteredData : list Normalizer.NormalizedRecord) : num :=
  fold_left (fun s d => num_add s (num_or (f d) (int 0))) filteredData (int 0).

Definition kpis (filteredData : list Normalizer.NormalizedRecord) : Kpis :=
  {| vgvTotal := total Normalizer.vgvTotal filteredData;
     vgvVendido := total Normalizer.vgvVendido filteredData;
     totalUnidades := total Normalizer.totalUnidades filteredData;
     unidadesVendidas := total Normalizer.unidadesVendidas filteredData;
     count := List.length filteredData |}.

(** [(a, b) => (b.vgvTotal || 0) - (a.vgvTotal || 0)] *)
Definition by_launched_desc (a b : Normalizer.NormalizedRecord) : num :=
  num_sub (num_or (Normalizer.vgvTotal b) (int 0))
          (num_or (Normalizer.vgvTotal a) (int 0)).

(** [[...filteredData].sort(...).slice(0, 10)] *)
Definition topEmpreendimentos
  (filteredData : list Normalizer.NormalizedRecord)
  : list Normalizer.NormalizedRecord :=
  firstn 10 (sort by_launched_desc filteredData).

(** [(a, b) => b.vgvTotal - a.vgvTotal], the comparator of [generatePDF]. *)
Definition by_vgvTotal_desc (a b : Normalizer.NormalizedRecord) : num :=
  num_sub (Normalizer.vgvTotal b) (Normalizer.vgvTotal a).

(** The records behind the [rows] of [generatePDF], in the order of the
    table: [[...filteredData].sort(...).slice(0, 20)]. *)
Definition generatePDF_rows
  (filteredData : list Normalizer.NormalizedRecord)
  : list Normalizer.NormalizedRecord :=
  firstn 20 (sort by_vgvTotal_desc filteredData).

(** [a + b] on values: a concatenation as soon as one side is, or converts
    to, a string, and the sum of the two numbers otherwise. *)
Definition plus (a b : value) : value :=
  match a, b with
  | (VStr _ | VArr _ | VObj _), _ | _, (VStr _ | VArr _ | VObj _) =>
      VStr (to_string a ++ to_string b)
  | _, _ => VNum (num_add (to_number a) (to_number b))
  end.

(** [Object.entries(g)]: the properties in the order of [Object.values]. *)
Definition object_entries {G : Type} (g : store G) : list (string * G) :=
  object_values (map (fun e => (fst e, e)) g).

(** [(a, b) => b[1] - a[1]] *)
Definition by_tally_desc (a b : string * value) : num :=
  num_sub (to_number (snd b)) (to_number (snd a)).

Section Tally.

(** What a member inherited from [Object.prototype] prints as: the source
    text of a built-in function, which the platform chooses. *)
Variable inherited_text : string -> string.

(** One iteration of the loop of [topIncorporadoras]:
    [map[k] = (map[k] || 0) + (d.vgvTotal || 0)] with [k] the developer.
    For a name inherited from [Object.prototype] that is not yet an own
    property, [map[k]] is the inherited member, the sum is a text, and the
    assignment creates the own property; the assignment to [__proto__] is
    taken by the setter of the prototype, which ignores a text. *)
Definition tally_step (map : store value) (d : Normalizer.NormalizedRecord)
  : store value :=
  let k := to_string (Normalizer.incorporadora d) in
  let x := VNum (num_or (Normalizer.vgvTotal d) (int 0)) in
  match store_get map k with
  | Some _ => store_update map k (fun old => plus (old ||| vint 0) x)
  | None =>
      if inherited k then
        if String.eqb k "__proto__" then map
        else store_create map k (plus (VStr (inherited_text k)) x)
      else store_create map k (plus (VUndef ||| vint 0) x)
  end.

(** [const map = {}; filteredData.forEach(...)] *)
Definition tally (filteredData : list Normalizer.NormalizedRecord)
  : store value :=
  fold_left tally_step filteredData [].

Definition topIncorporadoras
  (filteredData : list Normalizer.NormalizedRecord) : list string :=
  map fst (firstn 6 (sort by_tally_desc (object_entries (tally filteredData)))).

End Tally.

(** [row[k] = v] on an object literal; an assignment of a number to
    [__proto__] changes nothing. *)
Definition set_property (row : store value) (k : string) (v : value)
  : store value :=
  if String.eqb k "__proto__" then row
  else
    match store_get row k with
    | Some _ => store_update row k (fun _ => v)
    | None => store_create row k v
    end.

(** [filteredData.filter((d) => d.anoLancamento === ano
                                && d.incorporadora === inc)] *)
Definition launched_in (ano : value) (inc : string)
  (filteredData : list Normalizer.NormalizedRecord)
  : list Normalizer.NormalizedRecord :=
  filter (fun d => strict_eq (VNum (Normalizer.anoLancamento d)) ano
                   && strict_eq (Normalizer.incorporadora d) (VStr inc))
         filteredData.

(** The row of one year: [{ ano: ano.toString() }], then one property for
    each developer. *)
Definition evolution_row (topIncorporadoras : list string)
  (filteredData : list Normalizer.NormalizedRecord) (ano : value)
  : store value :=
  fold_left
    (fun row inc =>
       set_property row inc
         (VNum (total Normalizer.vgvTotal
                  (launched_in ano inc filteredData))))
    topIncorporadoras
    [("ano", VStr (to_string ano))].

(** [evolucaoIncorporadoras], from [filterOptions.anosLancamento],
    [topIncorporadoras] and [filteredData]. Calling [toString] on a year
    that is [null] or [undefined] throws. *)
Definition evolucaoIncorporadoras (anosLancamento : list value)
  (topIncorporadoras : list string)
  (filteredData : list Normalizer.NormalizedRecord)
  : result (list (store value)) :=
  let anos := sort Panel.ascending anosLancamento in
  if existsb nullish anos then Throw TypeError
  else Ok (map (evolution_row topIncorporadoras filteredData) anos).

(** *** What the statements about the rankings speak of *)

(** The launched value of a record as the rankings count it: [NaN] as
    zero. *)
Definition launched (d : Normalizer.NormalizedRecord) : Q :=
  Aggregation.amount (Normalizer.vgvTotal d).

(** [a] is ranked before [b]: its launched value is at least [b]'s. *)
Definition outranks (a b : Normalizer.NormalizedRecord) : Prop :=
  (launched b <= launched a)%Q.

(** The records with the launched value [q]. *)
Definition launched_is (q : Q) (d : Normalizer.NormalizedRecord) : bool :=
  Qeq_bool (launched d) q.

(** The sum of the totals of a series by type. *)
Definition series_total (l : list Aggregation.TipoGroup) : Q :=
  fold_right (fun g acc => (Aggregation.amount (Aggregation.tipoVgvTotal g) + acc)%Q)
             0%Q l.

(** The sum of [h] over a list of keys. *)
Definition sum_over (ks : list string) (h : string -> Q) : Q :=
  fold_right (fun k acc => (h k + acc)%Q) 0%Q ks.

(** What the loop of [topIncorporadoras] does on a developer whose name is
    not inherited, in the shape of the loops of the grouped series: the
    tally starts from [0] and each record adds its launched value. *)
Definition tally_init (_ : value) : value := vint 0.

Definition tally_add (d : Normalizer.NormalizedRecord) (old : value)
  : value :=
  plus (old ||| vint 0) (VNum (num_or (Normalizer.vgvTotal d) (int 0))).

(** The launched total of the records of the developer [k]. *)
Definition developer_total (data : list Normalizer.NormalizedRecord)
  (k : string) : Q :=
  Aggregation.sum_of Normalizer.vgvTotal
    (Aggregation.members Normalizer.incorporadora data k).

(** No record has a developer whose name is inherited from
    [Object.prototype]. *)
Definition plain_developers (data : list Normalizer.NormalizedRecord)
  : Prop :=
  forall d, In d data ->
    inherited (Aggregation.key_of Normalizer.incorporadora d) = false.

(** No record has a type whose name is inherited from
    [Object.prototype]. *)
Definition plain_types (data : list Normalizer.NormalizedRecord) : Prop :=
  forall d, In d data ->
    inherited (Aggregation.key_of Normalizer.tipo d) = false.

End Ranking.

(* ====================================================================== *)
(** * The synchronisation, end to end                                      *)
(* ====================================================================== *)

Module Sync.
Import JS Session Client.

(** What [login()] settles with, by the answer to its request: the
    rejection of [fetch], [Login failed] on a status that is not a
    success, the rejection of [res.json()], the TypeError of reading
    [data.token] on [null], or the token. *)
Definition login_outcome (r : fetch_result) : result value :=
  match r with
  | Rejected => Throw NetworkError
  | Response status body =>
      if ok status then
        match body with
        | None => Throw SyntaxError
        | Some data =>
            if nullish data then Throw TypeError
            else Ok (get data "token" ||| get data "access_token")
        end
      else Throw (LoginFailed status)
  end.

(** [request] asks again: the answer is a 401 and retries are left. *)
Definition retried (retryCount : nat) (r : fetch_result) : bool :=
  match r with
  | Response status _ => (status =? 401) && (retryCount <? 2)%nat
  | Rejected => false
  end.

(** What [request] does with an answer it does not ask again for:
    [if (!res.ok) throw new Error(`API Error: ${res.status}`);
     return res.json()]. *)
Definition answer_of (r : fetch_result) : result value :=
  match r with
  | Rejected => Throw NetworkError
  | Response status body =>
      if negb (ok status) then Throw (ApiError status)
      else
        match body with
        | Some v => Ok v
        | None => Throw SyntaxError
        end
  end.

(** The service once [login] has stored the token [t] at [loginTime]. *)
Definition logged_in (jwt_payload : value -> option value) (s : Service)
  (t : value) (loginTime : Z) : Service :=
  set_tokenExpiresAt (set_token s t) (parseTokenExpiry jwt_payload t loginTime).

(** The token the login request of rank [n] is answered with. *)
Definition issued (net : Network) (n : nat) : value :=
  match login_outcome (login_response net n) with
  | Ok t => t
  | Throw _ => VUndef
  end.

(** The tokens of the login answers are read as the program reads them:
    the template literal of the header [Authorization: `Bearer
    ${this.token}`] converts them to a text without a TypeError, and the
    [exp] of their payload, when it decodes, is readable, so that
    [payload.exp * 1000] is the expiry that [parseTokenExpiry] computes. *)
Definition plain_tokens (jwt_payload : value -> option value)
  (net : Network) : Prop :=
  forall n,
    prints (issued net n) = true
    /\ forall payload,
         jwt_payload (issued net n) = Some payload ->
         readable (get payload "exp") = true.

(** The tokens of the login answers last: on the clock of the script, none
    is reported expired, whenever it was stored and whenever it is
    checked. *)
Definition lasting (jwt_payload : value -> option value) (net : Network)
  : Prop :=
  forall n s m m',
    isTokenExpired (logged_in jwt_payload s (issued net n) (time net m))
      (time net m') = false.

(** [`Bearer ${token}`] *)
Definition bearer (t : value) : string := "Bearer " ++ to_string t.

(** What a request does after each of [k] refusals, the first of which is
    followed by the login request of rank [n]: the token is set to [null],
    one login request is sent, and the page request is sent again with the
    token of its answer. *)
Fixpoint retries (net : Network) (endpoint : string) (n k : nat)
  : list action :=
  match k with
  | O => []
  | S k' =>
      TokenInvalidated :: PostLogin
      :: GetPage endpoint (bearer (issued net n))
      :: retries net endpoint (S n) k'
  end.

(** [isTokenExpired()] in the world [w]. *)
Definition expired (net : Network) (w : World) : bool :=
  isTokenExpired (service (runtime w)) (Client.now net w).

(** What a request that is refused [k] times logs from the world [w], when
    the logins succeed: the login request of [ensureValidToken] when the
    token is missing or expired, the page request, and what follows each
    refusal. *)
Definition exchange (net : Network) (endpoint : string) (w : World) (k : nat)
  : list action :=
  let n := loginCalls (runtime w) in
  if expired net w then
    PostLogin :: GetPage endpoint (bearer (issued net n))
    :: retries net endpoint (S n) k
  else
    GetPage endpoint (bearer (token (service (runtime w))))
    :: retries net endpoint n k.

(** The reports the walk makes over the pages [first .. first + count - 1]
    when [loaded] records came before: one for each page that holds
    records, with the number of records so far. *)
Fixpoint progress_of (resp : nat -> value) (first count loaded : nat)
  : list Progress :=
  match count with
  | O => []
  | S n =>
      match get (resp first) "data" with
      | VArr (x :: rest) =>
          let loaded' := (loaded + List.length (x :: rest))%nat in
          {| Client.loaded := loaded';
             total := get (get (resp first) "meta") "total"
                      ||| vint (Z.of_nat loaded');
             page := first |}
          :: progress_of resp (S first) n loaded'
      | _ => progress_of resp (S first) n loaded
      end
  end.

(** A computation that leaves what the callback has stored alone. *)
Definition silent {A : Type} (c : M A) : Prop :=
  forall w r w', c w = Some (r, w') -> observed w' = observed w.

(** The page requests leave what the callback has stored alone. *)
Definition keeps_observed (request : string -> M value) : Prop :=
  forall url, silent (request url).

End Sync.

(* ====================================================================== *)
(** * Facts about the JavaScript fragment                                  *)
(* ====================================================================== *)

Module JSFacts.
Import JS.

Lemma num_lt_spec (a b : num) :
  num_lt a b = true <-> exists p q, a = Num p /\ b = Num q /\ (p < q)%Q.
Proof.
  destruct a as [|p], b as [|q]; simpl; split;
    try discriminate; try (intros (? & ? & ? & ? & _); discriminate).
  - intros H. exists p, q. repeat split.
    apply negb_true_iff in H. apply Qnot_le_lt. intros Hle.
    apply Qle_bool_iff in Hle. congruence.
  - intros (p' & q' & Hp & Hq & Hlt). inversion Hp; inversion Hq; subst.
    apply negb_true_iff. apply not_true_iff_false. intros Hle.
    apply Qle_bool_iff in Hle. apply (Qlt_not_le _ _ Hlt Hle).
Qed.

Lemma num_lt_numbers (p q : Q) :
  num_lt (Num p) (Num q) = false <-> (q <= p)%Q.
Proof.
  simpl. rewrite negb_false_iff. apply Qle_bool_iff.
Qed.

Lemma num_ge_spec (a b : num) :
  num_ge a b = true <-> exists p q, a = Num p /\ b = Num q /\ (q <= p)%Q.
Proof.
  destruct a as [|p], b as [|q]; simpl; split;
    try discriminate; try (intros (? & ? & ? & ? & _); discriminate).
  - intros H. exists p, q. repeat split. now apply Qle_bool_iff.
  - intros (p' & q' & Hp & Hq & Hle). inversion Hp; inversion Hq; subst.
    now apply Qle_bool_iff.
Qed.

Lemma is_nan_false (x : num) : is_nan x = false -> exists q, x = Num q.
Proof.
  destruct x as [|q]; [discriminate | intros _; now exists q].
Qed.

Lemma includes_spec (arr : list value) (v : value) :
  includes arr v = true
  <-> exists x, In x arr /\ same_value_zero x v = true.
Proof.
  unfold includes. apply existsb_exists.
Qed.

(** The parsers on a few inputs, and the direct reading of a number
    against the detour through its printed form. *)
Example parse_samples :
  parseInt (VStr "12px") = int 12
  /\ parseInt (VStr " -7.9") = int (-7)
  /\ parseInt (VStr "0x1F") = int 31
  /\ parseInt (VStr "abc") = NaN
  /\ parseInt (VStr "") = NaN
  /\ parseFloat (VStr "3.50 m2") = Num (7 # 2)
  /\ parseFloat (VStr ".5e1") = int 5
  /\ parseFloat (VStr "abc") = NaN
  /\ parseFloat (VBool true) = NaN
  /\ parseInt (VObj []) = NaN
  /\ parseInt (VArr [vint 42]) = int 42.
Proof. repeat split. Qed.

Example number_samples :
  number_to_string (Num (25 # 2)) = "12.5"
  /\ number_to_string (Num (1 # 10000000)) = "1e-7"
  /\ number_to_string (int (10 ^ 21)) = "1e+21"
  /\ number_to_string (int (-2026)) = "-2026"
  /\ parseInt (VNum (Num (25 # 2)))
     = parseInt_str (number_to_string (Num (25 # 2)))
  /\ parseInt (VNum (Num (1 # 10000000)))
     = parseInt_str (number_to_string (Num (1 # 10000000)))
  /\ parseInt (VNum (int (10 ^ 21)))
     = parseInt_str (number_to_string (int (10 ^ 21)))
  /\ parseFloat (VNum (Num (25 # 2)))
     = parseFloat_str (number_to_string (Num (25 # 2))).
Proof. vm_compute. repeat split. Qed.

(** The values that are converted as the program converts them, and some
    that are not: an object with an own [toString], alone or in an array;
    the text [Infinity]; a literal, a power of ten or a run of digits beyond
    the range of the doubles. *)
Example conversion_samples :
  prints (VObj [("nome", VStr "Aurora")]) = true
  /\ prints (VObj [("toString", vint 1)]) = false
  /\ prints (VObj [("valueOf", vint 1)]) = true
  /\ prints (VArr [vint 1; VObj [("toString", VNull)]]) = false
  /\ prints (VNum (Num (pow10 400))) = false
  /\ readable (VStr "12px") = true
  /\ readable (VStr "abc") = true
  /\ readable (VNum (Num (25 # 2))) = true
  /\ readable VUndef = true
  /\ readable (VObj []) = true
  /\ readable (VArr [vint 42]) = true
  /\ readable (VStr "Infinity") = false
  /\ readable (VStr " -Infinity") = false
  /\ readable (VArr [VStr "Infinity"]) = false
  /\ readable (VStr "1e400") = false
  /\ readable (VStr "1e-400") = false
  /\ readable (VStr (string_of_list_ascii (repeat "9"%char 310))) = false
  /\ readable (VObj [("toString", vint 1)]) = false.
Proof. vm_compute. repeat split. Qed.

(** [Object.values] lists the array indices first, in ascending order. *)
Example object_values_sample :
  object_values [("b", 1); ("10", 2); ("a", 3); ("2", 4)] = [4; 2; 1; 3].
Proof. reflexivity. Qed.

End JSFacts.

(* ====================================================================== *)
(** * The session manager: expiry of the token                             *)
(* ====================================================================== *)

Import JS.



(* ====================================================================== *)
(** * The filter engine                                                    *)
(* ====================================================================== *)

Module FilterFacts.
Import FilterEngine.

Lemma excludes_spec (sel : list value) (v : value) :
  excludes sel v = false <-> (sel = [] \/ selected sel v).
Proof.
  unfold excludes, selected. rewrite andb_false_iff, !negb_false_iff.
  rewrite JSFacts.includes_spec. split.
  - intros [Hlen | Hin]; [left | now right].
    destruct sel; [reflexivity | discriminate].
  - intros [-> | Hin]; [now left | now right].
Qed.

Lemma outside_spec (lo hi q : Q) :
  outside (Num lo, Num hi) (Num q) = false <-> (lo <= q /\ q <= hi)%Q.
Proof.
  unfold outside, num_gt. cbn [fst snd].
  rewrite orb_false_iff, !JSFacts.num_lt_numbers. tauto.
Qed.

Lemma outside_within (range : num * num) (x : num) :
  is_nan (fst range) = false -> is_nan (snd range) = false ->
  is_nan x = false ->
  (outside range x = false <-> within range x).
Proof.
  destruct range as [lo hi]. cbn [fst snd]. intros Hlo Hhi Hx.
  apply JSFacts.is_nan_false in Hlo, Hhi, Hx.
  destruct Hlo as [l ->], Hhi as [h ->], Hx as [q ->].
  rewrite outside_spec. unfold within. cbn [fst snd]. split.
  - intros [H1 H2]. exists l, h, q. auto.
  - intros (l' & h' & q' & E1 & E2 & E3 & H1 & H2).
    inversion E1; inversion E2; inversion E3; subst. auto.
Qed.

(** A [NaN] is on no side of a range. *)
Lemma outside_nan (range : num * num) : outside range NaN = false.
Proof.
  unfold outside, num_gt. destruct range as [[|lo] [|hi]]; reflexivity.
Qed.

Lemma keeps_unfold (filters : Filters) (i : Normalizer.NormalizedRecord) :
  keeps filters i = true
  <-> excludes (estados filters) (Normalizer.estado i) = false
      /\ excludes (cidades filters) (Normalizer.cidade i) = false
      /\ excludes (bairros filters) (Normalizer.bairro i) = false
      /\ excludes (padroes filters) (Normalizer.padrao i) = false
      /\ excludes (status filters) (Normalizer.status i) = false
      /\ excludes (tipos filters) (Normalizer.tipo i) = false
      /\ excludes (tiposImovel filters) (Normalizer.tipoImovel i) = false
      /\ excludes (quartos filters) (VNum (Normalizer.quartos i)) = false
      /\ excludes (anosLancamento filters)
           (VNum (Normalizer.anoLancamento i)) = false
      /\ excludes (incorporadoras filters) (Normalizer.incorporadora i) = false
      /\ outside (m2Range filters) (Normalizer.m2 i) = false
      /\ outside (ticketRange filters) (Normalizer.preco i) = false
      /\ outside (valorM2Range filters) (Normalizer.valorM2 i) = false.
Proof.
  unfold keeps.
  repeat match goal with
         | |- context [if ?b then false else _] => destruct b
         end;
    split; intros H; try discriminate; try reflexivity;
    try (repeat split; reflexivity);
    decompose [and] H; discriminate.
Qed.

End FilterFacts.

(** C7, as stated, fails: a record whose private area is [NaN] is kept by
    the untouched selection although its private area does not lie within
    [0, 2000]. *)
Lemma keeps_is_not_passes :
  ~ (forall filters i,
        FilterEngine.keeps filters i = true <-> FilterEngine.passes filters i).
Proof.
  intros H.
  assert (Hk : FilterEngine.keeps FilterEngine.DEFAULT_FILTERS
                 FilterEngine.record_without_area = true) by reflexivity.
  apply H in Hk.
  destruct Hk as (_ & _ & _ & _ & _ & _ & _ & _ & _ & _ & Hm2 & _).
  destruct Hm2 as (lo & hi & q & _ & _ & Hq & _).
  discriminate Hq.
Qed.

(** C7, amended. For every record whose private area, average price and
    price per area are numbers, and every selection whose bounds are
    numbers, the record is kept if and only if each categorical dimension
    with a non-empty selection holds one of the selected values and each of
    the three numeric values lies within its range, bounds included. An
    empty selection constrains nothing and the dimensions combine by
    conjunction. *)
Theorem keeps_iff_passes (filters : FilterEngine.Filters)
  (i : Normalizer.NormalizedRecord) :
  FilterEngine.numeric filters i ->
  (FilterEngine.keeps filters i = true <-> FilterEngine.passes filters i).
Proof.
  intros (N1 & N2 & N3 & N4 & N5 & N6 & N7 & N8 & N9).
  rewrite FilterFacts.keeps_unfold. unfold FilterEngine.passes.
  rewrite !FilterFacts.excludes_spec.
  rewrite (FilterFacts.outside_within _ _ N4 N5 N1).
  rewrite (FilterFacts.outside_within _ _ N6 N7 N2).
  rewrite (FilterFacts.outside_within _ _ N8 N9 N3).
  reflexivity.
Qed.

(** The record of an apartment of 80 square metres in Recife passes a
    selection of two cities. *)
Lemma keeps_iff_passes_witness :
  let filters :=
    {| FilterEngine.estados := [];
       FilterEngine.cidades := [VStr "Recife"; VStr "Olinda"];
       FilterEngine.bairros := []; FilterEngine.padroes := [];
       FilterEngine.status := []; FilterEngine.tipos := [];
       FilterEngine.tiposImovel := []; FilterEngine.quartos := [];
       FilterEngine.anosLancamento := []; FilterEngine.incorporadoras := [];
       FilterEngine.m2Range := (int 0, int 2000);
       FilterEngine.ticketRange := (int 0, int 100000000);
       FilterEngine.valorM2Range := (int 0, int 100000) |} in
  let i :=
    Normalizer.normalize
      {| Normalizer.fullYear := 2026;
         Normalizer.isoString := "2026-01-01T00:00:00.000Z" |}
      (VObj [("cidade", VStr "Recife"); ("area_privativa", VStr "80.5")]) 0 in
  FilterEngine.passes filters i.
Proof.
  intros filters i.
  apply (keeps_iff_passes filters i).
  - repeat split; reflexivity.
  - reflexivity.
Defined.

(** C10. Under the untouched selection the numeric dimensions do filter:
    the default ranges are [0, 2000], [0, 100000000] and [0, 100000], and a
    record whose private area exceeds 2000, whose average price exceeds
    100000000, whose price per area exceeds 100000, or with a negative value
    on one of the three, is not kept and is absent from the filtered
    collection. *)
Theorem default_ranges_exclude (i : Normalizer.NormalizedRecord)
  (rawData : list Normalizer.NormalizedRecord) :
  FilterEngine.exceeds (Normalizer.m2 i) 2000
  \/ FilterEngine.exceeds (Normalizer.preco i) 100000000
  \/ FilterEngine.exceeds (Normalizer.valorM2 i) 100000
  \/ FilterEngine.negative (Normalizer.m2 i)
  \/ FilterEngine.negative (Normalizer.preco i)
  \/ FilterEngine.negative (Normalizer.valorM2 i) ->
  FilterEngine.m2Range FilterEngine.DEFAULT_FILTERS = (int 0, int 2000)
  /\ FilterEngine.ticketRange FilterEngine.DEFAULT_FILTERS
     = (int 0, int 100000000)
  /\ FilterEngine.valorM2Range FilterEngine.DEFAULT_FILTERS
     = (int 0, int 100000)
  /\ FilterEngine.keeps FilterEngine.DEFAULT_FILTERS i = false
  /\ ~ In i (FilterEngine.filteredData rawData FilterEngine.DEFAULT_FILTERS).
Proof.
  intros H.
  assert (Hk : FilterEngine.keeps FilterEngine.DEFAULT_FILTERS i = false).
  { apply not_true_iff_false. rewrite FilterFacts.keeps_unfold.
    intros (_ & _ & _ & _ & _ & _ & _ & _ & _ & _ & H1 & H2 & H3).
    cbn [FilterEngine.DEFAULT_FILTERS FilterEngine.m2Range
         FilterEngine.ticketRange FilterEngine.valorM2Range] in H1, H2, H3.
    unfold FilterEngine.exceeds, FilterEngine.negative in H.
    destruct H as [(q & E & Hq) | [(q & E & Hq) | [(q & E & Hq)
                 | [(q & E & Hq) | [(q & E & Hq) | (q & E & Hq)]]]]];
      rewrite E in *;
      match goal with
      | Ho : FilterEngine.outside _ (Num q) = false |- _ =>
          apply FilterFacts.outside_spec in Ho; destruct Ho as [Hlo Hhi]
      end;
      first [ apply (Qlt_not_le _ _ Hq Hhi) | apply (Qlt_not_le _ _ Hq Hlo) ]. }
  repeat split; try reflexivity; try exact Hk.
  unfold FilterEngine.filteredData. rewrite filter_In.
  intros [_ Hkeep]. congruence.
Qed.

(** A record of 2500 square metres is not kept by the untouched
    selection. *)
Lemma default_ranges_exclude_witness :
  let i :=
    Normalizer.normalize
      {| Normalizer.fullYear := 2026;
         Normalizer.isoString := "2026-01-01T00:00:00.000Z" |}
      (VObj [("area_privativa", vint 2500)]) 0 in
  FilterEngine.exceeds (Normalizer.m2 i) 2000
  /\ FilterEngine.keeps FilterEngine.DEFAULT_FILTERS i = false.
Proof.
  intros i.
  assert (Hx : FilterEngine.exceeds (Normalizer.m2 i) 2000).
  { exists (2500 # 1). split; [reflexivity | unfold Qlt; simpl; lia]. }
  split; [exact Hx|].
  exact (proj1 (proj2 (proj2 (proj2
           (default_ranges_exclude i [i] (or_introl Hx)))))).
Defined.

(* ====================================================================== *)
(** * The normalizer                                                       *)
(* ====================================================================== *)

Module NormalizerFacts.
Import Normalizer.

Lemma or_truthy (a b : value) : truthy a = true -> a ||| b = a.
Proof. unfold or_else. now intros ->. Qed.

Lemma or_falsy (a b : value) : truthy a = false -> a ||| b = b.
Proof. unfold or_else. now intros ->. Qed.

Lemma truthy_or_right (a b : value) :
  truthy b = true -> truthy (a ||| b) = true.
Proof. unfold or_else. intros Hb. now destruct (truthy a) eqn:Ha. Qed.

Lemma Qred_int (z : Z) : Qred (z # 1) = z # 1.
Proof. apply Qred_identity. simpl. apply Z.gcd_1_r. Qed.

Lemma truthy_int (z : Z) : truthy (vint z) = negb (z =? 0).
Proof.
  unfold vint, int, truthy. f_equal.
  destruct (z =? 0) eqn:Ez.
  - apply Z.eqb_eq in Ez. now subst.
  - apply Z.eqb_neq in Ez. apply not_true_iff_false. intros H.
    apply Qeq_bool_eq in H. unfold Qeq in H. simpl in H. lia.
Qed.

(** [parseInt] gives an integer below [10 ^ 21] back. *)
Lemma parseInt_int (z : Z) : Z.abs z < 10 ^ 21 -> parseInt (vint z) = int z.
Proof.
  intros Hz. unfold vint, int, parseInt, parseInt_num.
  destruct (Qeq_bool (z # 1) 0) eqn:E0.
  - apply Qeq_bool_eq in E0. unfold Qeq in E0. simpl in E0.
    assert (z = 0) by lia. subst. reflexivity.
  - apply Qeq_bool_neq in E0.
    assert (Hnz : z <> 0). { intros ->. apply E0. reflexivity. }
    assert (Ha : Qabs (z # 1) = Z.abs z # 1) by reflexivity. rewrite Ha.
    assert (Plo : pow10 (-6) = 1 # 1000000) by (vm_compute; reflexivity).
    assert (Phi : pow10 21 = 1000000000000000000000 # 1)
      by (vm_compute; reflexivity).
    assert (H1 : Qle_bool (pow10 (-6)) (Z.abs z # 1) = true).
    { apply Qle_bool_iff. rewrite Plo. unfold Qle. cbn [Qnum Qden]. lia. }
    assert (H2 : Qle_bool (pow10 21) (Z.abs z # 1) = false).
    { apply not_true_iff_false. intros H. apply Qle_bool_iff in H.
      rewrite Phi in H. unfold Qle in H. cbn [Qnum Qden] in H. lia. }
    rewrite H1, H2. cbn [andb negb].
    change (Z.abs z # 1) with (inject_Z (Z.abs z)). rewrite Qfloor_Z.
    destruct (Qle_bool 0 (z # 1)) eqn:Es; cbn [negb signed].
    + apply Qle_bool_iff in Es. unfold Qle in Es. simpl in Es.
      rewrite Z.abs_eq by lia. now rewrite Qred_int.
    + apply not_true_iff_false in Es. rewrite Qle_bool_iff in Es.
      unfold Qle in Es. simpl in Es.
      change (- (Z.abs z # 1))%Q with ((- Z.abs z) # 1).
      rewrite Z.abs_neq by lia. rewrite Z.opp_involutive.
      now rewrite Qred_int.
Qed.

(** What [parseFloat] returns is in lowest terms. *)
Lemma parseFloat_canonical (v : value) (q : Q) :
  parseFloat v = Num q -> Qred q = q.
Proof.
  assert (Hstr : forall s, parseFloat_str s = Num q -> Qred q = q).
  { intros s. unfold parseFloat_str.
    destruct (read_sign _) as [neg cs].
    destruct (read_decimal cs) as [[q' rest]|]; [|discriminate].
    intros H. inversion H. apply Qred_involutive. }
  destruct v; simpl; try apply Hstr.
  destruct n as [|q']; simpl; [discriminate|].
  intros H. inversion H. apply Qred_involutive.
Qed.

(** A value that is not numeric is truthy and parses to [NaN]. *)
Lemma non_numeric_parses_to_NaN (v : value) :
  non_numeric v ->
  truthy v = true /\ parseInt v = NaN /\ parseFloat v = NaN.
Proof.
  intros [c s Hc | | fields].
  - split; [reflexivity|].
    destruct c as [[] [] [] [] [] [] [] []];
      try discriminate Hc; split; reflexivity.
  - repeat split.
  - repeat split.
Qed.

Lemma canon_parseFloat (v : value) : canon (parseFloat v) = parseFloat v.
Proof.
  destruct (parseFloat v) as [|q] eqn:E; [reflexivity|].
  simpl. f_equal. exact (parseFloat_canonical v q E).
Qed.

Lemma normalize_well_formed (now : Clock) (emp : value) (index : nat) :
  well_formed index (normalize now emp index).
Proof.
  unfold well_formed, normalize; cbn [id nome cidade estado bairro
    incorporadora tipo padrao tipoImovel status vgvTotal vgvVendido preco m2
    valorM2].
  repeat split;
    try (apply truthy_or_right; reflexivity);
    try apply canon_parseFloat.
  unfold or_else. destruct (truthy (get emp "id")) eqn:E; [now left | now right].
Qed.

Lemma or_undef_mid (a b : value) : a ||| VUndef ||| b = a ||| b.
Proof.
  unfold or_else. destruct (truthy a) eqn:E; [now rewrite E | reflexivity].
Qed.

Lemma renormalize_int (x : num) (d : Z) :
  plain_integer x -> (x = int 0 -> d = 0) ->
  parseInt (VNum x ||| vint d) = x.
Proof.
  intros (z & -> & Hz) H0.
  destruct (Z.eq_dec z 0) as [-> | Hnz].
  - rewrite (H0 eq_refl). reflexivity.
  - assert (Ht : truthy (VNum (int z)) = true).
    { change (VNum (int z)) with (vint z). rewrite truthy_int.
      apply negb_true_iff. now apply Z.eqb_neq. }
    rewrite (or_truthy _ _ Ht). now apply parseInt_int.
Qed.

Lemma renormalize_float (x : num) :
  is_nan x = false -> canon x = x -> parseFloat (VNum x ||| vint 0) = x.
Proof.
  destruct x as [|q]; [discriminate|]. intros _ Hc.
  simpl in Hc. injection Hc as Hq.
  destruct (truthy (VNum (Num q))) eqn:Ht.
  - rewrite (or_truthy _ _ Ht). simpl. now rewrite Hq.
  - rewrite (or_falsy _ _ Ht).
    simpl in Ht. apply negb_false_iff, Qeq_bool_eq in Ht.
    rewrite <- Hq. change (parseFloat (vint 0)) with (Num (Qred (0 # 1))).
    f_equal. apply Qred_complete. now symmetry.
Qed.

(** A well-formed, settled record read back through its first aliases
    normalizes to itself, whatever the clock. *)
Lemma normalize_as_default_aliases (now : Clock) (index : nat)
  (r : NormalizedRecord) :
  well_formed index r -> settled_record r ->
  normalize now (as_default_aliases r) index = r.
Proof.
  intros (Hid & H1 & H2 & H3 & H4 & H5 & H6 & H7 & H8 & H9
          & C1 & C2 & C3 & C4 & C5)
         (Sq & Sq0 & Sa & Sa0 & Su & St & N1 & N2 & N3 & N4 & N5 & Sd).
  unfold normalize.
  cbn [get lookup as_default_aliases String.eqb Ascii.eqb Bool.eqb].
  rewrite !or_undef_mid.
  rewrite (or_truthy (nome r) _ H1), (or_truthy (cidade r) _ H2),
    (or_truthy (estado r) _ H3), (or_truthy (bairro r) _ H4),
    (or_truthy (incorporadora r) _ H5), (or_truthy (tipo r) _ H6),
    (or_truthy (padrao r) _ H7), (or_truthy (tipoImovel r) _ H8),
    (or_truthy (status r) _ H9), (or_truthy (dataAtualizacao r) _ Sd).
  rewrite (renormalize_float (vgvTotal r) N1 C1),
    (renormalize_float (vgvVendido r) N2 C2),
    (renormalize_float (preco r) N3 C3), (renormalize_float (m2 r) N4 C4),
    (renormalize_float (valorM2 r) N5 C5).
  rewrite (renormalize_int (quartos r) 2 Sq (fun E => False_ind _ (Sq0 E))),
    (renormalize_int (anoLancamento r) (fullYear now) Sa
       (fun E => False_ind _ (Sa0 E))),
    (renormalize_int (unidadesVendidas r) 0 Su (fun _ => eq_refl)),
    (renormalize_int (totalUnidades r) 0 St (fun _ => eq_refl)).
  assert (Hi : id r ||| vint (Z.of_nat index) = id r).
  { destruct Hid as [Hid | Hid].
    - now apply or_truthy.
    - rewrite Hid. unfold or_else.
      now destruct (truthy (vint (Z.of_nat index))). }
  rewrite Hi. destruct r; reflexivity.
Qed.

Lemma transform_from_ok (clock : nat -> Clock) (apiData : list value) :
  forall index,
    Forall (fun emp => nullish emp = false) apiData ->
    exists out,
      transform_from clock index apiData = Ok out
      /\ List.length out = List.length apiData.
Proof.
  induction apiData as [|emp rest IH]; intros index Hall.
  - now exists [].
  - inversion Hall as [|? ? Hemp Hrest]; subst.
    destruct (IH (S index) Hrest) as (out & Hout & Hlen).
    simpl. rewrite Hemp, Hout. eexists. split; [reflexivity|].
    simpl. now rewrite Hlen.
Qed.

Lemma transform_from_throws (clock : nat -> Clock) (apiData : list value) :
  forall index,
    Exists (fun emp => nullish emp = true) apiData ->
    transform_from clock index apiData = Throw TypeError.
Proof.
  induction apiData as [|emp rest IH]; intros index Hex.
  - inversion Hex.
  - simpl. destruct (nullish emp) eqn:Hemp; [reflexivity|].
    inversion Hex as [? ? Hhead | ? ? Htail]; subst; [congruence|].
    now rewrite (IH (S index) Htail).
Qed.

(** The record at position [i] of the output is the normalized [i]-th
    element. *)
Lemma transform_from_nth (clock : nat -> Clock) (apiData : list value) :
  forall index out i emp,
    transform_from clock index apiData = Ok out ->
    nth_error apiData i = Some emp ->
    nth_error out i
    = Some (normalize (clock (index + i)%nat) emp (index + i)%nat).
Proof.
  induction apiData as [|e rest IH]; intros index out i emp Hout Hnth.
  - destruct i; discriminate.
  - simpl in Hout. destruct (nullish e); [discriminate|].
    destruct (transform_from clock (S index) rest) as [out'|] eqn:E;
      [|discriminate].
    inversion Hout; subst out. destruct i as [|i].
    + simpl in Hnth. inversion Hnth; subst. simpl.
      now rewrite Nat.add_0_r.
    + simpl in Hnth. simpl. rewrite (IH (S index) out' i emp E Hnth).
      now rewrite Nat.add_succ_r.
Qed.

Lemma transform_from_well_formed (clock : nat -> Clock)
  (apiData : list value) :
  forall index out,
    transform_from clock index apiData = Ok out ->
    forall i r, nth_error out i = Some r -> well_formed (index + i) r.
Proof.
  induction apiData as [|e rest IH]; intros index out Hout i r Hnth.
  - inversion Hout; subst. destruct i; discriminate.
  - simpl in Hout. destruct (nullish e); [discriminate|].
    destruct (transform_from clock (S index) rest) as [out'|] eqn:E;
      [|discriminate].
    inversion Hout; subst out. destruct i as [|i]; simpl in Hnth.
    + inversion Hnth; subst. rewrite Nat.add_0_r.
      apply normalize_well_formed.
    + rewrite Nat.add_succ_r. exact (IH (S index) out' E i r Hnth).
Qed.

Lemma retransform_from (clock : nat -> Clock) (out : list NormalizedRecord) :
  forall index,
    (forall i r, nth_error out i = Some r -> well_formed (index + i) r) ->
    Forall settled_record out ->
    transform_from clock index (map as_default_aliases out) = Ok out.
Proof.
  induction out as [|r rest IH]; intros index Hwf Hset.
  - reflexivity.
  - inversion Hset as [|? ? Hr Hrest]; subst. simpl.
    rewrite (IH (S index)).
    + rewrite normalize_as_default_aliases; [reflexivity | | exact Hr].
      specialize (Hwf 0%nat r eq_refl). now rewrite Nat.add_0_r in Hwf.
    + intros i r' Hnth. specialize (Hwf (S i) r' Hnth).
      now rewrite Nat.add_succ_r in Hwf.
    + exact Hrest.
Qed.

End NormalizerFacts.

Import Normalizer.

(** C5, as stated, fails on each of its three counts: without a source the
    bedroom count is 2, not 0; the name falls back on ["N/A"] and the type
    on ["Vertical"], not on one sentinel; and a launched value given as the
    text ["abc"] is [NaN], not 0. *)
Lemma defaults_are_not_uniform :
  ~ bedrooms_default_to_zero
  /\ ~ texts_share_a_sentinel
  /\ ~ non_numeric_is_zero.
Proof.
  assert (Habs : forall ks, absent (VObj []) ks).
  { intros ks. unfold absent. apply Forall_forall. reflexivity. }
  repeat split.
  - intros H. specialize (H (frozen 0) (VObj []) 0%nat (Habs _)).
    discriminate H.
  - intros [unknown H].
    destruct (H (frozen 0) (VObj []) 0%nat) as [Hnome Htipo].
    specialize (Hnome (Habs _)). specialize (Htipo (Habs _)).
    rewrite <- Hnome in Htipo. discriminate Htipo.
  - intros H.
    specialize (H (frozen 0) (VObj [("vgv_total", VStr "abc")]) 0%nat
                  (VStr "abc") (non_numeric_text "a" "bc" eq_refl) eq_refl).
    discriminate H.
Qed.

Ltac use_absent H :=
  unfold absent in H;
  repeat match goal with
         | A : Forall _ (_ :: _) |- _ => inversion_clear A
         end;
  repeat match goal with
         | E : get _ _ = VUndef |- _ => rewrite E; clear E
         end.

Ltac first_alias E Ht :=
  rewrite E; rewrite !(NormalizerFacts.or_truthy _ _ Ht); assumption.

(** C5, amended. The normalizer returns one record for each element of a
    list that holds no [null] and no [undefined] (and throws on a list that
    holds one), as long as the numeric properties of the raw records are
    readable: a numeric field given as an object with an own [toString]
    makes [parseInt] or [parseFloat] throw. For such a raw record, when a
    field is absent under all of its aliases: the launched value, the sold
    value, the units sold, the total units, the average price, the private
    area and the price per area are 0; the bedroom count is 2; the launch
    year is the current year; the name, the city, the state, the
    neighbourhood and the developer are ["N/A"]; the type is ["Vertical"],
    the quality tier ["Standard"], the unit type ["Padrao"], the status
    ["Comercializacao"]; the time stamp is the current time; the identifier
    is the index. A numeric field whose first alias holds a value that is
    not numeric (a text that does not start like a number, [true], an
    object) is [NaN]; the text [Infinity], which [parseFloat] reads as a
    number, is not readable. *)
Theorem transformData_total_with_defaults :
  (forall clock apiData,
      Forall (fun emp => nullish emp = false) apiData ->
      Forall readable_record apiData ->
      exists out,
        transformData clock apiData = Ok out
        /\ List.length out = List.length apiData)
  /\ (forall clock apiData,
        Exists (fun emp => nullish emp = true) apiData ->
        transformData clock apiData = Throw TypeError)
  /\ (forall now emp index,
        readable_record emp ->
        let r := normalize now emp index in
        (absent emp ["id"] -> id r = vint (Z.of_nat index))
        /\ (absent emp ["nome"; "empreendimento"; "name"] ->
            nome r = VStr "N/A")
        /\ (absent emp ["cidade"; "city"] -> cidade r = VStr "N/A")
        /\ (absent emp ["estado"; "uf"; "state"] -> estado r = VStr "N/A")
        /\ (absent emp ["bairro"; "neighborhood"] -> bairro r = VStr "N/A")
        /\ (absent emp ["incorporadora"; "construtora"; "developer"] ->
            incorporadora r = VStr "N/A")
        /\ (absent emp ["tipo"; "type"] -> tipo r = VStr "Vertical")
        /\ (absent emp ["padrao"; "standard"] -> padrao r = VStr "Standard")
        /\ (absent emp ["tipologia"; "tipo_imovel"; "property_type"] ->
            tipoImovel r = VStr "Padrao")
        /\ (absent emp ["quartos"; "dormitorios"; "bedrooms"] ->
            quartos r = int 2)
        /\ (absent emp ["vgv_total"; "vgv"; "total_value"] ->
            vgvTotal r = int 0)
        /\ (absent emp ["vgv_vendido"; "sold_value"] -> vgvVendido r = int 0)
        /\ (absent emp ["unidades_vendidas"; "sold_units"] ->
            unidadesVendidas r = int 0)
        /\ (absent emp ["total_unidades"; "unidades"; "total_units"] ->
            totalUnidades r = int 0)
        /\ (absent emp ["preco_medio"; "ticket_medio"; "average_price"] ->
            preco r = int 0)
        /\ (absent emp ["area_privativa"; "m2"; "private_area"] ->
            m2 r = int 0)
        /\ (absent emp ["valor_m2"; "price_per_sqm"] -> valorM2 r = int 0)
        /\ (absent emp ["status"] -> status r = VStr "Comercializacao")
        /\ (absent emp ["ano_lancamento"; "ano"; "launch_year"] ->
            Z.abs (fullYear now) < 10 ^ 21 ->
            anoLancamento r = int (fullYear now))
        /\ (absent emp ["updated_at"; "data_atualizacao"] ->
            dataAtualizacao r = VStr (isoString now)))
  /\ (forall now emp index v,
        readable_record emp ->
        non_numeric v ->
        let r := normalize now emp index in
        (get emp "quartos" = v -> quartos r = NaN)
        /\ (get emp "vgv_total" = v -> vgvTotal r = NaN)
        /\ (get emp "vgv_vendido" = v -> vgvVendido r = NaN)
        /\ (get emp "unidades_vendidas" = v -> unidadesVendidas r = NaN)
        /\ (get emp "total_unidades" = v -> totalUnidades r = NaN)
        /\ (get emp "preco_medio" = v -> preco r = NaN)
        /\ (get emp "area_privativa" = v -> m2 r = NaN)
        /\ (get emp "valor_m2" = v -> valorM2 r = NaN)
        /\ (get emp "ano_lancamento" = v -> anoLancamento r = NaN)).
Proof.
  split; [|split; [|split]].
  - intros clock apiData Hall _.
    exact (NormalizerFacts.transform_from_ok clock apiData 0 Hall).
  - intros clock apiData Hex.
    exact (NormalizerFacts.transform_from_throws clock apiData 0 Hex).
  - intros now emp index _ r. subst r. unfold normalize.
    cbn [id nome cidade estado bairro incorporadora tipo padrao tipoImovel
         quartos vgvTotal vgvVendido unidadesVendidas totalUnidades preco m2
         valorM2 status anoLancamento dataAtualizacao].
    repeat split; intros H; try (use_absent H; reflexivity).
    intros Hyear. use_absent H.
    exact (NormalizerFacts.parseInt_int (fullYear now) Hyear).
  - intros now emp index v _ Hv r. subst r. unfold normalize.
    cbn [quartos vgvTotal vgvVendido unidadesVendidas totalUnidades preco m2
         valorM2 anoLancamento].
    destruct (NormalizerFacts.non_numeric_parses_to_NaN v Hv)
      as (Ht & Hint & Hfloat).
    repeat split; intros E; first_alias E Ht.
Qed.

(** The empty raw record: it is normalized, and its bedroom count is 2. *)
Lemma transformData_total_with_defaults_witness :
  (exists out,
      transformData frozen [VObj []] = Ok out
      /\ List.length out = 1%nat)
  /\ quartos (normalize (frozen 0) (VObj []) 0) = int 2
  /\ vgvTotal (normalize (frozen 0) (VObj [("vgv_total", VBool true)]) 0)
     = NaN.
Proof.
  destruct transformData_total_with_defaults as (Htotal & _ & Hdef & Hnan).
  split; [|split].
  - apply (Htotal frozen [VObj []]); repeat constructor.
  - apply (Hdef (frozen 0) (VObj []) 0%nat); repeat constructor.
  - apply (Hnan (frozen 0) (VObj [("vgv_total", VBool true)]) 0%nat
                (VBool true)); [repeat constructor | constructor | reflexivity].
Defined.

(** C6, as stated, fails: a raw record whose bedroom count is the text
    ["0"] is normalized to 0 bedrooms, and the normalized record read back
    through its first aliases is normalized to 2. *)
Lemma renormalization_is_not_idempotent :
  ~ (forall clock apiData, idempotent_on clock apiData).
Proof.
  intros H.
  specialize (H frozen [VObj [("quartos", VStr "0")]] _ eq_refl).
  vm_compute in H. discriminate H.
Qed.

(** C6, amended. Applying the normalizer to its own output, read back
    through the first alias of every field, returns that output whenever
    every record of the output has no [NaN] in a numeric field, integer
    fields below [10 ^ 21] in magnitude, a bedroom count and a launch year
    other than 0, and a time stamp that is not empty; the clock of the
    second pass does not matter. *)
Theorem renormalization_of_settled_output (clock clock' : nat -> Clock)
  (apiData : list value) (out : list NormalizedRecord) :
  transformData clock apiData = Ok out ->
  Forall settled_record out ->
  transformData clock' (map as_default_aliases out) = Ok out.
Proof.
  intros Hout Hset. unfold transformData.
  apply NormalizerFacts.retransform_from; [|exact Hset].
  intros i r Hnth.
  exact (NormalizerFacts.transform_from_well_formed clock apiData 0 out
           Hout i r Hnth).
Qed.

(** A three-bedroom project of 1500000.50 is settled after one pass. *)
Lemma renormalization_of_settled_output_witness :
  let out :=
    [normalize (frozen 0)
       (VObj [("dormitorios", vint 3); ("vgv", VStr "1500000.50")]) 0] in
  transformData frozen (map as_default_aliases out) = Ok out.
Proof.
  intros out.
  apply (renormalization_of_settled_output frozen frozen
           [VObj [("dormitorios", vint 3); ("vgv", VStr "1500000.50")]] out).
  - reflexivity.
  - constructor; [|constructor].
    unfold settled_record.
    repeat split; try reflexivity; try discriminate;
      try (eexists; split; [reflexivity | vm_compute; reflexivity]).
Defined.

(** C9, as stated, fails: when the first record carries the identifier 1
    and the second carries none, both normalized records have the
    identifier 1. *)
Lemma identifiers_can_collide :
  ~ (forall clock apiData out,
        transformData clock apiData = Ok out -> distinct_ids out).
Proof.
  intros H.
  specialize (H frozen [VObj [("id", vint 1)]; VObj []] _ eq_refl
                0%nat 1%nat _ _ (Nat.neq_succ_diag_r 0) eq_refl eq_refl).
  discriminate H.
Qed.

(** C9, amended. A record whose identifier is absent (or falsy) receives
    its position in the list as identifier, a record with a truthy
    identifier keeps it, and the identifiers of two records at different
    positions that both lack one differ. *)
Theorem identifier_falls_back_on_index (clock : nat -> Clock)
  (apiData : list value) (out : list NormalizedRecord) :
  transformData clock apiData = Ok out ->
  (forall i emp r,
      nth_error apiData i = Some emp -> nth_error out i = Some r ->
      (lacks_id emp -> id r = vint (Z.of_nat i))
      /\ (~ lacks_id emp -> id r = get emp "id"))
  /\ (forall i j ei ej ri rj,
        nth_error apiData i = Some ei -> nth_error apiData j = Some ej ->
        nth_error out i = Some ri -> nth_error out j = Some rj ->
        lacks_id ei -> lacks_id ej -> i <> j ->
        strict_eq (id ri) (id rj) = false).
Proof.
  intros Hout.
  assert (Hid : forall i emp r,
      nth_error apiData i = Some emp -> nth_error out i = Some r ->
      (lacks_id emp -> id r = vint (Z.of_nat i))
      /\ (~ lacks_id emp -> id r = get emp "id")).
  { intros i emp r Hemp Hr.
    rewrite (NormalizerFacts.transform_from_nth clock apiData 0 out i emp
               Hout Hemp) in Hr.
    injection Hr as <-. cbn [id normalize Nat.add]. unfold lacks_id.
    split; intros H.
    - now apply NormalizerFacts.or_falsy.
    - apply NormalizerFacts.or_truthy. now apply not_false_iff_true. }
  split; [exact Hid|].
  intros i j ei ej ri rj Hei Hej Hri Hrj Li Lj Hij.
  rewrite (proj1 (Hid i ei ri Hei Hri) Li).
  rewrite (proj1 (Hid j ej rj Hej Hrj) Lj).
  unfold strict_eq, vint, int, num_strict_eq.
  apply not_true_iff_false. intros H. apply Qeq_bool_eq in H.
  unfold Qeq in H. simpl in H. lia.
Qed.

(** Two records without identifier: they get 0 and 1. *)
Lemma identifier_falls_back_on_index_witness :
  let apiData := [VObj [("nome", VStr "A")]; VObj [("nome", VStr "B")]] in
  let r0 := normalize (frozen 0) (VObj [("nome", VStr "A")]) 0 in
  let r1 := normalize (frozen 1) (VObj [("nome", VStr "B")]) 1 in
  id r1 = vint 1 /\ strict_eq (id r0) (id r1) = false.
Proof.
  intros apiData r0 r1.
  destruct (identifier_falls_back_on_index frozen apiData [r0; r1] eq_refl)
    as [Hid Hdistinct].
  split.
  - exact (proj1 (Hid 1%nat (VObj [("nome", VStr "B")]) r1 eq_refl eq_refl)
             eq_refl).
  - exact (Hdistinct 0%nat 1%nat _ _ r0 r1 eq_refl eq_refl eq_refl eq_refl
             eq_refl eq_refl (Nat.neq_succ_diag_r 0)).
Defined.

(* ====================================================================== *)
(** * The aggregation engine                                               *)
(* ====================================================================== *)

Module AggregationFacts.
Import Aggregation.

(** ** Objects used as maps *)

Section StoreFacts.

Variable G : Type.

Lemma store_get_create (g : store G) (k k' : string) (x : G) :
  store_get (store_create g k x) k'
  = match store_get g k' with
    | Some y => Some y
    | None => if String.eqb k k' then Some x else None
    end.
Proof.
  unfold store_create. induction g as [|[k0 y] rest IH]; simpl.
  - reflexivity.
  - destruct (String.eqb k0 k'); [reflexivity | exact IH].
Qed.

Lemma store_get_update (g : store G) (k k' : string) (f : G -> G) :
  store_get (store_update g k f) k'
  = if String.eqb k k' then option_map f (store_get g k) else store_get g k'.
Proof.
  induction g as [|[k0 y] rest IH]; simpl.
  - now destruct (String.eqb k k').
  - destruct (String.eqb k0 k) eqn:E0; simpl.
    + apply String.eqb_eq in E0. subst k0.
      destruct (String.eqb k k'); reflexivity.
    + destruct (String.eqb k0 k') eqn:E1.
      * apply String.eqb_eq in E1. subst k0.
        rewrite String.eqb_sym in E0. now rewrite E0.
      * exact IH.
Qed.

Lemma store_keys_update (g : store G) (k : string) (f : G -> G) :
  map fst (store_update g k f) = map fst g.
Proof.
  induction g as [|[k0 y] rest IH]; simpl; [reflexivity|].
  destruct (String.eqb k0 k); simpl; [reflexivity | now rewrite IH].
Qed.

Lemma store_keys_create (g : store G) (k : string) (x : G) :
  map fst (store_create g k x) = (map fst g ++ [k])%list.
Proof. unfold store_create. now rewrite map_app. Qed.

(** Without array indices among the keys, [Object.values] follows the
    order of creation. *)
Lemma object_values_creation_order (g : store G) :
  (forall k, In k (map fst g) -> array_index k = None) ->
  object_values g = map snd g.
Proof.
  intros Hk.
  assert (H : index_entries g = [] /\ name_entries g = map snd g).
  { induction g as [|[k x] rest IH]; [now split|].
    simpl. rewrite (Hk k (or_introl eq_refl)).
    destruct IH as [IH1 IH2].
    - intros k' Hin. apply Hk. now right.
    - split; [exact IH1 | now rewrite IH2]. }
  unfold object_values. destruct H as [-> ->]. reflexivity.
Qed.

(** The values of a map whose keys are distinct, read off its keys. *)
Lemma values_by_key (g : store G) (h : string -> G) :
  NoDup (map fst g) ->
  (forall k, In k (map fst g) -> store_get g k = Some (h k)) ->
  map snd g = map h (map fst g).
Proof.
  induction g as [|[k x] rest IH]; intros Hnd Hget; [reflexivity|].
  simpl in *. inversion Hnd as [|? ? Hnotin Hnd']; subst.
  f_equal.
  - specialize (Hget k (or_introl eq_refl)). rewrite String.eqb_refl in Hget.
    now inversion Hget.
  - apply IH; [exact Hnd'|]. intros k' Hin.
    specialize (Hget k' (or_intror Hin)).
    destruct (String.eqb k k') eqn:E; [|exact Hget].
    apply String.eqb_eq in E. subst k'. contradiction.
Qed.

End StoreFacts.

(** ** Keys in the order of first occurrence *)

Lemma first_occurrences_In (ks : list string) (k : string) :
  In k (first_occurrences ks) <-> In k ks.
Proof.
  induction ks as [|k0 rest IH]; simpl; [tauto|].
  rewrite filter_In, IH, negb_true_iff. split.
  - intros [H | [H _]]; auto.
  - intros [H | H]; [now left|].
    destruct (String.eqb k0 k) eqn:E.
    + apply String.eqb_eq in E. now left.
    + right. auto.
Qed.

Lemma first_occurrences_NoDup (ks : list string) :
  NoDup (first_occurrences ks).
Proof.
  induction ks as [|k0 rest IH]; simpl; constructor.
  - rewrite filter_In, negb_true_iff, String.eqb_refl. intros [_ H].
    discriminate.
  - now apply NoDup_filter.
Qed.

Lemma first_occurrences_snoc (ks : list string) (k : string) :
  first_occurrences (ks ++ [k])
  = if existsb (String.eqb k) ks then first_occurrences ks
    else (first_occurrences ks ++ [k])%list.
Proof.
  induction ks as [|k0 rest IH]; simpl; [reflexivity|].
  rewrite IH. rewrite (String.eqb_sym k k0).
  destruct (String.eqb k0 k) eqn:E0; simpl.
  - destruct (existsb (String.eqb k) rest); [reflexivity|].
    rewrite filter_app. simpl. rewrite E0. simpl. now rewrite app_nil_r.
  - destruct (existsb (String.eqb k) rest); [reflexivity|].
    rewrite filter_app. simpl. now rewrite E0.
Qed.

(** ** The [forEach] loops *)

Section GroupByFacts.

Variable G : Type.
Variable field : Normalizer.NormalizedRecord -> value.
Variable init : value -> G.
Variable add : Normalizer.NormalizedRecord -> G -> G.

Lemma members_snoc (done : list Normalizer.NormalizedRecord)
  (i : Normalizer.NormalizedRecord) (k : string) :
  members field (done ++ [i]) k
  = (members field done k
     ++ (if String.eqb (key_of field i) k then [i] else []))%list.
Proof. unfold members. rewrite filter_app. reflexivity. Qed.

Lemma seen_iff_member (done : list Normalizer.NormalizedRecord)
  (k : string) :
  inherited k = false ->
  existsb (String.eqb k)
    (filter (fun k' => negb (inherited k')) (map (key_of field) done))
  = match members field done k with [] => false | _ :: _ => true end.
Proof.
  intros Hk. induction done as [|i0 rest IH]; [reflexivity|].
  simpl. destruct (String.eqb (key_of field i0) k) eqn:E.
  - apply String.eqb_eq in E. rewrite E, Hk. simpl.
    now rewrite String.eqb_refl.
  - destruct (inherited (key_of field i0)); simpl; [exact IH|].
    rewrite String.eqb_sym, E. exact IH.
Qed.

Lemma group_keys_snoc (done : list Normalizer.NormalizedRecord)
  (i : Normalizer.NormalizedRecord) :
  group_keys field (done ++ [i])
  = if inherited (key_of field i) then group_keys field done
    else
      match members field done (key_of field i) with
      | [] => (group_keys field done ++ [key_of field i])%list
      | _ :: _ => group_keys field done
      end.
Proof.
  unfold group_keys. rewrite map_app, filter_app. simpl.
  destruct (inherited (key_of field i)) eqn:Hi; simpl.
  - now rewrite app_nil_r.
  - rewrite first_occurrences_snoc, (seen_iff_member done _ Hi).
    now destruct (members field done (key_of field i)).
Qed.

Lemma folded_snoc_other (done : list Normalizer.NormalizedRecord)
  (i : Normalizer.NormalizedRecord) (k : string) :
  String.eqb (key_of field i) k = false ->
  folded field init add (done ++ [i]) k = folded field init add done k.
Proof.
  intros E. unfold folded. rewrite members_snoc, E. now rewrite app_nil_r.
Qed.

Lemma folded_snoc_same (done : list Normalizer.NormalizedRecord)
  (i : Normalizer.NormalizedRecord) :
  inherited (key_of field i) = false ->
  folded field init add (done ++ [i]) (key_of field i)
  = match folded field init add done (key_of field i) with
    | Some x => Some (add i x)
    | None => Some (add i (init (field i)))
    end.
Proof.
  intros Hi. unfold folded. rewrite Hi, members_snoc, String.eqb_refl.
  destruct (members field done (key_of field i)) as [|i0 l]; simpl.
  - reflexivity.
  - now rewrite fold_left_app.
Qed.

(** The loop creates the keys in the order of [group_keys] and stores
    under each key what [folded] says. *)
Lemma group_by_spec (data : list Normalizer.NormalizedRecord) :
  map fst (group_by field init add data) = group_keys field data
  /\ forall k, store_get (group_by field init add data) k = folded field init add data k.
Proof.
  induction data as [|i done IH] using rev_ind.
  - split; [reflexivity|]. intros k. unfold folded. simpl.
    now destruct (inherited k).
  - destruct IH as [IHk IHv].
    unfold group_by in *. rewrite fold_left_app. simpl.
    set (g := fold_left (group_step field init add) done []) in *.
    unfold group_step. fold (key_of field i).
    destruct (inherited (key_of field i)) eqn:Hi.
    + split.
      * now rewrite group_keys_snoc, Hi.
      * intros k. rewrite IHv.
        destruct (String.eqb (key_of field i) k) eqn:E.
        -- apply String.eqb_eq in E. subst k. unfold folded. now rewrite Hi.
        -- now rewrite folded_snoc_other.
    + pose proof (IHv (key_of field i)) as Hget.
      split.
      * rewrite store_keys_update, group_keys_snoc, Hi.
        unfold folded in Hget. rewrite Hi in Hget.
        destruct (members field done (key_of field i)) as [|i0 l].
        -- rewrite Hget. now rewrite store_keys_create, IHk.
        -- rewrite Hget. exact IHk.
      * intros k. rewrite store_get_update.
        destruct (String.eqb (key_of field i) k) eqn:E.
        -- apply String.eqb_eq in E. subst k.
           rewrite (folded_snoc_same done i Hi).
           destruct (folded field init add done (key_of field i)) as [x|] eqn:F.
           ++ rewrite Hget. simpl. now rewrite Hget.
           ++ rewrite Hget. rewrite store_get_create, Hget.
              now rewrite String.eqb_refl.
        -- rewrite (folded_snoc_other done i k E).
           destruct (store_get g (key_of field i)).
           ++ apply IHv.
           ++ rewrite store_get_create, E, IHv.
              now destruct (folded field init add done k).
Qed.

(** The keys that got a group have members, and were not inherited. *)
Lemma group_keys_members (data : list Normalizer.NormalizedRecord)
  (k : string) :
  In k (group_keys field data) ->
  inherited k = false /\ members field data k <> [].
Proof.
  unfold group_keys. rewrite first_occurrences_In, filter_In, in_map_iff.
  intros [(i & Hi & Hin) Hk]. apply negb_true_iff in Hk. split; [exact Hk|].
  intros Hnil.
  assert (Hm : In i (members field data k)).
  { unfold members. apply filter_In. split; [exact Hin|].
    now apply String.eqb_eq. }
  rewrite Hnil in Hm. contradiction.
Qed.

End GroupByFacts.

(** ** Sums *)

Lemma num_or_amount (x : num) :
  exists q, num_or x (int 0) = Num q /\ (q == amount x)%Q.
Proof.
  unfold num_or. destruct x as [|p]; simpl.
  - exists 0%Q. split; reflexivity.
  - destruct (Qeq_bool p 0) eqn:E; simpl.
    + exists 0%Q. split; [reflexivity|]. apply Qeq_bool_eq in E. now symmetry.
    + exists p. split; reflexivity.
Qed.

(** The running total kept by the compound assignment is the sum of the
    amounts, in lowest terms. *)
Lemma running_total (f : Normalizer.NormalizedRecord -> num)
  (l : list Normalizer.NormalizedRecord) :
  forall a : Q,
    fold_left (fun acc i => num_add acc (num_or (f i) (int 0))) l
      (Num (Qred a))
    = Num (Qred (a + sum_of f l)).
Proof.
  induction l as [|i rest IH]; intros a; simpl.
  - f_equal. apply Qred_complete. lra.
  - destruct (num_or_amount (f i)) as (q & -> & Hq). simpl.
    rewrite IH. f_equal. apply Qred_complete.
    rewrite Qred_correct, Hq. lra.
Qed.

Lemma fold_add_to_group (l : list Normalizer.NormalizedRecord) :
  forall x : Group,
    fold_left (fun x i => add_to_group i x) l x
    = {| label := label x;
         vgvTotal :=
           fold_left
             (fun acc i => num_add acc (num_or (Normalizer.vgvTotal i) (int 0)))
             l (vgvTotal x);
         vgvVendido :=
           fold_left
             (fun acc i =>
                num_add acc (num_or (Normalizer.vgvVendido i) (int 0)))
             l (vgvVendido x) |}.
Proof.
  induction l as [|i rest IH]; intros x; simpl.
  - now destruct x.
  - rewrite IH. reflexivity.
Qed.

Lemma fold_add_to_tipo_group (l : list Normalizer.NormalizedRecord) :
  forall x : TipoGroup,
    fold_left (fun x i => add_to_tipo_group i x) l x
    = {| tipo := tipo x;
         tipoVgvTotal :=
           fold_left
             (fun acc i => num_add acc (num_or (Normalizer.vgvTotal i) (int 0)))
             l (tipoVgvTotal x) |}.
Proof.
  induction l as [|i rest IH]; intros x; simpl.
  - now destruct x.
  - rewrite IH. reflexivity.
Qed.

Lemma total_from_zero (f : Normalizer.NormalizedRecord -> num)
  (l : list Normalizer.NormalizedRecord) :
  fold_left (fun acc i => num_add acc (num_or (f i) (int 0))) l (int 0)
  = Num (Qred (sum_of f l)).
Proof.
  change (int 0) with (Num (Qred 0)). rewrite running_total.
  f_equal. apply Qred_complete. lra.
Qed.

(** What the loop stores under a key that got a group is the group the
    specification describes. *)
Lemma folded_group (field : Normalizer.NormalizedRecord -> value)
  (data : list Normalizer.NormalizedRecord) (k : string) :
  In k (group_keys field data) ->
  folded field new_group add_to_group data k = Some (group_of field data k).
Proof.
  intros Hin. destruct (group_keys_members field data k Hin) as [Hk Hm].
  unfold folded, group_of. rewrite Hk.
  destruct (members field data k) as [|i0 l] eqn:E; [contradiction|].
  rewrite fold_add_to_group. unfold new_group.
  cbn [label vgvTotal vgvVendido]. now rewrite !total_from_zero.
Qed.

Lemma folded_tipo_group (data : list Normalizer.NormalizedRecord)
  (k : string) :
  In k (group_keys Normalizer.tipo data) ->
  folded Normalizer.tipo new_tipo_group add_to_tipo_group data k
  = Some (tipo_group_of data k).
Proof.
  intros Hin.
  destruct (group_keys_members Normalizer.tipo data k Hin) as [Hk Hm].
  unfold folded, tipo_group_of. rewrite Hk.
  destruct (members Normalizer.tipo data k) as [|i0 l] eqn:E; [contradiction|].
  rewrite fold_add_to_tipo_group. unfold new_tipo_group.
  cbn [tipo tipoVgvTotal]. now rewrite !total_from_zero.
Qed.

(** ** The order of [Object.values] *)

Lemma insert_index_perm (G : Type) (e : Z * G) (l : list (Z * G)) :
  Permutation (insert_index e l) (e :: l).
Proof.
  induction l as [|e' rest IH]; simpl; [reflexivity|].
  destruct (fst e <? fst e'); [reflexivity|].
  rewrite IH. apply perm_swap.
Qed.

Lemma object_values_perm (G : Type) (g : store G) :
  Permutation (object_values g) (map snd g).
Proof.
  unfold object_values. induction g as [|[k x] rest IH]; simpl.
  - reflexivity.
  - destruct (array_index k) as [i|].
    + rewrite (Permutation_map snd (insert_index_perm G (i, x) _)). simpl.
      now constructor.
    + rewrite <- Permutation_middle. now constructor.
Qed.

(** The values of the object built by a loop: the groups of the
    specification, up to the order in general, and in the order of the first
    occurrences when no key is an array index. *)
Lemma listing_of_groups (G : Type)
  (field : Normalizer.NormalizedRecord -> value) (init : value -> G)
  (add : Normalizer.NormalizedRecord -> G -> G) (h : string -> G)
  (data : list Normalizer.NormalizedRecord) :
  (forall k, In k (group_keys field data) ->
             folded field init add data k = Some (h k)) ->
  Permutation (object_values (group_by field init add data))
    (map h (group_keys field data))
  /\ (no_index_key field data ->
      object_values (group_by field init add data)
      = map h (group_keys field data)).
Proof.
  intros Hfold.
  destruct (group_by_spec G field init add data) as [Hkeys Hget].
  assert (Hvalues : map snd (group_by field init add data)
                    = map h (group_keys field data)).
  { rewrite <- Hkeys. apply values_by_key.
    - rewrite Hkeys. apply first_occurrences_NoDup.
    - intros k Hin. rewrite Hget. apply Hfold. now rewrite <- Hkeys. }
  split.
  - rewrite <- Hvalues. apply object_values_perm.
  - intros Hno. rewrite <- Hvalues. apply object_values_creation_order.
    intros k Hin. rewrite Hkeys in Hin. unfold group_keys in Hin.
    apply first_occurrences_In, filter_In in Hin. destruct Hin as [Hin _].
    apply in_map_iff in Hin. destruct Hin as (i & <- & Hi). now apply Hno.
Qed.

(** ** The sort *)

Lemma sort_insert_perm (A : Type) (compare : A -> A -> num) (x : A)
  (l : list A) :
  Permutation (sort_insert compare x l) (x :: l).
Proof.
  induction l as [|y rest IH]; simpl; [reflexivity|].
  destruct (goes_after compare x y); [|reflexivity].
  rewrite IH. apply perm_swap.
Qed.

Lemma sort_perm (A : Type) (compare : A -> A -> num) (l : list A) :
  Permutation (sort compare l) l.
Proof.
  induction l as [|x rest IH]; simpl; [reflexivity|].
  rewrite sort_insert_perm. now constructor.
Qed.

Lemma goes_after_spec (x y : Group) :
  goes_after by_vgvTotal_desc x y = true
  <-> exists p q, vgvTotal x = Num p /\ vgvTotal y = Num q /\ (p < q)%Q.
Proof.
  unfold goes_after, by_vgvTotal_desc, num_gt.
  rewrite JSFacts.num_lt_spec. split.
  - intros (a & b & Ha & Hb & Hlt).
    destruct (vgvTotal y) as [|q]; [discriminate|].
    destruct (vgvTotal x) as [|p]; [discriminate|].
    exists p, q. repeat split. simpl in Hb.
    injection Ha as <-. injection Hb as <-.
    rewrite Qred_correct in Hlt. unfold inject_Z in *. lra.
  - intros (p & q & -> & -> & Hlt).
    exists 0%Q, (Qred (q - p)). repeat split.
    rewrite Qred_correct. lra.
Qed.

Lemma at_least_trans (a b c : Group) :
  at_least a b -> at_least b c -> at_least a c.
Proof.
  intros (p & q & Hp & Hq & H1) (q' & r & Hq' & Hr & H2).
  rewrite Hq in Hq'. injection Hq' as <-.
  exists p, r. repeat split; try assumption. lra.
Qed.

Lemma not_goes_after (x y : Group) :
  numeric_total x -> numeric_total y ->
  goes_after by_vgvTotal_desc x y = false -> at_least x y.
Proof.
  intros Hx Hy H. apply JSFacts.is_nan_false in Hx, Hy.
  destruct Hx as [p Hp], Hy as [q Hq].
  exists p, q. repeat split; try assumption.
  apply Qnot_lt_le. intros Hlt.
  apply not_true_iff_false in H. apply H, goes_after_spec.
  now exists p, q.
Qed.

Lemma sort_insert_sorted (x : Group) (l : list Group) :
  numeric_total x -> Forall numeric_total l ->
  StronglySorted at_least l ->
  StronglySorted at_least (sort_insert by_vgvTotal_desc x l).
Proof.
  intros Hx Hl Hs. induction l as [|y rest IH]; simpl.
  - repeat constructor.
  - inversion Hl as [|? ? Hy Hrest]; subst.
    inversion Hs as [|? ? Hs' Hall]; subst.
    destruct (goes_after by_vgvTotal_desc x y) eqn:E.
    + constructor; [now apply IH|].
      apply (Permutation_Forall (Permutation_sym (sort_insert_perm Group _ x rest))).
      constructor; [|exact Hall].
      apply goes_after_spec in E. destruct E as (p & q & Hp & Hq & Hlt).
      exists q, p. repeat split; try assumption. lra.
    + pose proof (not_goes_after x y Hx Hy E) as Hxy.
      constructor; [exact Hs|]. constructor; [exact Hxy|].
      eapply Forall_impl; [|exact Hall].
      intros z Hz. exact (at_least_trans x y z Hxy Hz).
Qed.

Lemma sort_sorted (l : list Group) :
  Forall numeric_total l ->
  StronglySorted at_least (sort by_vgvTotal_desc l).
Proof.
  induction l as [|x rest IH]; intros Hl; simpl; [constructor|].
  inversion Hl as [|? ? Hx Hrest]; subst.
  apply sort_insert_sorted; [exact Hx | | now apply IH].
  now apply (Permutation_Forall (Permutation_sym (sort_perm Group _ rest))).
Qed.

(** The sort does not move a group past a group with the same total. *)
Lemma sort_insert_stable (q : Q) (x : Group) (l : list Group) :
  filter (has_total q) (sort_insert by_vgvTotal_desc x l)
  = filter (has_total q) (x :: l).
Proof.
  induction l as [|y rest IH]; [reflexivity|].
  simpl sort_insert.
  destruct (goes_after by_vgvTotal_desc x y) eqn:E; [|reflexivity].
  apply goes_after_spec in E. destruct E as (a & b & Ha & Hb & Hlt).
  simpl. rewrite IH. simpl.
  assert (Hx : has_total q x = Qeq_bool a q) by (unfold has_total; now rewrite Ha).
  assert (Hy : has_total q y = Qeq_bool b q) by (unfold has_total; now rewrite Hb).
  rewrite Hx, Hy.
  destruct (Qeq_bool a q) eqn:Ea; destruct (Qeq_bool b q) eqn:Eb;
    try reflexivity.
  apply Qeq_bool_eq in Ea, Eb. lra.
Qed.

Lemma sort_stable (q : Q) (l : list Group) :
  filter (has_total q) (sort by_vgvTotal_desc l) = filter (has_total q) l.
Proof.
  induction l as [|x rest IH]; [reflexivity|].
  simpl sort. rewrite sort_insert_stable. simpl. now rewrite IH.
Qed.

Lemma group_of_numeric (field : Normalizer.NormalizedRecord -> value)
  (data : list Normalizer.NormalizedRecord) (ks : list string) :
  Forall numeric_total (map (group_of field data) ks).
Proof. apply Forall_forall. intros x Hin. apply in_map_iff in Hin.
  destruct Hin as (k & <- & _). reflexivity.
Qed.

(** ** Sums that do not round *)

Lemma whole_amount_spec (x : num) :
  whole_amount x = true -> exists z, (amount x == inject_Z z)%Q.
Proof.
  destruct x as [|q]; cbn [whole_amount amount]; intros H.
  - exists 0. reflexivity.
  - apply Pos.eqb_eq in H. exists (Qnum (Qred q)).
    rewrite <- (Qred_correct q) at 1.
    destruct (Qred q) as [n d]. simpl in H. subst d. reflexivity.
Qed.

Lemma magnitude_nonneg (f : Normalizer.NormalizedRecord -> num)
  (l : list Normalizer.NormalizedRecord) : (0 <= magnitude f l)%Q.
Proof.
  induction l as [|i rest IH]; simpl; [lra|].
  pose proof (Qabs_nonneg (amount (f i))). lra.
Qed.

Lemma magnitude_app (f : Normalizer.NormalizedRecord -> num)
  (a b : list Normalizer.NormalizedRecord) :
  (magnitude f (a ++ b) == magnitude f a + magnitude f b)%Q.
Proof.
  induction a as [|i rest IH]; simpl; [lra|]. rewrite IH. lra.
Qed.

Lemma magnitude_filter (f : Normalizer.NormalizedRecord -> num)
  (p : Normalizer.NormalizedRecord -> bool)
  (l : list Normalizer.NormalizedRecord) :
  (magnitude f (filter p l) <= magnitude f l)%Q.
Proof.
  induction l as [|i rest IH]; simpl; [lra|].
  pose proof (Qabs_nonneg (amount (f i))).
  destruct (p i); simpl; lra.
Qed.

Lemma sum_within_magnitude (f : Normalizer.NormalizedRecord -> num)
  (l : list Normalizer.NormalizedRecord) :
  (Qabs (sum_of f l) <= magnitude f l)%Q.
Proof.
  unfold sum_of, magnitude.
  induction l as [|i rest IH]; cbn [fold_right].
  - apply Qabs_case; lra.
  - eapply Qle_trans; [apply Qabs_triangle|]. lra.
Qed.

(** The records the loop has gone through add exactly when all of them
    do. *)
Lemma adds_exactly_prefix (f : Normalizer.NormalizedRecord -> num)
  (a b : list Normalizer.NormalizedRecord) :
  adds_exactly f (a ++ b) -> adds_exactly f a.
Proof.
  intros [Hall Hsum]. split.
  - apply Forall_app in Hall. tauto.
  - rewrite magnitude_app in Hsum.
    pose proof (magnitude_nonneg f b). lra.
Qed.

(** So do the records of one group. *)
Lemma adds_exactly_filter (f : Normalizer.NormalizedRecord -> num)
  (p : Normalizer.NormalizedRecord -> bool)
  (l : list Normalizer.NormalizedRecord) :
  adds_exactly f l -> adds_exactly f (filter p l).
Proof.
  intros [Hall Hsum]. split.
  - rewrite Forall_forall in *. intros i Hi. apply filter_In in Hi.
    apply Hall. tauto.
  - pose proof (magnitude_filter f p l). lra.
Qed.

(** The sum of amounts that add exactly is a whole number of magnitude at
    most [2 ^ 53], which is a double: the addition that gave it did not
    round. *)
Lemma adds_exactly_sum (f : Normalizer.NormalizedRecord -> num)
  (l : list Normalizer.NormalizedRecord) :
  adds_exactly f l ->
  exists z, Num (Qred (sum_of f l)) = int z /\ Z.abs z <= 2 ^ 53.
Proof.
  intros [Hall Hsum].
  assert (Hz : exists z, (sum_of f l == inject_Z z)%Q).
  { clear Hsum. induction Hall as [|i rest Hi _ IH]; simpl.
    - exists 0. reflexivity.
    - destruct IH as [z Hz]. destruct (whole_amount_spec _ Hi) as [y Hy].
      exists (y + z). rewrite Hy, Hz, inject_Z_plus. reflexivity. }
  destruct Hz as [z Hz]. exists z. split.
  - unfold int. f_equal. rewrite (Qred_complete _ _ Hz).
    apply NormalizerFacts.Qred_int.
  - pose proof (sum_within_magnitude f l) as Hb.
    rewrite Hz in Hb.
    assert (Hle : (Qabs (inject_Z z) <= inject_Z (2 ^ 53))%Q) by lra.
    unfold inject_Z in Hle at 1. rewrite <- Zabs_Qabs in Hle.
    rewrite Zle_Qle. exact Hle.
Qed.

End AggregationFacts.


(** Discharges [Aggregation.adds_exactly] and the like on given records. *)
Ltac by_evaluation :=
  repeat match goal with
         | |- Aggregation.adds_exactly _ _ => split
         | |- Normalizer.printable _ _ => unfold Normalizer.printable
         | |- Normalizer.readable_record _ =>
             unfold Normalizer.readable_record, Normalizer.numeric_aliases
         | |- _ /\ _ => split
         | |- Forall _ _ => constructor
         | |- _ = true => vm_compute; reflexivity
         | |- (_ <= _)%Q => vm_compute; discriminate
         end.



(* ====================================================================== *)
(** * The session manager: one login in flight                             *)
(* ====================================================================== *)

Module SessionFacts.
Import Session.

Section LoginFacts.

Variable jwt_payload : value -> option value.

Lemma consistent_start : consistent start.
Proof. repeat split. intros p H. now contradiction H. Qed.

Lemma finish_consistent (rt : Runtime) (p : nat) (ph : phase) (s : Service)
  (r : result value) :
  consistent rt ->
  attempt rt = Some (p, ph) ->
  consistent (finish rt p s r).
Proof.
  intros (Hm & Hs & Hc) Ha. unfold consistent, in_flight in *.
  rewrite Ha in Hm.
  destruct (refreshPromise (service rt)) as [p0|] eqn:Hp; [|contradiction].
  destruct Hm as (-> & Hlast & Hnot).
  cbn [finish service attempt settled loginCalls cleared set_refreshPromise
       refreshPromise].
  repeat split.
  - intros q Hq. simpl in Hq. destruct (Nat.eqb p q) eqn:E.
    + apply Nat.eqb_eq in E. lia.
    + now apply Hs.
  - lia.
Qed.

Lemma step_consistent (rt : Runtime) (ev : event) :
  consistent rt -> consistent (step jwt_payload rt ev).
Proof.
  intros Hrt. destruct ev as [|r|now|]; simpl.
  - destruct (refreshPromise (service rt)) as [p|] eqn:Hp; [exact Hrt|].
    destruct Hrt as (Hm & Hs & Hc). unfold consistent, in_flight in *.
    rewrite Hp in *. destruct (attempt rt) as [[p' ph]|]; [contradiction|].
    cbn [service attempt settled loginCalls cleared set_refreshPromise
         refreshPromise].
    repeat split.
    + destruct (settlement (settled rt) (loginCalls rt)) eqn:E;
        [|reflexivity].
      assert (loginCalls rt < loginCalls rt)%nat by (apply Hs; congruence).
      lia.
    + intros q Hq. specialize (Hs q Hq). lia.
    + lia.
  - destruct (attempt rt) as [[p [|body]]|] eqn:Ha; try exact Hrt.
    destruct (after_fetch r) as [body|e].
    + destruct Hrt as (Hm & Hs & Hc). unfold consistent, in_flight in *.
      cbn [service attempt settled loginCalls cleared]. rewrite Ha in Hm.
      destruct (refreshPromise (service rt)); [|contradiction].
      repeat split; tauto.
    + exact (finish_consistent rt p AwaitingFetch _ _ Hrt Ha).
  - destruct (attempt rt) as [[p [|body]]|] eqn:Ha; try exact Hrt.
    destruct (after_json jwt_payload (service rt) body now) as [s r].
    exact (finish_consistent rt p (AwaitingJson body) _ _ Hrt Ha).
  - destruct Hrt as (Hm & Hs & Hc). unfold consistent, in_flight in *.
    cbn [service attempt settled loginCalls cleared set_token refreshPromise].
    repeat split; assumption.
Qed.

Lemma run_consistent (evs : list event) :
  forall rt, consistent rt -> consistent (run jwt_payload rt evs).
Proof.
  unfold run. induction evs as [|ev rest IH]; intros rt Hrt; [exact Hrt|].
  simpl. apply IH. now apply step_consistent.
Qed.

(** A call made while a refresh is in flight returns the promise in
    flight and changes nothing: no request is sent. *)
Lemma call_joins (rt : Runtime) (p : nat) :
  refreshPromise (service rt) = Some p ->
  login_promise rt = p /\ step jwt_payload rt CallLogin = rt.
Proof.
  intros Hp. unfold login_promise. simpl. now rewrite Hp.
Qed.

(** A call made while no refresh is in flight sends one request and
    creates a new promise. *)
Lemma call_starts (rt : Runtime) :
  consistent rt ->
  refreshPromise (service rt) = None ->
  loginCalls (step jwt_payload rt CallLogin) = S (loginCalls rt)
  /\ refreshPromise (service (step jwt_payload rt CallLogin))
     = Some (login_promise rt)
  /\ settlement (settled (step jwt_payload rt CallLogin)) (login_promise rt)
     = None.
Proof.
  intros Hrt Hp.
  pose proof (step_consistent rt CallLogin Hrt) as (Hm & _ & _).
  unfold login_promise. simpl in *. rewrite Hp in *.
  cbn [service attempt settled loginCalls cleared set_refreshPromise
       refreshPromise] in *.
  repeat split. tauto.
Qed.

(** A promise stays settled as it is. *)
Lemma settlement_persists (rt : Runtime) (ev : event) (p : nat)
  (r : result value) :
  consistent rt ->
  settlement (settled rt) p = Some r ->
  settlement (settled (step jwt_payload rt ev)) p = Some r.
Proof.
  intros (Hm & Hs & Hc) Hr.
  assert (Hfinish : forall p' ph s r',
             attempt rt = Some (p', ph) ->
             settlement (settled (finish rt p' s r')) p = Some r).
  { intros p' ph s r' Ha. simpl. rewrite Ha in Hm.
    destruct (refreshPromise (service rt)); [|contradiction].
    destruct Hm as (-> & _ & Hnone).
    destruct (Nat.eqb p' p) eqn:E; [|exact Hr].
    apply Nat.eqb_eq in E. subst. congruence. }
  destruct ev as [|f|now|]; simpl.
  - now destruct (refreshPromise (service rt)).
  - destruct (attempt rt) as [[p' [|body]]|] eqn:Ha; try exact Hr.
    destruct (after_fetch f); [exact Hr | now apply (Hfinish p' AwaitingFetch)].
  - destruct (attempt rt) as [[p' [|body]]|] eqn:Ha; try exact Hr.
    destruct (after_json jwt_payload (service rt) body now) as [s r'].
    now apply (Hfinish p' (AwaitingJson body)).
  - exact Hr.
Qed.

(** What an event does to a refresh in flight: it ends it, with one
    execution of the [finally] block and one settlement of its promise, or
    it leaves the marker and the counters as they are. *)
Lemma event_in_flight (rt : Runtime) (p : nat) (ev : event) :
  consistent rt ->
  refreshPromise (service rt) = Some p ->
  let rt' := step jwt_payload rt ev in
  if settles rt ev
  then refreshPromise (service rt') = None
       /\ cleared rt' = S (cleared rt)
       /\ loginCalls rt' = loginCalls rt
       /\ exists r,
            settlement (settled rt') p = Some r
            /\ match r with
               | Ok t => token (service rt') = t
               | Throw _ =>
                   token (service rt') = token (service rt)
                   /\ tokenExpiresAt (service rt')
                      = tokenExpiresAt (service rt)
               end
  else refreshPromise (service rt') = Some p
       /\ cleared rt' = cleared rt
       /\ loginCalls rt' = loginCalls rt.
Proof.
  intros (Hm & Hs & Hc) Hp rt'. subst rt'. rewrite Hp in Hm.
  destruct (attempt rt) as [[p' ph]|] eqn:Ha; [|contradiction].
  destruct Hm as (<- & Hlast & Hnone).
  unfold settles. rewrite Ha.
  destruct ev as [|f|now|]; destruct ph as [|body]; simpl; rewrite ?Hp, ?Ha;
    try (repeat split; (assumption || reflexivity)).
  - destruct (after_fetch f) as [body|e]; simpl.
    + repeat split; assumption.
    + repeat split. exists (Throw e). rewrite Nat.eqb_refl.
      repeat split.
  - destruct (after_json jwt_payload (service rt) body now) as [s r] eqn:E.
    simpl. repeat split. exists r. rewrite Nat.eqb_refl.
    split; [reflexivity|].
    unfold after_json in E. destruct body as [data|].
    + destruct (nullish data).
      * injection E as <- <-. split; reflexivity.
      * injection E as <- <-. reflexivity.
    + injection E as <- <-. split; reflexivity.
Qed.

(** Along a run that does not end the attempt in flight, every caller of
    [login] is handed the promise in flight and no login request is sent. *)
Lemma callers_share_promise (evs : list event) :
  forall rt p,
    consistent rt ->
    refreshPromise (service rt) = Some p ->
    quiet jwt_payload rt evs ->
    Forall (fun q => q = p) (returned jwt_payload rt evs)
    /\ loginCalls (run jwt_payload rt evs) = loginCalls rt
    /\ refreshPromise (service (run jwt_payload rt evs)) = Some p.
Proof.
  induction evs as [|ev rest IH]; intros rt p Hrt Hp Hq.
  - repeat split; [constructor | exact Hp].
  - destruct Hq as [Hev Hrest].
    pose proof (event_in_flight rt p ev Hrt Hp) as Hstep.
    cbv zeta in Hstep. rewrite Hev in Hstep.
    destruct Hstep as (Hp' & _ & Hcalls).
    destruct (IH (step jwt_payload rt ev) p (step_consistent rt ev Hrt)
                Hp' Hrest) as (Hall & Hcalls' & Hmarker).
    unfold run in *. cbn [fold_left].
    repeat split.
    + destruct ev; cbn [returned]; try exact Hall.
      constructor; [|exact Hall]. unfold login_promise. now rewrite Hp.
    + now rewrite Hcalls'.
    + exact Hmarker.
Qed.

End LoginFacts.

End SessionFacts.

(** C3. At every point of every interleaving, each login request sent has
    run its [finally] block exactly once or is the one in flight. While a
    refresh is in flight, a call to [login] returns the promise in flight
    and sends no request, so all the callers of a run that does not end the
    attempt are handed one promise and one login request serves them all;
    when the attempt ends, by success or by failure, that promise
    settles once and for all (with the token that has just been stored, on
    success), the marker is cleared by the one execution of the [finally]
    block, and the next call to [login] sends a new request. *)
Theorem login_is_deduplicated (jwt_payload : value -> option value) :
  (forall evs,
      let rt := Session.run jwt_payload Session.start evs in
      Session.consistent rt
      /\ Session.loginCalls rt
         = (Session.cleared rt + Session.in_flight rt)%nat)
  /\ (forall rt p,
        Session.refreshPromise (Session.service rt) = Some p ->
        Session.login_promise rt = p
        /\ Session.step jwt_payload rt Session.CallLogin = rt)
  /\ (forall rt p ev,
        Session.consistent rt ->
        Session.refreshPromise (Session.service rt) = Some p ->
        let rt' := Session.step jwt_payload rt ev in
        if Session.settles rt ev
        then Session.refreshPromise (Session.service rt') = None
             /\ Session.cleared rt' = S (Session.cleared rt)
             /\ Session.loginCalls rt' = Session.loginCalls rt
             /\ exists r,
                  Session.settlement (Session.settled rt') p = Some r
                  /\ match r with
                     | Ok t => Session.token (Session.service rt') = t
                     | Throw _ =>
                         Session.token (Session.service rt')
                         = Session.token (Session.service rt)
                         /\ Session.tokenExpiresAt (Session.service rt')
                            = Session.tokenExpiresAt (Session.service rt)
                     end
        else Session.refreshPromise (Session.service rt') = Some p
             /\ Session.cleared rt' = Session.cleared rt
             /\ Session.loginCalls rt' = Session.loginCalls rt)
  /\ (forall rt p evs,
        Session.consistent rt ->
        Session.refreshPromise (Session.service rt) = Some p ->
        Session.quiet jwt_payload rt evs ->
        Forall (fun q => q = p) (Session.returned jwt_payload rt evs)
        /\ Session.loginCalls (Session.run jwt_payload rt evs)
           = Session.loginCalls rt
        /\ Session.refreshPromise
             (Session.service (Session.run jwt_payload rt evs)) = Some p)
  /\ (forall rt ev p r,
        Session.consistent rt ->
        Session.settlement (Session.settled rt) p = Some r ->
        Session.settlement
          (Session.settled (Session.step jwt_payload rt ev)) p = Some r)
  /\ (forall rt,
        Session.consistent rt ->
        Session.refreshPromise (Session.service rt) = None ->
        let rt' := Session.step jwt_payload rt Session.CallLogin in
        Session.loginCalls rt' = S (Session.loginCalls rt)
        /\ Session.refreshPromise (Session.service rt')
           = Some (Session.login_promise rt)
        /\ Session.settlement (Session.settled rt') (Session.login_promise rt)
           = None).
Proof.
  repeat apply conj.
  - intros evs rt.
    assert (H : Session.consistent rt).
    { apply SessionFacts.run_consistent, SessionFacts.consistent_start. }
    split; [exact H | exact (proj2 (proj2 H))].
  - intros rt p. apply SessionFacts.call_joins.
  - intros rt p ev. apply SessionFacts.event_in_flight.
  - intros rt p evs. apply SessionFacts.callers_share_promise.
  - intros rt ev p r. apply SessionFacts.settlement_persists.
  - intros rt. apply SessionFacts.call_starts.
Qed.

(** Three callers and one refresh: the first call sends the request, the
    two others join it, and once the answer has been read the marker is
    clear and the promise holds the token. *)
Lemma login_is_deduplicated_witness :
  let jwt := fun _ : value => None in
  let answer := Session.Response 200 (Some (VObj [("token", VStr "t1")])) in
  let rt1 := Session.run jwt Session.start [Session.CallLogin] in
  let rt2 :=
    Session.run jwt Session.start
      [Session.CallLogin; Session.CallLogin; Session.FetchSettles answer;
       Session.CallLogin] in
  (Session.login_promise rt1 = 0%nat
   /\ Session.step jwt rt1 Session.CallLogin = rt1)
  /\ Session.loginCalls rt2 = 1%nat
  /\ Session.refreshPromise
       (Session.service (Session.step jwt rt2 (Session.JsonSettles 0)))
     = None.
Proof.
  intros jwt answer rt1 rt2.
  destruct (login_is_deduplicated jwt) as (Hinv & Hjoin & Hevent & _).
  split; [|split].
  - apply (Hjoin rt1 0%nat). reflexivity.
  - reflexivity.
  - pose proof (Hevent rt2 0%nat (Session.JsonSettles 0)
                  (proj1 (Hinv [Session.CallLogin; Session.CallLogin;
                                Session.FetchSettles answer;
                                Session.CallLogin]))
                  eq_refl) as H.
    exact (proj1 H).
Defined.

(* ====================================================================== *)
(** * The client: retries and pagination                                   *)
(* ====================================================================== *)

Module ClientFacts.
Import Session Client Sync.

Lemma gets_snoc (e : string) (l : list action) (a : action) :
  gets e (l ++ [a])
  = (gets e l
     + match a with
       | GetPage e' _ => if String.eqb e' e then 1 else 0
       | _ => 0
       end)%nat.
Proof.
  induction l as [|b rest IH]; simpl.
  - reflexivity.
  - destruct b as [|e0 auth0|]; rewrite IH; try reflexivity.
    now destruct (String.eqb e0 e).
Qed.

Lemma invalidations_snoc (l : list action) (a : action) :
  invalidations (l ++ [a])
  = (invalidations l
     + match a with TokenInvalidated => 1 | _ => 0 end)%nat.
Proof.
  induction l as [|b rest IH]; simpl.
  - now destruct a.
  - destruct b; rewrite IH; reflexivity.
Qed.

Lemma effect_refl (e : string) (w : World) : idle w -> effect e w w 0 0.
Proof. intros H. repeat split; try apply H; lia. Qed.

Lemma effect_trans (e : string) (w w1 w2 : World) (g1 g2 i1 i2 : nat) :
  effect e w w1 g1 i1 -> effect e w1 w2 g2 i2 ->
  effect e w w2 (g1 + g2) (i1 + i2).
Proof.
  intros (_ & F1 & G1 & I1) (H2 & F2 & G2 & I2).
  repeat split; try apply H2; lia.
Qed.

(** ** The walk over the pages *)

Lemma strict_eq_vint (a b : Z) : strict_eq (vint a) (vint b) = (a =? b).
Proof.
  unfold strict_eq, vint, int, num_strict_eq.
  destruct (a =? b) eqn:E.
  - apply Z.eqb_eq in E. subst. apply Qeq_bool_iff. reflexivity.
  - apply Z.eqb_neq in E. apply not_true_iff_false. intros H.
    apply Qeq_bool_eq in H. unfold Qeq in H. simpl in H. lia.
Qed.

(** On a page that carries a list of records the loop leaves exactly when
    one of the stop conditions holds. *)
Lemma stops_at_decision (page : nat) (response : value)
  (items : list value) :
  get response "data" = VArr items ->
  (stops_at page response
   <-> no_data response || negb (hasMore page response) = true).
Proof.
  intros Hdata. unfold stops_at, no_data, hasMore. rewrite Hdata.
  cbn [truthy negb orb length_of]. rewrite !strict_eq_vint.
  assert (Hlen0 : (Z.of_nat (List.length items) =? 0) = true <-> items = []).
  { rewrite Z.eqb_eq. destruct items; simpl; split; intros H;
      try reflexivity; try discriminate; lia. }
  assert (Hlen : (Z.of_nat (List.length items) =? Z.of_nat perPage) = false
                 <-> List.length items <> perPage).
  { rewrite Z.eqb_neq. lia. }
  split.
  - intros (items' & E & H). injection E as <-.
    apply orb_true_iff.
    destruct H as [H | [(Hne & Hmeta & Hlast) | (Hne & Hmeta & Hsize)]].
    + left. now apply Hlen0.
    + right. rewrite Hmeta, Hlast. reflexivity.
    + right. rewrite Hmeta. apply negb_true_iff. now apply Hlen.
  - intros H. exists items. split; [reflexivity|].
    apply orb_true_iff in H. destruct H as [H | H].
    + left. now apply Hlen0.
    + destruct items as [|x rest]; [now left | right].
      destruct (truthy (get response "meta")) eqn:Hmeta.
      * left. repeat split; try discriminate. now apply negb_true_iff.
      * right. repeat split; try discriminate.
        apply Hlen. now apply negb_true_iff.
Qed.

Section Walk.

Variable request : string -> M value.
Variable onProgress : option (Progress -> World -> World).

(** What the page requests keep true of the world, and the page each of
    them is answered with. *)
Variable Inv : World -> Prop.
Variable resp : nat -> value.

Hypothesis request_answers :
  forall p w, Inv w ->
    exists w', request (endpoint_of p) w = Some (Ok (resp p), w') /\ Inv w'.

Hypothesis progress_keeps :
  forall callback pr w,
    onProgress = Some callback -> Inv w -> Inv (callback pr w).

Hypothesis pages_carry_lists :
  forall p, exists items, get (resp p) "data" = VArr items.

Lemma report_keeps (pr : Progress) (w : World) :
  Inv w ->
  exists w', report onProgress pr w = Some (Ok tt, w') /\ Inv w'.
Proof.
  intros Hw. unfold report. destruct onProgress as [callback|] eqn:E.
  - eexists. split; [reflexivity|]. now apply (progress_keeps callback).
  - now exists w.
Qed.

(** One turn of the loop on a page that meets no stop condition: the
    records are appended and the next page is asked for. *)
Lemma fetch_pages_continue (page : nat) (allData : list value) (w : World) :
  Inv w ->
  ~ stops_at page (resp page) ->
  exists w',
    Inv w'
    /\ forall fuel,
         fetch_pages request onProgress (S fuel) allData page w
         = fetch_pages request onProgress fuel
             (allData ++ records_of resp page 1)%list (S page) w'.
Proof.
  intros Hw Hgo.
  destruct (request_answers page w Hw) as (w1 & Hreq & Hw1).
  destruct (pages_carry_lists page) as [items Hitems].
  assert (Hdec : no_data (resp page) || negb (hasMore page (resp page))
                 = false).
  { apply not_true_iff_false. intros H.
    apply Hgo. now apply (stops_at_decision page (resp page) items). }
  apply orb_false_iff in Hdec. destruct Hdec as [Hdata Hmore].
  assert (Hnull : nullish (resp page) = false).
  { destruct (resp page); try discriminate Hitems; reflexivity. }
  destruct (report_keeps
              {| loaded := List.length (allData ++ items)%list;
                 total := get (get (resp page) "meta") "total"
                          ||| vint (Z.of_nat (List.length (allData ++ items)%list));
                 Client.page := page |} w1 Hw1) as (w2 & Hrep & Hw2).
  exists w2. split; [exact Hw2|]. intros fuel.
  cbn [fetch_pages records_of]. unfold bind at 1.
  rewrite Hreq, Hnull, Hdata, Hitems. cbn [spread].
  unfold bind at 1. rewrite Hrep, Hmore. now rewrite app_nil_r.
Qed.

(** One turn of the loop on a page that meets a stop condition: the walk
    returns, with the records of the page when it has some. *)
Lemma fetch_pages_stop (page : nat) (allData : list value) (w : World) :
  Inv w ->
  stops_at page (resp page) ->
  exists w',
    Inv w'
    /\ forall fuel,
         fetch_pages request onProgress (S fuel) allData page w
         = Some (Ok (allData ++ records_of resp page 1)%list, w').
Proof.
  intros Hw Hstop.
  destruct (request_answers page w Hw) as (w1 & Hreq & Hw1).
  destruct (pages_carry_lists page) as [items Hitems].
  assert (Hnull : nullish (resp page) = false).
  { destruct (resp page); try discriminate Hitems; reflexivity. }
  pose proof (proj1 (stops_at_decision page (resp page) items Hitems) Hstop)
    as Hdec.
  destruct (no_data (resp page)) eqn:Hdata.
  - exists w1. split; [exact Hw1|]. intros fuel.
    cbn [fetch_pages records_of]. unfold bind at 1.
    rewrite Hreq, Hnull, Hdata, Hitems.
    assert (items = []) as ->.
    { unfold no_data in Hdata. rewrite Hitems in Hdata.
      cbn [truthy negb orb length_of] in Hdata.
      rewrite strict_eq_vint in Hdata. apply Z.eqb_eq in Hdata.
      destruct items; [reflexivity | simpl in Hdata; lia]. }
    now rewrite !app_nil_r.
  - cbn [orb] in Hdec.
    destruct (report_keeps
                {| loaded := List.length (allData ++ items)%list;
                   total := get (get (resp page) "meta") "total"
                            ||| vint (Z.of_nat (List.length (allData ++ items)%list));
                   Client.page := page |} w1 Hw1) as (w2 & Hrep & Hw2).
    exists w2. split; [exact Hw2|]. intros fuel.
    cbn [fetch_pages records_of]. unfold bind at 1.
    rewrite Hreq, Hnull, Hdata, Hitems. cbn [spread].
    unfold bind at 1. rewrite Hrep, Hdec. now rewrite app_nil_r.
Qed.

Lemma stops_at_dec (page : nat) :
  stops_at page (resp page) \/ ~ stops_at page (resp page).
Proof.
  destruct (pages_carry_lists page) as [items Hitems].
  rewrite (stops_at_decision page (resp page) items Hitems).
  destruct (no_data (resp page) || negb (hasMore page (resp page)));
    [now left | right; discriminate].
Qed.

(** The walk returns at the first page that meets a stop condition, with
    the records of the pages up to it, and not before. *)
Lemma fetch_pages_until (count : nat) :
  forall page allData w,
    Inv w ->
    (forall p, (page <= p < page + count)%nat -> ~ stops_at p (resp p)) ->
    stops_at (page + count) (resp (page + count)) ->
    exists w',
      (forall fuel, (S count <= fuel)%nat ->
          fetch_pages request onProgress fuel allData page w
          = Some (Ok (allData ++ records_of resp page (S count))%list, w'))
      /\ (forall fuel, (fuel <= count)%nat ->
             fetch_pages request onProgress fuel allData page w = None).
Proof.
  induction count as [|count IH]; intros page allData w Hw Hgo Hstop.
  - rewrite Nat.add_0_r in Hstop.
    destruct (fetch_pages_stop page allData w Hw Hstop) as (w' & _ & Hrun).
    exists w'. split.
    + intros [|fuel] Hfuel; [lia | apply Hrun].
    + intros fuel Hfuel. assert (fuel = 0%nat) by lia. now subst.
  - destruct (fetch_pages_continue page allData w Hw (Hgo page ltac:(lia)))
      as (w1 & Hw1 & Hrun).
    destruct (IH (S page) (allData ++ records_of resp page 1)%list w1 Hw1)
      as (w' & Hsome & Hnone).
    + intros p Hp. apply Hgo. lia.
    + now replace (S page + count)%nat with (page + S count)%nat by lia.
    + exists w'. split.
      * intros [|fuel] Hfuel; [lia|]. rewrite Hrun, Hsome by lia.
        do 2 f_equal. f_equal. simpl. now rewrite <- !app_assoc.
      * intros [|fuel] Hfuel; [reflexivity|]. rewrite Hrun. apply Hnone. lia.
Qed.

(** Without a page that meets a stop condition the walk goes on. *)
Lemma fetch_pages_endless (fuel : nat) :
  forall page allData w,
    Inv w ->
    (forall p, (page <= p)%nat -> ~ stops_at p (resp p)) ->
    fetch_pages request onProgress fuel allData page w = None.
Proof.
  induction fuel as [|fuel IH]; intros page allData w Hw Hgo; [reflexivity|].
  destruct (fetch_pages_continue page allData w Hw (Hgo page (le_n _)))
    as (w1 & Hw1 & ->).
  apply IH; [exact Hw1|]. intros p Hp. apply Hgo. lia.
Qed.

(** A walk that returns has met a stop condition. *)
Lemma fetch_pages_returns (fuel : nat) :
  forall page allData w out w',
    Inv w ->
    fetch_pages request onProgress fuel allData page w = Some (out, w') ->
    exists p, (page <= p)%nat /\ stops_at p (resp p).
Proof.
  induction fuel as [|fuel IH]; intros page allData w out w' Hw Hrun;
    [discriminate|].
  destruct (stops_at_dec page) as [Hstop | Hgo].
  - exists page. split; [lia | exact Hstop].
  - destruct (fetch_pages_continue page allData w Hw Hgo)
      as (w1 & Hw1 & Hstep).
    rewrite Hstep in Hrun.
    destruct (IH _ _ _ _ _ Hw1 Hrun) as (p & Hp & Hstop).
    exists p. split; [lia | exact Hstop].
Qed.

(** A page that meets a stop condition makes the walk return. *)
Lemma fetch_pages_reaches (count : nat) :
  forall page allData w,
    Inv w ->
    stops_at (page + count) (resp (page + count)) ->
    exists fuel out w',
      fetch_pages request onProgress fuel allData page w = Some (out, w').
Proof.
  induction count as [|count IH]; intros page allData w Hw Hstop.
  - rewrite Nat.add_0_r in Hstop.
    destruct (fetch_pages_stop page allData w Hw Hstop) as (w' & _ & Hrun).
    exists 1%nat. eexists. exists w'. apply Hrun.
  - destruct (stops_at_dec page) as [Hhere | Hgo].
    + destruct (fetch_pages_stop page allData w Hw Hhere) as (w' & _ & Hrun).
      exists 1%nat. eexists. exists w'. apply Hrun.
    + destruct (fetch_pages_continue page allData w Hw Hgo)
        as (w1 & Hw1 & Hstep).
      destruct (IH (S page) (allData ++ records_of resp page 1)%list w1 Hw1)
        as (fuel & out & w' & Hrun).
      * now replace (S page + count)%nat with (page + S count)%nat by lia.
      * exists (S fuel), out, w'. now rewrite Hstep.
Qed.

End Walk.

Section ServiceFacts.

Variable jwt_payload : value -> option value.
Variable net : Network.

(** [login()] comes back, having sent one login request and nothing else;
    it returns the token when the request is answered with a success status
    and a body. *)
Lemma login_effect (e : string) (w : World) :
  idle w ->
  exists r w',
    login jwt_payload net w = Some (r, w')
    /\ effect e w w' 0 0
    /\ (forall status data,
           login_response net (loginCalls (runtime w))
           = Response status (Some data) ->
           ok status = true -> nullish data = false ->
           r = Ok (get data "token" ||| get data "access_token")).
Proof.
  intros [Hc Hp].
  pose proof (SessionFacts.step_consistent jwt_payload _ CallLogin Hc) as Hc1.
  unfold login, login_promise. rewrite Hp.
  set (rt1 := step jwt_payload (runtime w) CallLogin) in *.
  set (resp := login_response net (loginCalls (runtime w))).
  pose proof (SessionFacts.step_consistent jwt_payload _ (FetchSettles resp) Hc1)
    as Hc2.
  set (rt2 := step jwt_payload rt1 (FetchSettles resp)) in *.
  set (t := now net (set_runtime (add_log w PostLogin) rt2)).
  pose proof (SessionFacts.step_consistent jwt_payload _ (JsonSettles t) Hc2)
    as Hc3.
  set (rt3 := step jwt_payload rt2 (JsonSettles t)) in *.
  assert (H1 : attempt rt1 = Some (loginCalls (runtime w), AwaitingFetch)).
  { subst rt1. simpl. now rewrite Hp. }
  assert (Hs1 : settled rt1 = settled (runtime w)).
  { subst rt1. simpl. now rewrite Hp. }
  assert (Hfinal :
            exists r,
              settlement (settled rt3) (loginCalls (runtime w)) = Some r
              /\ refreshPromise (service rt3) = None
              /\ (forall status data,
                     resp = Response status (Some data) ->
                     ok status = true -> nullish data = false ->
                     r = Ok (get data "token" ||| get data "access_token"))).
  { subst rt3 rt2. simpl. rewrite H1.
    destruct resp as [|status body] eqn:Eresp; simpl.
    - rewrite Nat.eqb_refl. eexists. repeat split. intros; discriminate.
    - destruct (ok status) eqn:Eok; simpl.
      + destruct body as [data|]; simpl.
        * destruct (nullish data) eqn:En; simpl; rewrite Nat.eqb_refl;
            eexists; repeat split.
          -- intros s d E _ Hn. injection E as -> ->. congruence.
          -- intros s d E _ _. injection E as -> ->. reflexivity.
        * rewrite Nat.eqb_refl. eexists. repeat split. intros; discriminate.
      + rewrite Nat.eqb_refl. eexists. repeat split.
        intros s d E Hok _. injection E as -> ->. congruence. }
  destruct Hfinal as (r & Hr & Hnone & Hok).
  rewrite Hr. exists r. eexists. split; [reflexivity|].
  split; [|exact Hok].
  unfold effect, idle.
  cbn [set_runtime add_log runtime fetches log].
  rewrite gets_snoc, invalidations_snoc.
  split; [split; assumption|]. repeat split; lia.
Qed.

Lemma ensureValidToken_effect (e : string) (w : World) :
  idle w ->
  exists r w',
    ensureValidToken jwt_payload net w = Some (r, w')
    /\ effect e w w' 0 0
    /\ (logins_succeed net -> exists t, r = Ok t).
Proof.
  intros Hw. unfold ensureValidToken.
  destruct (isTokenExpired (service (runtime w)) (now net w)).
  - destruct (login_effect e w Hw) as (r & w' & Hlogin & Heff & Hok).
    unfold bind. rewrite Hlogin. destruct r as [t|err].
    + eexists. eexists. split; [reflexivity|]. split; [exact Heff|].
      intros _. eexists. reflexivity.
    + eexists. eexists. split; [reflexivity|]. split; [exact Heff|].
      intros Hnet.
      destruct (Hnet (loginCalls (runtime w))) as (st & data & E & Hst & Hd).
      specialize (Hok st data E Hst Hd). discriminate Hok.
  - eexists. eexists. split; [reflexivity|].
    split; [now apply effect_refl|]. intros _. eexists. reflexivity.
Qed.

Lemma invalidate_effect (e : string) (w : World) :
  idle w ->
  exists w',
    invalidate jwt_payload w = Some (Ok tt, w') /\ effect e w w' 0 1.
Proof.
  intros [Hc Hp]. eexists. split; [reflexivity|].
  unfold effect, idle.
  cbn [set_runtime add_log runtime fetches log].
  rewrite gets_snoc, invalidations_snoc.
  split; [split|].
  - now apply SessionFacts.step_consistent.
  - simpl. exact Hp.
  - repeat split; lia.
Qed.

Lemma fetch_page_effect (e : string) (w : World) :
  idle w ->
  exists r w',
    fetch_page net e w = Some (r, w')
    /\ effect e w w' 1 0
    /\ exists a,
         match page_response net (fetches w) e a with
         | Rejected => r = Throw NetworkError
         | Response status body => r = Ok (status, body)
         end.
Proof.
  intros [Hc Hp]. unfold fetch_page.
  set (a := "Bearer " ++ to_string (token (service (runtime w)))).
  assert (Heff : effect e w
            {| runtime := runtime w; fetches := S (fetches w);
               log := (log w ++ [GetPage e a])%list;
               observed := observed w |} 1 0).
  { unfold effect, idle. cbn [runtime fetches log].
    rewrite gets_snoc, invalidations_snoc, String.eqb_refl.
    split; [split; assumption|]. repeat split; lia. }
  destruct (page_response net (fetches w) e a) as [|status body] eqn:E;
    eexists; eexists; (split; [reflexivity|]); (split; [exact Heff|]);
    exists a; now rewrite E.
Qed.

(** A request comes back after at most three page requests, all to its
    endpoint, and at most two invalidations of the token. *)
Lemma request_from_effect (e : string) :
  forall fuel retryCount w,
    (S (2 - retryCount) <= fuel)%nat ->
    idle w ->
    exists out w' g i,
      request_from jwt_payload net fuel e retryCount w = Some (out, w')
      /\ effect e w w' g i
      /\ (g <= S (2 - retryCount))%nat /\ (i <= 2 - retryCount)%nat.
Proof.
  induction fuel as [|fuel IH]; intros rc w Hfuel Hw; [lia|].
  cbn [request_from]. unfold bind at 1.
  destruct (ensureValidToken_effect e w Hw) as (r1 & w1 & -> & E1 & _).
  destruct r1 as [t|err].
  2:{ exists (Throw err), w1, 0%nat, 0%nat. repeat split; try apply E1; lia. }
  unfold bind at 1.
  destruct (fetch_page_effect e w1 (proj1 E1)) as (r2 & w2 & -> & E2 & _).
  pose proof (effect_trans e w w1 w2 0 1 0 0 E1 E2) as E12.
  destruct r2 as [[status body]|err].
  2:{ exists (Throw err), w2, 1%nat, 0%nat. split; [reflexivity|].
      split; [exact E12|]. lia. }
  cbn [fst snd].
  destruct ((status =? 401) && (rc <? 2)%nat) eqn:Eretry.
  - apply andb_true_iff in Eretry. destruct Eretry as [_ Hrc].
    apply Nat.ltb_lt in Hrc.
    unfold bind at 1.
    destruct (invalidate_effect e w2 (proj1 E2)) as (w3 & -> & E3).
    pose proof (effect_trans e w w2 w3 1 0 0 1 E12 E3) as E123.
    unfold bind at 1.
    destruct (login_effect e w3 (proj1 E3)) as (r4 & w4 & -> & E4 & _).
    pose proof (effect_trans e w w3 w4 1 0 1 0 E123 E4) as E1234.
    destruct r4 as [t4|err].
    2:{ exists (Throw err), w4, 1%nat, 1%nat. split; [reflexivity|].
        split; [exact E1234|]. lia. }
    destruct (IH (S rc) w4 ltac:(lia) (proj1 E4))
      as (out & w' & g & i & -> & E5 & Hg & Hi).
    exists out, w', (1 + g)%nat, (1 + i)%nat. split; [reflexivity|].
    split; [exact (effect_trans e w w4 w' 1 g 1 i E1234 E5)|]. lia.
  - destruct (negb (ok status)).
    + exists (Throw (ApiError status)), w2, 1%nat, 0%nat.
      split; [reflexivity|]. split; [exact E12|]. lia.
    + destruct body as [v|].
      * exists (Ok v), w2, 1%nat, 0%nat.
        split; [reflexivity|]. split; [exact E12|]. lia.
      * exists (Throw SyntaxError), w2, 1%nat, 0%nat.
        split; [reflexivity|]. split; [exact E12|]. lia.
Qed.

(** When the page requests left to it are all refused, a request throws;
    if the logins succeed, what it throws is the error of the last refusal,
    after every retry has been used. *)
Lemma request_from_unauthorized (e : string) :
  forall fuel retryCount w,
    (retryCount <= 2)%nat ->
    (S (2 - retryCount) <= fuel)%nat ->
    idle w ->
    (forall k a, (k < 3 - retryCount)%nat ->
                 unauthorized (page_response net (fetches w + k) e a)) ->
    exists err w',
      request_from jwt_payload net fuel e retryCount w = Some (Throw err, w')
      /\ (logins_succeed net ->
          err = ApiError 401
          /\ effect e w w' (3 - retryCount) (2 - retryCount)).
Proof.
  induction fuel as [|fuel IH]; intros rc w Hrc Hfuel Hw H401; [lia|].
  cbn [request_from]. unfold bind at 1.
  destruct (ensureValidToken_effect e w Hw) as (r1 & w1 & -> & E1 & Hok1).
  destruct r1 as [t|err].
  2:{ exists err, w1. split; [reflexivity|]. intros Hnet.
      destruct (Hok1 Hnet) as [t Ht]. discriminate Ht. }
  unfold bind at 1.
  destruct (fetch_page_effect e w1 (proj1 E1)) as (r2 & w2 & -> & E2 & a & Ha).
  pose proof (effect_trans e w w1 w2 0 1 0 0 E1 E2) as E12.
  assert (Hf1 : fetches w1 = fetches w) by (destruct E1 as (_ & F & _); lia).
  destruct (H401 0%nat a ltac:(lia)) as [body Hbody].
  rewrite Nat.add_0_r, <- Hf1 in Hbody. rewrite Hbody in Ha. subst r2.
  cbn [fst snd]. rewrite Z.eqb_refl. cbn [andb].
  destruct (rc <? 2)%nat eqn:Eretry.
  - apply Nat.ltb_lt in Eretry.
    unfold bind at 1.
    destruct (invalidate_effect e w2 (proj1 E2)) as (w3 & -> & E3).
    pose proof (effect_trans e w w2 w3 1 0 0 1 E12 E3) as E123.
    unfold bind at 1.
    destruct (login_effect e w3 (proj1 E3)) as (r4 & w4 & -> & E4 & Hok4).
    pose proof (effect_trans e w w3 w4 1 0 1 0 E123 E4) as E1234.
    destruct r4 as [t4|err].
    2:{ exists err, w4. split; [reflexivity|]. intros Hnet.
        destruct (Hnet (loginCalls (runtime w3))) as (st & data & E & Hst & Hd).
        specialize (Hok4 st data E Hst Hd). discriminate Hok4. }
    assert (Hf4 : fetches w4 = S (fetches w))
      by (destruct E1234 as (_ & F & _); lia).
    destruct (IH (S rc) w4 ltac:(lia) ltac:(lia) (proj1 E4))
      as (err & w' & -> & Herr).
    { intros k a' Hk. rewrite Hf4.
      replace (S (fetches w) + k)%nat with (fetches w + S k)%nat by lia.
      apply H401. lia. }
    exists err, w'. split; [reflexivity|]. intros Hnet.
    destruct (Herr Hnet) as [-> E5]. split; [reflexivity|].
    pose proof (effect_trans e w w4 w' _ _ _ _ E1234 E5) as E.
    replace (3 - rc)%nat with (1 + (3 - S rc))%nat by lia.
    replace (2 - rc)%nat with (1 + (2 - S rc))%nat by lia.
    exact E.
  - apply Nat.ltb_ge in Eretry.
    assert (rc = 2%nat) by lia. subst rc.
    change (negb (ok 401)) with true. cbn iota.
    exists (ApiError 401), w2. split; [reflexivity|].
    intros _. split; [reflexivity | exact E12].
Qed.

(** A page request answered with status 200 and a body returns that
    body. *)
Lemma request_answered (e : string) (v : value) (w : World) :
  idle w ->
  logins_succeed net ->
  (forall n a, page_response net n e a = Response 200 (Some v)) ->
  exists w', request jwt_payload net e 0 w = Some (Ok v, w') /\ idle w'.
Proof.
  intros Hw Hnet Hpage. unfold request. cbn [Nat.sub request_from].
  unfold bind at 1.
  destruct (ensureValidToken_effect e w Hw) as (r1 & w1 & -> & E1 & Hok1).
  destruct (Hok1 Hnet) as [t ->].
  unfold bind at 1.
  destruct (fetch_page_effect e w1 (proj1 E1)) as (r2 & w2 & -> & E2 & a & Ha).
  rewrite Hpage in Ha. subst r2. cbn.
  exists w2. split; [reflexivity | apply E2].
Qed.

(** ** What a request logs *)

(** A login attempt run to its end on the answer [r]: the promise settles
    with the outcome the answer commands, and the token and its expiry are
    stored when there is a token; a failed attempt leaves the service as it
    was. *)
Lemma attempt_runs (rt : Runtime) (r : fetch_result) (t : Z) :
  refreshPromise (service rt) = None ->
  let rt3 :=
    step jwt_payload
      (step jwt_payload (step jwt_payload rt CallLogin) (FetchSettles r))
      (JsonSettles t) in
  settlement (settled rt3) (loginCalls rt) = Some (login_outcome r)
  /\ loginCalls rt3 = S (loginCalls rt)
  /\ service rt3
     = match login_outcome r with
       | Ok tok =>
           set_refreshPromise (logged_in jwt_payload (service rt) tok t) None
       | Throw _ => service rt
       end.
Proof.
  intros Hp. destruct rt as [[tok0 exp0 rp0] att st lc cl].
  cbn [service refreshPromise] in Hp. subst rp0.
  cbn [step service refreshPromise attempt loginCalls].
  destruct r as [|status body]; cbn [after_fetch login_outcome].
  - cbn. rewrite Nat.eqb_refl. repeat split.
  - destruct (ok status); cbn [attempt].
    + destruct body as [data|]; cbn [after_json];
        [destruct (nullish data)|];
        cbn; rewrite Nat.eqb_refl; repeat split.
    + cbn. rewrite Nat.eqb_refl. repeat split.
Qed.

(** [login()] from a state where no login is in flight: one login
    request, and the outcome the answer commands. *)
Lemma login_returns (w : World) :
  idle w ->
  exists w' m,
    login jwt_payload net w
    = Some (login_outcome (login_response net (loginCalls (runtime w))), w')
    /\ idle w'
    /\ log w' = (log w ++ [PostLogin])%list
    /\ fetches w' = fetches w
    /\ observed w' = observed w
    /\ loginCalls (runtime w') = S (loginCalls (runtime w))
    /\ service (runtime w')
       = match login_outcome (login_response net (loginCalls (runtime w))) with
         | Ok t =>
             set_refreshPromise
               (logged_in jwt_payload (service (runtime w)) t (time net m))
               None
         | Throw _ => service (runtime w)
         end.
Proof.
  intros [Hc Hp]. unfold login, login_promise. rewrite Hp.
  set (r := login_response net (loginCalls (runtime w))).
  set (rt2 := step jwt_payload (step jwt_payload (runtime w) CallLogin)
                (FetchSettles r)).
  set (t := now net (set_runtime (add_log w PostLogin) rt2)).
  destruct (attempt_runs (runtime w) r t Hp) as (Hset & Hcalls & Hserv).
  cbv zeta in Hset, Hcalls, Hserv. fold rt2 in Hset, Hcalls, Hserv.
  rewrite Hset. eexists. exists (loginCalls rt2 + fetches w)%nat.
  split; [reflexivity|].
  unfold idle. cbn [set_runtime add_log log fetches observed runtime].
  assert (Hc3 : consistent (step jwt_payload rt2 (JsonSettles t))).
  { subst rt2. repeat apply SessionFacts.step_consistent. exact Hc. }
  assert (Hnone : refreshPromise (service (step jwt_payload rt2 (JsonSettles t)))
                  = None).
  { rewrite Hserv. destruct (login_outcome r); [reflexivity | exact Hp]. }
  split; [split; assumption|].
  do 3 (split; [reflexivity|]). split; [exact Hcalls|].
  rewrite Hserv. destruct (login_outcome r); reflexivity.
Qed.

(** A page request: it is sent with the token the service holds. *)
Lemma fetch_page_returns (e : string) (w : World) :
  idle w ->
  exists w',
    fetch_page net e w
    = Some (match page_response net (fetches w) e
                    (bearer (token (service (runtime w)))) with
            | Rejected => Throw NetworkError
            | Response status body => Ok (status, body)
            end, w')
    /\ idle w'
    /\ log w'
       = (log w ++ [GetPage e (bearer (token (service (runtime w))))])%list
    /\ fetches w' = S (fetches w)
    /\ observed w' = observed w
    /\ runtime w' = runtime w.
Proof.
  intros Hw. unfold fetch_page, bearer.
  destruct (page_response net (fetches w) e _) as [|status body];
    eexists; (split; [reflexivity|]); repeat split; try apply Hw.
Qed.

(** [this.token = null]. *)
Lemma invalidate_returns (w : World) :
  idle w ->
  exists w',
    invalidate jwt_payload w = Some (Ok tt, w')
    /\ idle w'
    /\ log w' = (log w ++ [TokenInvalidated])%list
    /\ fetches w' = fetches w
    /\ observed w' = observed w
    /\ loginCalls (runtime w') = loginCalls (runtime w)
    /\ token (service (runtime w')) = VNull.
Proof.
  intros Hw.
  destruct (invalidate_effect "" w Hw)
    as (w' & Hrun & Heff).
  exists w'. split; [exact Hrun|]. split; [apply Heff|].
  unfold invalidate in Hrun. injection Hrun as <-. repeat split.
Qed.

(** A login request that is accepted is answered with a token. *)
Lemma logins_issue :
  logins_succeed net ->
  forall n, login_outcome (login_response net n) = Ok (issued net n).
Proof.
  intros Hnet n. unfold issued.
  destruct (Hnet n) as (status & data & -> & Hok & Hdata).
  cbn [login_outcome]. now rewrite Hok, Hdata.
Qed.

(** [ensureValidToken()] when the tokens of the logins last: one login
    request when the token is missing or expired, nothing otherwise, and a
    token that is not expired after it. *)
Lemma ensureValidToken_returns (w : World) :
  idle w -> logins_succeed net -> lasting jwt_payload net ->
  exists w1,
    ensureValidToken jwt_payload net w
    = Some (Ok (token (service (runtime w1))), w1)
    /\ idle w1
    /\ expired net w1 = false
    /\ fetches w1 = fetches w
    /\ observed w1 = observed w
    /\ forall e k,
         (log w1 ++ exchange net e w1 k)%list
         = (log w ++ exchange net e w k)%list.
Proof.
  intros Hw Hnet Hlast. unfold ensureValidToken.
  destruct (isTokenExpired (service (runtime w)) (now net w)) eqn:Hexp.
  - destruct (login_returns w Hw)
      as (w1 & m & Hlogin & Hw1 & Hlog & Hf & Hobs & Hcalls & Hserv).
    rewrite (logins_issue Hnet) in Hlogin, Hserv.
    assert (Hfresh : expired net w1 = false).
    { unfold expired. rewrite Hserv. apply (Hlast _ _ m). }
    exists w1. unfold bind. rewrite Hlogin. split; [reflexivity|].
    do 4 (split; [assumption|]).
    intros e k. unfold exchange. unfold expired at 2. rewrite Hfresh, Hexp.
    rewrite Hlog, Hcalls, Hserv, <- app_assoc. reflexivity.
  - exists w. split; [reflexivity|]. split; [exact Hw|].
    split; [exact Hexp|]. repeat split.
Qed.

(** A request that is refused [k] times and answered then: what it logs,
    when the logins succeed with tokens that last. *)
Lemma request_from_trace (e : string) :
  forall k fuel retryCount w out,
    (S k <= fuel)%nat ->
    idle w ->
    logins_succeed net ->
    lasting jwt_payload net ->
    (forall j a, (j < k)%nat ->
       retried (retryCount + j) (page_response net (fetches w + j) e a)
       = true) ->
    (forall a,
       retried (retryCount + k) (page_response net (fetches w + k) e a)
       = false
       /\ answer_of (page_response net (fetches w + k) e a) = out) ->
    exists w',
      request_from jwt_payload net fuel e retryCount w = Some (out, w')
      /\ idle w'
      /\ log w' = (log w ++ exchange net e w k)%list
      /\ fetches w' = (fetches w + S k)%nat
      /\ observed w' = observed w.
Proof.
  induction k as [|k IH]; intros fuel rc w out Hfuel Hw Hnet Hlast Hretry Hfinal;
    (destruct fuel as [|fuel]; [lia|]);
    cbn [request_from]; unfold bind at 1;
    destruct (ensureValidToken_returns w Hw Hnet Hlast)
      as (w1 & -> & Hw1 & Hfresh & Hf1 & Hobs1 & Hlog1);
    unfold bind at 1;
    destruct (fetch_page_returns e w1 Hw1)
      as (w2 & -> & Hw2 & Hlog2 & Hf2 & Hobs2 & Hrt2);
    rewrite Hf1;
    set (a1 := bearer (token (service (runtime w1)))) in *.
  - destruct (Hfinal a1) as [Hr Hout].
    replace (rc + 0)%nat with rc in Hr by lia.
    replace (fetches w + 0)%nat with (fetches w) in Hr, Hout by lia.
    exists w2. rewrite <- (Hlog1 e 0%nat).
    unfold exchange at 1. rewrite Hfresh. cbn [retries]. fold a1.
    split; [|split; [exact Hw2|split; [exact Hlog2|split; [lia|congruence]]]].
    destruct (page_response net (fetches w) e a1) as [|status body];
      [now rewrite <- Hout|].
    cbn [fst snd]. cbn [retried] in Hr. rewrite Hr, <- Hout.
    cbn [answer_of]. destruct (negb (ok status)); [reflexivity|].
    now destruct body.
  - pose proof (Hretry 0%nat a1 ltac:(lia)) as H0.
    rewrite !Nat.add_0_r in H0.
    destruct (page_response net (fetches w) e a1) as [|status body];
      [discriminate H0|].
    cbn [fst snd]. cbn [retried] in H0. rewrite H0.
    unfold bind at 1.
    destruct (invalidate_returns w2 Hw2)
      as (w3 & -> & Hw3 & Hlog3 & Hf3 & Hobs3 & Hcalls3 & _).
    unfold bind at 1.
    destruct (login_returns w3 Hw3)
      as (w4 & m & -> & Hw4 & Hlog4 & Hf4 & Hobs4 & Hcalls4 & Hserv4).
    rewrite (logins_issue Hnet) in Hserv4 |- *.
    assert (Hfresh4 : expired net w4 = false).
    { unfold expired. rewrite Hserv4. apply (Hlast _ _ m). }
    assert (Hfetches : fetches w4 = S (fetches w)) by congruence.
    destruct (IH fuel (S rc) w4 out ltac:(lia) Hw4 Hnet Hlast)
      as (w' & -> & Hw' & Hlog' & Hf' & Hobs').
    + intros j a Hj. rewrite Hfetches.
      replace (S rc + j)%nat with (rc + S j)%nat by lia.
      replace (S (fetches w) + j)%nat with (fetches w + S j)%nat by lia.
      apply Hretry. lia.
    + intros a. rewrite Hfetches.
      replace (S rc + k)%nat with (rc + S k)%nat by lia.
      replace (S (fetches w) + k)%nat with (fetches w + S k)%nat by lia.
      apply Hfinal.
    + exists w'. split; [reflexivity|]. split; [exact Hw'|].
      split; [|split; [lia | congruence]].
      rewrite Hlog', <- (Hlog1 e (S k)).
      unfold exchange. rewrite Hfresh, Hfresh4. cbn [retries]. fold a1.
      rewrite Hlog4, Hlog3, Hlog2, Hserv4, Hcalls4, Hcalls3, Hrt2.
      cbn [token set_refreshPromise logged_in set_tokenExpiresAt set_token].
      rewrite <- !app_assoc. reflexivity.
Qed.

(** One refusal with retries left: the token is set to [null], one login
    request is sent, and the request is made again with one retry more from
    the state the login leaves, or fails with the error of the login, the
    token staying [null]. *)
Lemma retry_step (e : string) (fuel retryCount : nat) (w w1 : World)
  (body : option value) :
  idle w ->
  (ensureValidToken jwt_payload net ;;; fetch_page net e) w
  = Some (Ok (401, body), w1) ->
  (retryCount < 2)%nat ->
  exists w2,
    idle w2
    /\ log w2 = (log w1 ++ [TokenInvalidated; PostLogin])%list
    /\ fetches w2 = fetches w1
    /\ loginCalls (runtime w2) = S (loginCalls (runtime w1))
    /\ match login_outcome (login_response net (loginCalls (runtime w1))) with
       | Ok t =>
           token (service (runtime w2)) = t
           /\ request_from jwt_payload net (S fuel) e retryCount w
              = request_from jwt_payload net fuel e (S retryCount) w2
       | Throw err =>
           token (service (runtime w2)) = VNull
           /\ request_from jwt_payload net (S fuel) e retryCount w
              = Some (Throw err, w2)
       end.
Proof.
  intros Hw Hrun Hrc. cbn [request_from]. unfold bind in Hrun |- *.
  destruct (ensureValidToken_effect e w Hw)
    as (r0 & w0 & E0 & Heff0 & _).
  rewrite E0 in Hrun |- *. destruct r0 as [t0|err0]; [|discriminate Hrun].
  destruct (fetch_page_effect e w0 (proj1 Heff0))
    as (r1 & w1' & E1 & Heff1 & _).
  rewrite E1 in Hrun |- *. injection Hrun as -> ->.
  cbn [fst snd]. rewrite Z.eqb_refl.
  apply Nat.ltb_lt in Hrc. rewrite Hrc. cbn [andb].
  destruct (invalidate_returns w1 (proj1 Heff1))
    as (w3 & -> & Hw3 & Hlog3 & Hf3 & _ & Hcalls3 & Htok3).
  destruct (login_returns w3 Hw3)
    as (w4 & m & -> & Hw4 & Hlog4 & Hf4 & _ & Hcalls4 & Hserv4).
  exists w4. rewrite Hcalls3 in *.
  split; [exact Hw4|]. split; [now rewrite Hlog4, Hlog3, <- app_assoc|].
  split; [congruence|]. split; [congruence|].
  destruct (login_outcome (login_response net (loginCalls (runtime w1))))
    as [t|err]; rewrite Hserv4; split; try reflexivity. exact Htok3.
Qed.

End ServiceFacts.

End ClientFacts.

Import Client.






(* ====================================================================== *)
(** * Facts about the sort and about prefixes of sorted lists              *)
(* ====================================================================== *)

Module SortFacts.

(** ** The sort, for any comparator that follows an order *)

Section SortOrder.

Variable A : Type.
Variable compare : A -> A -> num.

(** The elements the comparator is consistent on, and the order it
    follows there: an element that stays in front of another is before it,
    and an element that is moved behind another is after it. *)
Variable ok : A -> Prop.
Variable before : A -> A -> Prop.

Hypothesis before_trans :
  forall x y z, before x y -> before y z -> before x z.
Hypothesis stays :
  forall x y, ok x -> ok y -> goes_after compare x y = false -> before x y.
Hypothesis moves :
  forall x y, ok x -> ok y -> goes_after compare x y = true -> before y x.

Lemma sort_insert_ordered (x : A) (l : list A) :
  ok x -> Forall ok l -> StronglySorted before l ->
  StronglySorted before (sort_insert compare x l).
Proof.
  intros Hx Hl Hs. induction l as [|y rest IH]; simpl.
  - repeat constructor.
  - inversion Hl as [|? ? Hy Hrest]; subst.
    inversion Hs as [|? ? Hs' Hall]; subst.
    destruct (goes_after compare x y) eqn:E.
    + constructor; [now apply IH|].
      apply (Permutation_Forall
               (Permutation_sym
                  (AggregationFacts.sort_insert_perm A compare x rest))).
      constructor; [now apply moves | exact Hall].
    + pose proof (stays x y Hx Hy E) as Hxy.
      constructor; [exact Hs|]. constructor; [exact Hxy|].
      eapply Forall_impl; [|exact Hall].
      intros z Hz. exact (before_trans x y z Hxy Hz).
Qed.

Lemma sort_ordered (l : list A) :
  Forall ok l -> StronglySorted before (sort compare l).
Proof.
  induction l as [|x rest IH]; intros Hl; simpl; [constructor|].
  inversion Hl as [|? ? Hx Hrest]; subst.
  apply sort_insert_ordered; [exact Hx | | now apply IH].
  now apply (Permutation_Forall
               (Permutation_sym (AggregationFacts.sort_perm A compare rest))).
Qed.

End SortOrder.

Section SortStable.

Variable A : Type.
Variable compare : A -> A -> num.

(** A class of elements that the comparator never tells apart. *)
Variable same : A -> bool.

Hypothesis tied :
  forall x y, same x = true -> same y = true ->
              goes_after compare x y = false.

Lemma sort_insert_keeps (x : A) (l : list A) :
  filter same (sort_insert compare x l) = filter same (x :: l).
Proof.
  induction l as [|y rest IH]; [reflexivity|].
  simpl sort_insert.
  destruct (goes_after compare x y) eqn:E; [|reflexivity].
  simpl. rewrite IH. simpl.
  destruct (same x) eqn:Ex; destruct (same y) eqn:Ey; try reflexivity.
  rewrite (tied x y Ex Ey) in E. discriminate E.
Qed.

Lemma sort_keeps (l : list A) :
  filter same (sort compare l) = filter same l.
Proof.
  induction l as [|x rest IH]; [reflexivity|].
  simpl sort. rewrite sort_insert_keeps. simpl. now rewrite IH.
Qed.

End SortStable.

(** Two comparators that agree on the elements of a list sort it alike. *)
Lemma sort_insert_ext (A : Type) (c1 c2 : A -> A -> num) (x : A)
  (l : list A) :
  (forall y, In y l -> goes_after c1 x y = goes_after c2 x y) ->
  sort_insert c1 x l = sort_insert c2 x l.
Proof.
  induction l as [|y rest IH]; intros H; [reflexivity|].
  simpl. rewrite <- (H y (or_introl eq_refl)).
  rewrite IH; [reflexivity|]. intros z Hz. apply H. now right.
Qed.

Lemma sort_ext (A : Type) (c1 c2 : A -> A -> num) (l : list A) :
  (forall x y, In x l -> In y l -> goes_after c1 x y = goes_after c2 x y) ->
  sort c1 l = sort c2 l.
Proof.
  induction l as [|x rest IH]; intros H; [reflexivity|].
  simpl. rewrite IH.
  - apply sort_insert_ext. intros y Hy. apply H; [now left | right].
    exact (Permutation_in y (AggregationFacts.sort_perm A c2 rest) Hy).
  - intros a b Ha Hb. apply H; now right.
Qed.

(** In a sorted list every element of a prefix is before every element
    of the rest. *)
Lemma sorted_prefix_dominates (A : Type) (before : A -> A -> Prop)
  (l : list A) :
  StronglySorted before l ->
  forall n a b, In a (firstn n l) -> In b (skipn n l) -> before a b.
Proof.
  induction 1 as [|x rest Hs IH Hall]; intros n a b Ha Hb.
  - rewrite firstn_nil in Ha. contradiction.
  - destruct n as [|n]; [contradiction|].
    simpl in Ha, Hb. destruct Ha as [<- | Ha].
    + rewrite Forall_forall in Hall. apply Hall.
      rewrite <- (firstn_skipn n rest). apply in_or_app. now right.
    + exact (IH n a b Ha Hb).
Qed.

Lemma sorted_prefix (A : Type) (before : A -> A -> Prop) (l : list A) :
  StronglySorted before l -> forall n, StronglySorted before (firstn n l).
Proof.
  induction 1 as [|x rest Hs IH Hall]; intros n.
  - rewrite firstn_nil. constructor.
  - destruct n as [|n]; [constructor|]. simpl. constructor; [apply IH|].
    rewrite Forall_forall in *. intros y Hy. apply Hall.
    rewrite <- (firstn_skipn n rest). apply in_or_app. now left.
Qed.

Lemma StronglySorted_map (A B : Type) (f : A -> B) (R : B -> B -> Prop)
  (l : list A) :
  StronglySorted (fun a b => R (f a) (f b)) l -> StronglySorted R (map f l).
Proof.
  induction 1 as [|x rest Hs IH Hall]; simpl; constructor; [exact IH|].
  rewrite Forall_forall in *. intros y Hy. apply in_map_iff in Hy.
  destruct Hy as (a & <- & Ha). now apply Hall.
Qed.

Lemma NoDup_firstn (A : Type) (n : nat) (l : list A) :
  NoDup l -> NoDup (firstn n l).
Proof.
  intros H. rewrite <- (firstn_skipn n l) in H.
  exact (NoDup_app_remove_r _ _ H).
Qed.

End SortFacts.

(* ====================================================================== *)
(** * The filter panel                                                     *)
(* ====================================================================== *)

Module PanelFacts.
Import FilterEngine Panel.

(** ** SameValueZero and strict equality *)

Lemma Qeq_bool_sym (p q : Q) : Qeq_bool p q = Qeq_bool q p.
Proof.
  destruct (Qeq_bool p q) eqn:E1, (Qeq_bool q p) eqn:E2; try reflexivity.
  - apply Qeq_bool_eq in E1. apply Qeq_bool_neq in E2.
    exfalso. apply E2. now symmetry.
  - apply Qeq_bool_eq in E2. apply Qeq_bool_neq in E1.
    exfalso. apply E1. now symmetry.
Qed.

Lemma same_value_zero_sym (a b : value) :
  same_value_zero a b = same_value_zero b a.
Proof.
  destruct a as [| |x|[|p]|s|l|fs], b as [| |y|[|q]|t|l'|fs']; simpl;
    try reflexivity.
  - now destruct x, y.
  - apply Qeq_bool_sym.
  - apply String.eqb_sym.
Qed.

Lemma same_value_zero_trans (a b c : value) :
  same_value_zero a b = true -> same_value_zero b c = true ->
  same_value_zero a c = true.
Proof.
  destruct a as [| |x|[|p]|s|l|fs], b as [| |y|[|q]|t|l'|fs'],
           c as [| |z|[|r]|u|l''|fs'']; simpl; try discriminate; try reflexivity.
  - destruct x, y, z; simpl; congruence.
  - intros H1 H2. apply Qeq_bool_eq in H1, H2. apply Qeq_bool_iff.
    now rewrite H1.
  - intros H1 H2. apply String.eqb_eq in H1, H2. subst. apply String.eqb_refl.
Qed.

(** Two values that are the same value are the same value as the same
    values. *)
Lemma same_value_zero_congr (a b u : value) :
  same_value_zero a b = true -> same_value_zero a u = same_value_zero b u.
Proof.
  intros H.
  destruct (same_value_zero a u) eqn:E1, (same_value_zero b u) eqn:E2;
    try reflexivity.
  - rewrite same_value_zero_sym in H.
    now rewrite (same_value_zero_trans b a u H E1) in E2.
  - now rewrite (same_value_zero_trans a b u H E2) in E1.
Qed.

Lemma same_value_zero_truthy (a b : value) :
  same_value_zero a b = true -> truthy a = truthy b.
Proof.
  destruct a as [| |x|[|p]|s|l|fs], b as [| |y|[|q]|t|l'|fs']; simpl;
    try discriminate; try reflexivity.
  - destruct x, y; simpl; congruence.
  - intros H. apply Qeq_bool_eq in H. f_equal.
    destruct (Qeq_bool p 0) eqn:E1, (Qeq_bool q 0) eqn:E2; try reflexivity.
    + apply Qeq_bool_eq in E1. apply Qeq_bool_neq in E2.
      exfalso. apply E2. now rewrite <- H.
    + apply Qeq_bool_eq in E2. apply Qeq_bool_neq in E1.
      exfalso. apply E1. now rewrite H.
  - intros H. apply String.eqb_eq in H. now subst.
Qed.

Lemma same_value_zero_refl (v : value) :
  primitive v = true -> same_value_zero v v = true.
Proof.
  destruct v as [| |x|[|p]|s|l|fs]; simpl; try discriminate; try reflexivity.
  - now destruct x.
  - intros _. apply Qeq_bool_iff. reflexivity.
  - intros _. apply String.eqb_refl.
Qed.

(** But for [NaN], [===] is SameValueZero. *)
Lemma strict_eq_same_value_zero (a b : value) :
  b <> VNum NaN -> strict_eq a b = same_value_zero a b.
Proof.
  intros Hb. destruct a as [| |x|[|p]|s|l|fs], b as [| |y|[|q]|t|l'|fs'];
    try reflexivity. now contradiction Hb.
Qed.

Lemma includes_app (a b : list value) (v : value) :
  includes (a ++ b) v = includes a v || includes b v.
Proof. unfold includes. apply existsb_app. Qed.

Lemma includes_false (l : list value) (v : value) :
  includes l v = false <-> forall x, In x l -> same_value_zero x v = false.
Proof.
  unfold includes. split.
  - intros H x Hx. apply not_true_iff_false. intros E.
    apply not_true_iff_false in H. apply H. apply existsb_exists. now exists x.
  - intros H. apply not_true_iff_false. intros E.
    apply existsb_exists in E. destruct E as (x & Hx & E).
    now rewrite (H x Hx) in E.
Qed.

Lemma includes_perm (l l' : list value) (v : value) :
  Permutation l l' -> includes l v = includes l' v.
Proof.
  intros Hp.
  destruct (includes l v) eqn:E1, (includes l' v) eqn:E2; try reflexivity.
  - apply JSFacts.includes_spec in E1. destruct E1 as (x & Hx & E).
    rewrite includes_false in E2.
    now rewrite (E2 x (Permutation_in x Hp Hx)) in E.
  - apply JSFacts.includes_spec in E2. destruct E2 as (x & Hx & E).
    rewrite includes_false in E1.
    now rewrite (E1 x (Permutation_in x (Permutation_sym Hp) Hx)) in E.
Qed.

(** ** The set of the values of a field *)

Lemma new_Set_snoc (l : list value) (x : value) :
  new_Set (l ++ [x]) = set_add (new_Set l) x.
Proof. unfold new_Set. now rewrite fold_left_app. Qed.

Lemma new_Set_In (l : list value) (x : value) :
  In x (new_Set l) -> In x l.
Proof.
  induction l as [|y done IH] using rev_ind; [intros []|].
  rewrite new_Set_snoc. unfold set_add.
  destruct (includes (new_Set done) y).
  - intros H. apply in_or_app. left. now apply IH.
  - intros H. apply in_app_or in H. apply in_or_app.
    destruct H as [H | H]; [left; now apply IH | now right].
Qed.

Lemma new_Set_covers (l : list value) (x : value) :
  In x l -> In x (new_Set l) \/ includes (new_Set l) x = true.
Proof.
  induction l as [|y done IH] using rev_ind; [intros []|].
  intros H. rewrite new_Set_snoc. unfold set_add. apply in_app_or in H.
  destruct (includes (new_Set done) y) eqn:E.
  - destruct H as [H | [<- | []]]; [now apply IH | now right].
  - destruct H as [H | [<- | []]].
    + destruct (IH H) as [Hin | Hinc].
      * left. apply in_or_app. now left.
      * right. rewrite includes_app, Hinc. reflexivity.
    + left. apply in_or_app. right. now left.
Qed.

Lemma new_Set_unique (l : list value) (v : value) :
  (List.length (same_as v (new_Set l)) <= 1)%nat.
Proof.
  induction l as [|y done IH] using rev_ind; [simpl; lia|].
  rewrite new_Set_snoc. unfold set_add.
  destruct (includes (new_Set done) y) eqn:E; [exact IH|].
  unfold same_as in *. rewrite filter_app, length_app. simpl.
  destruct (same_value_zero y v) eqn:Ey; simpl; [|lia].
  assert (Hnone : filter (fun x => same_value_zero x v) (new_Set done) = []).
  { rewrite includes_false in E.
    destruct (filter (fun x => same_value_zero x v) (new_Set done))
      as [|x rest] eqn:F; [reflexivity|].
    assert (Hx : In x (filter (fun x => same_value_zero x v) (new_Set done)))
      by (rewrite F; now left).
    apply filter_In in Hx. destruct Hx as [Hx Hxv].
    specialize (E x Hx). rewrite same_value_zero_sym in Ey.
    now rewrite (same_value_zero_trans x v y Hxv Ey) in E. }
  rewrite Hnone. simpl. lia.
Qed.

(** ** The options of a category *)

Lemma options_perm (field : NormalizedRecord -> value)
  (compare : value -> value -> num) (rawData : list NormalizedRecord) :
  Permutation (options field compare rawData)
    (new_Set (filter truthy (map field rawData))).
Proof. unfold options. apply AggregationFacts.sort_perm. Qed.

Lemma options_truthy (field : NormalizedRecord -> value)
  (compare : value -> value -> num) (rawData : list NormalizedRecord)
  (v : value) :
  In v (options field compare rawData) ->
  truthy v = true /\ exists d, In d rawData /\ field d = v.
Proof.
  intros H. apply (Permutation_in v (options_perm field compare rawData)) in H.
  apply new_Set_In, filter_In in H. destruct H as [H Ht].
  split; [exact Ht|]. apply in_map_iff in H.
  destruct H as (d & Hd & Hin). now exists d.
Qed.

Lemma options_cover (field : NormalizedRecord -> value)
  (compare : value -> value -> num) (rawData : list NormalizedRecord)
  (d : NormalizedRecord) :
  In d rawData -> truthy (field d) = true ->
  In (field d) (options field compare rawData)
  \/ includes (options field compare rawData) (field d) = true.
Proof.
  intros Hd Ht.
  assert (Hin : In (field d) (filter truthy (map field rawData))).
  { apply filter_In. split; [|exact Ht]. apply in_map_iff. now exists d. }
  pose proof (options_perm field compare rawData) as Hp.
  destruct (new_Set_covers _ _ Hin) as [H | H].
  - left. exact (Permutation_in _ (Permutation_sym Hp) H).
  - right. now rewrite (includes_perm _ _ (field d) Hp).
Qed.

Lemma filter_perm (A : Type) (f : A -> bool) (l l' : list A) :
  Permutation l l' -> Permutation (filter f l) (filter f l').
Proof.
  induction 1 as [|x l l' _ IH|x y l|l l' l'' _ IH1 _ IH2]; simpl.
  - constructor.
  - destruct (f x); [now constructor | exact IH].
  - destruct (f x), (f y); try reflexivity. apply perm_swap.
  - now transitivity (filter f l').
Qed.

Lemma options_unique (field : NormalizedRecord -> value)
  (compare : value -> value -> num) (rawData : list NormalizedRecord)
  (v : value) :
  (List.length (same_as v (options field compare rawData)) <= 1)%nat.
Proof.
  unfold same_as.
  rewrite (Permutation_length
             (filter_perm _ _ _ _ (options_perm field compare rawData))).
  apply new_Set_unique.
Qed.

(** ** The three orders of the options *)

Lemma ascii_compare_trans (a b c : ascii) (r : comparison) :
  Ascii.compare a b = r -> Ascii.compare b c = r -> Ascii.compare a c = r.
Proof.
  unfold Ascii.compare. intros H1 H2. destruct r.
  - apply N.compare_eq_iff in H1, H2. apply N.compare_eq_iff. congruence.
  - rewrite N.compare_lt_iff in *. lia.
  - rewrite N.compare_gt_iff in *. lia.
Qed.

Lemma string_leb_trans (a b c : string) :
  String.leb a b = true -> String.leb b c = true -> String.leb a c = true.
Proof.
  unfold String.leb. revert b c.
  induction a as [|a0 a IH]; intros [|b0 b] [|c0 c]; simpl;
    try discriminate; try reflexivity.
  intros H1 H2.
  destruct (Ascii.compare a0 b0) eqn:E1; try discriminate H1;
    destruct (Ascii.compare b0 c0) eqn:E2; try discriminate H2.
  - rewrite (ascii_compare_trans a0 b0 c0 Eq E1 E2). now apply (IH b c).
  - apply Ascii.compare_eq_iff in E1. subst. now rewrite E2.
  - apply Ascii.compare_eq_iff in E2. subst. now rewrite E1.
  - now rewrite (ascii_compare_trans a0 b0 c0 Lt E1 E2).
Qed.

Lemma goes_after_by_text (x y : value) :
  goes_after by_text x y = true
  <-> String.compare (to_string x) (to_string y) = Gt.
Proof.
  unfold goes_after, by_text.
  destruct (String.compare (to_string x) (to_string y)); split;
    intros H; try discriminate H; reflexivity.
Qed.

Lemma sort_by_text_ordered (l : list value) :
  StronglySorted text_before (sort by_text l).
Proof.
  apply (SortFacts.sort_ordered value by_text (fun _ => True) text_before).
  - unfold text_before. intros x y z. apply string_leb_trans.
  - intros x y _ _ H. unfold text_before, String.leb.
    destruct (String.compare (to_string x) (to_string y)) eqn:E;
      try reflexivity.
    apply goes_after_by_text in E. congruence.
  - intros x y _ _ H. apply goes_after_by_text in H.
    unfold text_before, String.leb.
    rewrite String.compare_antisym, H. reflexivity.
  - apply Forall_forall. trivial.
Qed.

Lemma goes_after_ascending (x y : value) (p q : Q) :
  x = VNum (Num p) -> y = VNum (Num q) ->
  (goes_after ascending x y = true <-> (q < p)%Q).
Proof.
  intros -> ->. unfold goes_after, ascending, num_gt.
  cbn [to_number num_sub]. rewrite JSFacts.num_lt_spec. split.
  - intros (a & b & Ha & Hb & Hlt).
    injection Ha as <-. injection Hb as <-.
    rewrite Qred_correct in Hlt. unfold inject_Z in *. lra.
  - intros Hlt. exists 0%Q, (Qred (p - q)). repeat split.
    rewrite Qred_correct. lra.
Qed.

Lemma goes_after_descending (x y : value) :
  goes_after descending x y = goes_after ascending y x.
Proof. reflexivity. Qed.

Lemma number_before_trans (x y z : value) :
  number_before x y -> number_before y z -> number_before x z.
Proof.
  intros (p & q & -> & -> & H1) (q' & r & E & -> & H2).
  injection E as <-. exists p, r. repeat split. lra.
Qed.

Lemma sort_ascending_ordered (l : list value) :
  Forall is_number l -> StronglySorted number_before (sort ascending l).
Proof.
  apply (SortFacts.sort_ordered value ascending is_number number_before).
  - exact number_before_trans.
  - intros x y [p Hp] [q Hq] H. exists p, q. repeat split; try assumption.
    apply Qnot_lt_le. intros Hlt.
    apply (goes_after_ascending x y p q Hp Hq) in Hlt. congruence.
  - intros x y [p Hp] [q Hq] H.
    apply (goes_after_ascending x y p q Hp Hq) in H.
    exists q, p. repeat split; try assumption. lra.
Qed.

Lemma sort_descending_ordered (l : list value) :
  Forall is_number l ->
  StronglySorted (fun a b => number_before b a) (sort descending l).
Proof.
  apply (SortFacts.sort_ordered value descending is_number
           (fun a b => number_before b a)).
  - intros x y z H1 H2. exact (number_before_trans z y x H2 H1).
  - intros x y [p Hp] [q Hq] H. exists q, p. repeat split; try assumption.
    apply Qnot_lt_le. intros Hlt. rewrite goes_after_descending in H.
    apply (goes_after_ascending y x q p Hq Hp) in Hlt. congruence.
  - intros x y [p Hp] [q Hq] H. rewrite goes_after_descending in H.
    apply (goes_after_ascending y x q p Hq Hp) in H.
    exists p, q. repeat split; try assumption. lra.
Qed.

(** The truthy numbers are numbers. *)
Lemma truthy_number (n : num) : truthy (VNum n) = true -> is_number (VNum n).
Proof. destruct n as [|q]; [discriminate | intros _; now exists q]. Qed.

Lemma new_Set_numbers (f : NormalizedRecord -> num)
  (rawData : list NormalizedRecord) :
  Forall is_number
    (new_Set (filter truthy (map (fun d => VNum (f d)) rawData))).
Proof.
  apply Forall_forall. intros v Hv.
  apply new_Set_In, filter_In in Hv. destruct Hv as [Hv Ht].
  apply in_map_iff in Hv. destruct Hv as (d & <- & _).
  now apply truthy_number.
Qed.

(** ** Selections *)

Lemma selection_with_selection (p : Filters) (c c' : category)
  (sel : list value) :
  selection (with_selection p c sel) c'
  = match c, c' with
    | Estados, Estados | Cidades, Cidades | Bairros, Bairros
    | Padroes, Padroes | Status, Status | Tipos, Tipos
    | TiposImovel, TiposImovel | Quartos, Quartos
    | AnosLancamento, AnosLancamento | Incorporadoras, Incorporadoras => sel
    | _, _ => selection p c'
    end.
Proof. destruct c, c'; reflexivity. Qed.

Lemma selection_same (p : Filters) (c : category) (sel : list value) :
  selection (with_selection p c sel) c = sel.
Proof. destruct c; reflexivity. Qed.

Lemma selection_other (p : Filters) (c c' : category) (sel : list value) :
  c <> c' -> selection (with_selection p c sel) c' = selection p c'.
Proof. destruct c, c'; intros H; try reflexivity; now contradiction H. Qed.

(** What [filteredData] asks of a record, category by category and range
    by range. *)
Lemma keeps_by_category (f : Filters) (d : NormalizedRecord) :
  keeps f d = true
  <-> (forall c, excludes (selection f c) (field_of c d) = false)
      /\ (forall k, outside (range_of f k) (measure_of k d) = false).
Proof.
  rewrite FilterFacts.keeps_unfold. split.
  - intros (H1 & H2 & H3 & H4 & H5 & H6 & H7 & H8 & H9 & H10
            & R1 & R2 & R3).
    split; [intros c; destruct c | intros k; destruct k]; assumption.
  - intros [Hc Hk].
    pose proof (Hc Estados). pose proof (Hc Cidades). pose proof (Hc Bairros).
    pose proof (Hc Padroes). pose proof (Hc Status). pose proof (Hc Tipos).
    pose proof (Hc TiposImovel). pose proof (Hc Quartos).
    pose proof (Hc AnosLancamento). pose proof (Hc Incorporadoras).
    pose proof (Hk M2Range). pose proof (Hk TicketRange).
    pose proof (Hk ValorM2Range).
    repeat split; assumption.
Qed.

(** Two states that exclude the same values and put the same numbers
    outside keep the same records. *)
Lemma keeps_ext (f f' : Filters) (d : NormalizedRecord) :
  (forall c, excludes (selection f c) (field_of c d)
             = excludes (selection f' c) (field_of c d)) ->
  (forall k, outside (range_of f k) (measure_of k d)
             = outside (range_of f' k) (measure_of k d)) ->
  keeps f d = keeps f' d.
Proof.
  intros Hc Hk.
  destruct (keeps f d) eqn:E1, (keeps f' d) eqn:E2; try reflexivity.
  - apply keeps_by_category in E1. destruct E1 as [H1 H2].
    apply not_true_iff_false in E2. exfalso. apply E2.
    apply keeps_by_category. split.
    + intros c. rewrite <- Hc. apply H1.
    + intros k. rewrite <- Hk. apply H2.
  - apply keeps_by_category in E2. destruct E2 as [H1 H2].
    apply not_true_iff_false in E1. exfalso. apply E1.
    apply keeps_by_category. split.
    + intros c. rewrite Hc. apply H1.
    + intros k. rewrite Hk. apply H2.
Qed.

Lemma filter_all (A : Type) (f : A -> bool) (l : list A) :
  (forall x, In x l -> f x = true) -> filter f l = l.
Proof.
  induction l as [|x rest IH]; intros H; [reflexivity|].
  simpl. rewrite (H x (or_introl eq_refl)). f_equal. apply IH.
  intros y Hy. apply H. now right.
Qed.

(** ** Toggling a value *)

(** A value that was not selected is added last, and toggling it again
    gives the selection back. *)
Lemma toggle_on_off (sel : list value) (v : value) :
  primitive v = true -> v <> VNum NaN -> includes sel v = false ->
  toggle sel v = (sel ++ [v])%list /\ toggle (toggle sel v) v = sel.
Proof.
  intros Hp Hn Hinc.
  assert (Hon : toggle sel v = (sel ++ [v])%list)
    by (unfold toggle; now rewrite Hinc).
  split; [exact Hon|]. rewrite Hon. unfold toggle.
  rewrite includes_app, Hinc. cbn [includes existsb orb].
  rewrite (same_value_zero_refl v Hp). cbn [orb].
  rewrite filter_app. cbn [filter].
  rewrite (strict_eq_same_value_zero v v Hn), (same_value_zero_refl v Hp).
  cbn [negb]. rewrite app_nil_r. apply filter_all.
  intros x Hx. rewrite (strict_eq_same_value_zero x v Hn).
  rewrite includes_false in Hinc. now rewrite (Hinc x Hx).
Qed.

(** Toggling a selected value off and on again selects the same values. *)
Lemma toggle_off_on (sel : list value) (v u : value) :
  primitive v = true -> v <> VNum NaN -> includes sel v = true ->
  excludes (toggle (toggle sel v) v) u = excludes sel u.
Proof.
  intros Hp Hn Hinc.
  set (off := filter (fun x => negb (strict_eq x v)) sel).
  assert (Hoff : toggle sel v = off) by (unfold toggle; now rewrite Hinc).
  assert (Hgone : includes off v = false).
  { apply includes_false. intros x Hx. apply filter_In in Hx.
    destruct Hx as [_ Hx]. apply negb_true_iff in Hx.
    now rewrite <- (strict_eq_same_value_zero x v Hn). }
  rewrite Hoff. unfold toggle. rewrite Hgone. unfold excludes.
  assert (Hl1 : Nat.eqb (List.length (off ++ [v])%list) 0 = false).
  { rewrite length_app. simpl. apply Nat.eqb_neq. lia. }
  assert (Hl2 : Nat.eqb (List.length sel) 0 = false).
  { destruct sel; [discriminate Hinc | reflexivity]. }
  rewrite Hl1, Hl2. f_equal. f_equal.
  rewrite includes_app. cbn [includes existsb]. rewrite orb_false_r.
  fold (includes off u).
  destruct (includes sel u) eqn:E.
  - apply JSFacts.includes_spec in E. destruct E as (x & Hx & Hxu).
    destruct (strict_eq x v) eqn:Ex.
    + rewrite (strict_eq_same_value_zero x v Hn) in Ex.
      rewrite <- (same_value_zero_congr x v u Ex), Hxu. apply orb_true_r.
    + assert (Hin : includes off u = true).
      { apply JSFacts.includes_spec. exists x. split; [|exact Hxu].
        apply filter_In. split; [exact Hx | now rewrite Ex]. }
      now rewrite Hin.
  - rewrite includes_false in E. apply orb_false_iff. split.
    + apply includes_false. intros x Hx. apply filter_In in Hx.
      apply E. tauto.
    + apply JSFacts.includes_spec in Hinc. destruct Hinc as (x & Hx & Hxv).
      rewrite <- (same_value_zero_congr x v u Hxv). now apply E.
Qed.

Lemma toggle_twice (sel : list value) (v u : value) :
  primitive v = true -> v <> VNum NaN ->
  excludes (toggle (toggle sel v) v) u = excludes sel u.
Proof.
  intros Hp Hn. destruct (includes sel v) eqn:E.
  - now apply toggle_off_on.
  - now rewrite (proj2 (toggle_on_off sel v Hp Hn E)).
Qed.

Lemma filter_shorter (A : Type) (f : A -> bool) (l : list A) (x : A) :
  In x l -> f x = false -> (List.length (filter f l) < List.length l)%nat.
Proof.
  induction l as [|y rest IH]; intros Hin Hx; [contradiction|].
  simpl. pose proof (filter_length_le f rest) as Hle.
  destruct Hin as [-> | Hin].
  - rewrite Hx. lia.
  - specialize (IH Hin Hx). destruct (f y); simpl; lia.
Qed.

(** ** The badge *)

Lemma count_selected (key : string) (values : list value) (count : nat) :
  key_includes key "Range" = false ->
  count_entry count (key, Selected values)
  = (count + List.length values)%nat.
Proof. unfold count_entry. now intros ->. Qed.

Lemma count_bounds (key : string) (v def : num * num) (count : nat) :
  key_includes key "Range" = true ->
  setting_of (entries DEFAULT_FILTERS) key = Some (Bounds def) ->
  count_entry count (key, Bounds v)
  = if moved v def then S count else count.
Proof. unfold count_entry. now intros -> ->. Qed.

Lemma activeFilterCount_unfold (f : Filters) :
  activeFilterCount f
  = (List.length (FilterEngine.estados f)
     + List.length (FilterEngine.cidades f)
     + List.length (FilterEngine.bairros f)
     + List.length (FilterEngine.padroes f)
     + List.length (FilterEngine.status f)
     + List.length (FilterEngine.tipos f)
     + List.length (FilterEngine.tiposImovel f)
     + List.length (FilterEngine.quartos f)
     + List.length (FilterEngine.anosLancamento f)
     + List.length (FilterEngine.incorporadoras f)
     + (if moved (m2Range f) (m2Range DEFAULT_FILTERS) then 1 else 0)
     + (if moved (ticketRange f) (ticketRange DEFAULT_FILTERS) then 1 else 0)
     + (if moved (valorM2Range f) (valorM2Range DEFAULT_FILTERS)
        then 1 else 0))%nat.
Proof.
  unfold activeFilterCount, entries. cbn [fold_left].
  rewrite !count_selected by (vm_compute; reflexivity).
  rewrite (count_bounds "m2Range" _ (m2Range DEFAULT_FILTERS))
    by (vm_compute; reflexivity).
  rewrite (count_bounds "ticketRange" _ (ticketRange DEFAULT_FILTERS))
    by (vm_compute; reflexivity).
  rewrite (count_bounds "valorM2Range" _ (valorM2Range DEFAULT_FILTERS))
    by (vm_compute; reflexivity).
  destruct (moved (m2Range f) _), (moved (ticketRange f) _),
    (moved (valorM2Range f) _); lia.
Qed.

Lemma activeFilterCount_selections (f : Filters) :
  activeFilterCount f
  = (List.length (selection f Estados) + List.length (selection f Cidades)
     + List.length (selection f Bairros) + List.length (selection f Padroes)
     + List.length (selection f Status) + List.length (selection f Tipos)
     + List.length (selection f TiposImovel)
     + List.length (selection f Quartos)
     + List.length (selection f AnosLancamento)
     + List.length (selection f Incorporadoras)
     + (if moved (range_of f M2Range) (m2Range DEFAULT_FILTERS) then 1 else 0)
     + (if moved (range_of f TicketRange) (ticketRange DEFAULT_FILTERS)
        then 1 else 0)
     + (if moved (range_of f ValorM2Range) (valorM2Range DEFAULT_FILTERS)
        then 1 else 0))%nat.
Proof. apply activeFilterCount_unfold. Qed.

Lemma num_strict_eq_lt (a a' x : num) :
  num_strict_eq a a' = true ->
  num_lt x a = num_lt x a' /\ num_lt a x = num_lt a' x.
Proof.
  destruct a as [|p], a' as [|q]; try discriminate. simpl.
  intros H. apply Qeq_bool_eq in H.
  destruct x as [|r]; [now split|]. simpl.
  assert (H1 : Qle_bool p r = Qle_bool q r).
  { destruct (Qle_bool p r) eqn:E1, (Qle_bool q r) eqn:E2; try reflexivity.
    - apply Qle_bool_iff in E1. apply not_true_iff_false in E2.
      exfalso. apply E2. apply Qle_bool_iff. lra.
    - apply Qle_bool_iff in E2. apply not_true_iff_false in E1.
      exfalso. apply E1. apply Qle_bool_iff. lra. }
  assert (H2 : Qle_bool r p = Qle_bool r q).
  { destruct (Qle_bool r p) eqn:E1, (Qle_bool r q) eqn:E2; try reflexivity.
    - apply Qle_bool_iff in E1. apply not_true_iff_false in E2.
      exfalso. apply E2. apply Qle_bool_iff. lra.
    - apply Qle_bool_iff in E2. apply not_true_iff_false in E1.
      exfalso. apply E1. apply Qle_bool_iff. lra. }
  now rewrite H1, H2.
Qed.

(** A range that has not moved puts the same numbers outside. *)
Lemma outside_not_moved (value def : num * num) (x : num) :
  moved value def = false -> outside value x = outside def x.
Proof.
  unfold moved. intros H. apply orb_false_iff in H.
  destruct H as [H1 H2]. apply negb_false_iff in H1, H2.
  unfold outside, num_gt.
  rewrite (proj1 (num_strict_eq_lt _ _ x H1)).
  now rewrite (proj2 (num_strict_eq_lt _ _ x H2)).
Qed.

Lemma category_eq_dec (c c' : category) : {c = c'} + {c <> c'}.
Proof. decide equality. Qed.

Lemma with_selection_same (p : Filters) (c : category) :
  with_selection p c (selection p c) = p.
Proof. destruct p, c; reflexivity. Qed.

Lemma range_of_with_selection (p : Filters) (c : category)
  (sel : list value) (k : range_key) :
  range_of (with_selection p c sel) k = range_of p k.
Proof. destruct k; reflexivity. Qed.

Lemma range_of_with_range (p : Filters) (k : range_key) (v : num * num) :
  range_of (with_range p k v) k = v.
Proof. destruct k; reflexivity. Qed.

(** A truthy value is never the same value as a falsy one. *)
Lemma includes_truthy (sel : list value) (v : value) :
  (forall x, In x sel -> truthy x = true) -> truthy v = false ->
  includes sel v = false.
Proof.
  intros Hsel Hv. apply includes_false. intros x Hx.
  apply not_true_iff_false. intros E.
  apply same_value_zero_truthy in E. rewrite (Hsel x Hx) in E. congruence.
Qed.

(** Every list of check boxes is built alike, from the field its
    category filters on. *)
Lemma options_of_filterOptions (rawData : list NormalizedRecord)
  (c : category) :
  exists compare,
    options_of (filterOptions rawData) c = options (field_of c) compare rawData.
Proof. destruct c; eexists; reflexivity. Qed.

End PanelFacts.

(** X1. When the field of a category prints in every record (so that
    [sort()], which compares the options as texts, does not throw), the
    check boxes of the category in [filterOptions] are the distinct truthy
    values of the field: every option is truthy and is the value of the
    field in some record; every record whose field is truthy finds its
    value among the options (the value itself, or an option that is the same
    value); and no two options are the same value (SameValueZero). *)
Theorem filterOptions_are_the_distinct_values
  (rawData : list NormalizedRecord) (c : Panel.category) :
  printable (Panel.field_of c) rawData ->
  let o := Panel.options_of (Panel.filterOptions rawData) c in
  (forall v, In v o ->
     truthy v = true /\ exists d, In d rawData /\ Panel.field_of c d = v)
  /\ (forall d, In d rawData -> truthy (Panel.field_of c d) = true ->
        In (Panel.field_of c d) o \/ includes o (Panel.field_of c d) = true)
  /\ (forall v, (List.length (Panel.same_as v o) <= 1)%nat).
Proof.
  intros _.
  destruct (PanelFacts.options_of_filterOptions rawData c) as [compare ->].
  split; [|split].
  - apply PanelFacts.options_truthy.
  - apply PanelFacts.options_cover.
  - apply PanelFacts.options_unique.
Qed.

(** Three projects in two cities: Olinda has its check box. *)
Lemma filterOptions_are_the_distinct_values_witness :
  let rawData :=
    [Aggregation.project "Recife" 1; Aggregation.project "Olinda" 2;
     Aggregation.project "Recife" 3] in
  let o := Panel.cidades (Panel.filterOptions rawData) in
  In (VStr "Olinda") o \/ includes o (VStr "Olinda") = true.
Proof.
  intros rawData o.
  destruct (filterOptions_are_the_distinct_values rawData Panel.Cidades)
    as (_ & Hcover & _); [by_evaluation|].
  apply (Hcover (Aggregation.project "Olinda" 2)).
  - right. now left.
  - reflexivity.
Defined.

(** X2. The bedroom options are numbers in ascending order and the
    launch-year options numbers in descending order. The options of each of
    the eight other categories are in the order of the code units of their
    texts, when the field of the category prints in every record (so that
    [sort()], which compares the options as texts, does not throw). *)
Theorem filterOptions_are_sorted (rawData : list NormalizedRecord) :
  let o := Panel.filterOptions rawData in
  StronglySorted Panel.number_before (Panel.quartos o)
  /\ StronglySorted (fun a b => Panel.number_before b a)
       (Panel.anosLancamento o)
  /\ forall c, c <> Panel.Quartos -> c <> Panel.AnosLancamento ->
       printable (Panel.field_of c) rawData ->
       StronglySorted Panel.text_before (Panel.options_of o c).
Proof.
  cbn zeta. split; [|split].
  - apply PanelFacts.sort_ascending_ordered, PanelFacts.new_Set_numbers.
  - apply PanelFacts.sort_descending_ordered, PanelFacts.new_Set_numbers.
  - intros c Hq Ha _. destruct c; try contradiction;
      apply PanelFacts.sort_by_text_ordered.
Qed.

(** Three projects in two cities: the cities come in the order of their
    texts. *)
Lemma filterOptions_are_sorted_witness :
  let rawData :=
    [Aggregation.project "Recife" 1; Aggregation.project "Olinda" 2;
     Aggregation.project "Recife" 3] in
  StronglySorted Panel.text_before
    (Panel.cidades (Panel.filterOptions rawData)).
Proof.
  intros rawData.
  destruct (filterOptions_are_sorted rawData) as (_ & _ & Htexts).
  apply (Htexts Panel.Cidades); [discriminate | discriminate | by_evaluation].
Defined.

(** X3. A record whose field is falsy in a category (a bedroom count or a
    launch year that is 0 or [NaN]) has no check box there: every non-empty
    selection made of check boxes of that category removes it from
    [filteredData]. Conversely, with every check box of a category ticked,
    no record of [rawData] whose field is truthy and primitive is excluded
    by that category. *)
Theorem check_boxes_reach_the_truthy_values
  (rawData : list NormalizedRecord) (c : Panel.category)
  (f : FilterEngine.Filters) (d : NormalizedRecord) :
  let boxes := Panel.options_of (Panel.filterOptions rawData) c in
  (Panel.selection f c <> [] ->
   (forall v, In v (Panel.selection f c) -> In v boxes) ->
   truthy (Panel.field_of c d) = false ->
   FilterEngine.keeps f d = false)
  /\ (Panel.selection f c = boxes ->
      In d rawData ->
      truthy (Panel.field_of c d) = true ->
      Panel.primitive (Panel.field_of c d) = true ->
      FilterEngine.excludes (Panel.selection f c) (Panel.field_of c d)
      = false).
Proof.
  intros boxes. subst boxes.
  destruct (PanelFacts.options_of_filterOptions rawData c) as [compare ->].
  pose proof (PanelFacts.options_truthy (Panel.field_of c) compare rawData)
    as Htruthy.
  pose proof (PanelFacts.options_cover (Panel.field_of c) compare rawData)
    as Hcover.
  split.
  - intros Hsel Hsub Hfalsy. apply not_true_iff_false. intros Hk.
    apply PanelFacts.keeps_by_category in Hk. destruct Hk as [Hk _].
    specialize (Hk c). unfold FilterEngine.excludes in Hk.
    rewrite PanelFacts.includes_truthy in Hk.
    + destruct (Panel.selection f c); [now apply Hsel | discriminate Hk].
    + intros x Hx. apply Htruthy. now apply Hsub.
    + exact Hfalsy.
  - intros Hall Hd Ht Hp. rewrite Hall. unfold FilterEngine.excludes.
    apply andb_false_iff. right. apply negb_false_iff.
    destruct (Hcover d Hd Ht) as [Hin | Hinc]; [|exact Hinc].
    apply JSFacts.includes_spec. exists (Panel.field_of c d).
    split; [exact Hin | now apply PanelFacts.same_value_zero_refl].
Qed.

(** A studio, whose bedroom count is the text 0, disappears when the check
    box of three bedrooms is ticked. *)
Lemma check_boxes_reach_the_truthy_values_witness :
  let studio := normalize (frozen 0) (VObj [("quartos", VStr "0")]) 0 in
  let flat := normalize (frozen 0) (VObj [("quartos", vint 3)]) 1 in
  let f := Panel.toggleFilter Panel.Quartos (vint 3)
             FilterEngine.DEFAULT_FILTERS in
  FilterEngine.keeps f studio = false.
Proof.
  intros studio flat f.
  apply (check_boxes_reach_the_truthy_values [studio; flat] Panel.Quartos f
           studio).
  - discriminate.
  - intros v [<- | []]. vm_compute. now left.
  - reflexivity.
Defined.

(** X4. Toggling the same value twice in a category, for a primitive value
    other than [NaN], leaves [filteredData] as it was; and when the value
    was not selected before, the state itself is back. *)
Theorem toggling_twice_keeps_the_view (c : Panel.category) (v : value)
  (p : FilterEngine.Filters) (rawData : list NormalizedRecord) :
  Panel.primitive v = true -> v <> VNum NaN ->
  FilterEngine.filteredData rawData
    (Panel.toggleFilter c v (Panel.toggleFilter c v p))
  = FilterEngine.filteredData rawData p
  /\ (includes (Panel.selection p c) v = false ->
      Panel.toggleFilter c v (Panel.toggleFilter c v p) = p).
Proof.
  intros Hp Hn. split.
  - unfold FilterEngine.filteredData. apply filter_ext. intros d.
    apply PanelFacts.keeps_ext.
    + intros c'. unfold Panel.toggleFilter.
      destruct (PanelFacts.category_eq_dec c c') as [<- | Hne].
      * rewrite !PanelFacts.selection_same.
        now apply PanelFacts.toggle_twice.
      * now rewrite !PanelFacts.selection_other.
    + intros k. unfold Panel.toggleFilter.
      now rewrite !PanelFacts.range_of_with_selection.
  - intros Hinc. unfold Panel.toggleFilter.
    rewrite PanelFacts.selection_same.
    rewrite (proj2 (PanelFacts.toggle_on_off _ v Hp Hn Hinc)).
    destruct p, c; reflexivity.
Qed.

(** Olinda ticked and unticked, with Recife selected. *)
Lemma toggling_twice_keeps_the_view_witness :
  let p := Panel.toggleFilter Panel.Cidades (VStr "Recife")
             FilterEngine.DEFAULT_FILTERS in
  Panel.toggleFilter Panel.Cidades (VStr "Olinda")
    (Panel.toggleFilter Panel.Cidades (VStr "Olinda") p) = p.
Proof.
  intros p.
  apply (toggling_twice_keeps_the_view Panel.Cidades (VStr "Olinda") p []).
  - reflexivity.
  - discriminate.
  - reflexivity.
Defined.

(** X5. Toggling a value that is not selected adds one to
    [activeFilterCount]; toggling a selected value other than [NaN] lowers
    it; and a [NaN], once selected, is never removed: toggling it again
    changes nothing. *)
Theorem toggleFilter_moves_the_badge (c : Panel.category) (v : value)
  (p : FilterEngine.Filters) :
  (includes (Panel.selection p c) v = false ->
   Panel.activeFilterCount (Panel.toggleFilter c v p)
   = S (Panel.activeFilterCount p))
  /\ (includes (Panel.selection p c) v = true -> v <> VNum NaN ->
      (Panel.activeFilterCount (Panel.toggleFilter c v p)
       < Panel.activeFilterCount p)%nat)
  /\ (Panel.toggleFilter c (VNum NaN) (Panel.toggleFilter c (VNum NaN) p)
      = Panel.toggleFilter c (VNum NaN) p).
Proof.
  assert (Hcount : forall sel,
            (Panel.activeFilterCount (Panel.with_selection p c sel)
             + List.length (Panel.selection p c)
             = Panel.activeFilterCount p + List.length sel)%nat).
  { intros sel. rewrite !PanelFacts.activeFilterCount_unfold.
    destruct c; cbn; lia. }
  split; [|split].
  - intros Hinc. unfold Panel.toggleFilter, Panel.toggle. rewrite Hinc.
    specialize (Hcount (Panel.selection p c ++ [v])%list).
    rewrite length_app in Hcount. simpl in Hcount. lia.
  - intros Hinc Hn. unfold Panel.toggleFilter, Panel.toggle. rewrite Hinc.
    specialize (Hcount (filter (fun x => negb (strict_eq x v))
                          (Panel.selection p c))).
    apply JSFacts.includes_spec in Hinc. destruct Hinc as (x & Hx & Hxv).
    pose proof (PanelFacts.filter_shorter _
                  (fun x => negb (strict_eq x v)) _ x Hx) as Hlt.
    cbv beta in Hlt. rewrite (PanelFacts.strict_eq_same_value_zero x v Hn), Hxv in Hlt.
    specialize (Hlt eq_refl). lia.
  - unfold Panel.toggleFilter. rewrite PanelFacts.selection_same.
    set (sel := Panel.toggle (Panel.selection p c) (VNum NaN)).
    assert (Hin : includes sel (VNum NaN) = true).
    { subst sel. unfold Panel.toggle.
      destruct (includes (Panel.selection p c) (VNum NaN)) eqn:E.
      - rewrite PanelFacts.filter_all; [exact E|].
        intros x _. now destruct x as [| |?|[|?]|?|?|?].
      - rewrite PanelFacts.includes_app, E. reflexivity. }
    assert (Hsame : Panel.toggle sel (VNum NaN) = sel).
    { unfold Panel.toggle at 1. rewrite Hin. apply PanelFacts.filter_all.
      intros x _. now destruct x as [| |?|[|?]|?|?|?]. }
    rewrite Hsame. destruct p, c; reflexivity.
Qed.

(** X6. [clearFilters] brings [activeFilterCount] to zero, and whenever
    [activeFilterCount] is zero, [filteredData] is what it is under the
    cleared filters. *)
Theorem no_badge_means_default_view :
  (forall p, Panel.activeFilterCount (Panel.clearFilters p) = 0%nat)
  /\ (forall f rawData,
        Panel.activeFilterCount f = 0%nat ->
        FilterEngine.filteredData rawData f
        = FilterEngine.filteredData rawData (Panel.clearFilters f)).
Proof.
  split.
  - intros p. unfold Panel.clearFilters.
    rewrite PanelFacts.activeFilterCount_unfold. reflexivity.
  - intros f rawData H0. rewrite PanelFacts.activeFilterCount_selections in H0.
    unfold FilterEngine.filteredData. apply filter_ext. intros d.
    apply PanelFacts.keeps_ext.
    + intros c. unfold Panel.clearFilters.
      assert (Hnil : Panel.selection f c = []).
      { apply length_zero_iff_nil. destruct c; lia. }
      rewrite Hnil. now destruct c.
    + intros k. unfold Panel.clearFilters.
      apply PanelFacts.outside_not_moved.
      destruct k;
        [ destruct (Panel.moved (Panel.range_of f Panel.M2Range) _)
        | destruct (Panel.moved (Panel.range_of f Panel.TicketRange) _)
        | destruct (Panel.moved (Panel.range_of f Panel.ValorM2Range) _) ];
        first [ reflexivity | exfalso; lia ].
Qed.

(** X7. The lower slider of a range is not held below the upper bound: once
    it is moved above it, the only records left in [filteredData] are those
    whose number on that range is [NaN]. *)
Theorem crossed_sliders_keep_only_NaN (k : Panel.range_key) (typed : string)
  (p : FilterEngine.Filters) (rawData : list NormalizedRecord) (lo hi : Q) :
  string_to_number typed = Num lo ->
  snd (Panel.range_of p k) = Num hi ->
  (hi < lo)%Q ->
  forall d,
    In d (FilterEngine.filteredData rawData (Panel.move_lower k typed p)) ->
    Panel.measure_of k d = NaN.
Proof.
  intros Hlo Hhi Hcross d Hd. unfold FilterEngine.filteredData in Hd.
  apply filter_In in Hd. destruct Hd as [_ Hk].
  apply PanelFacts.keeps_by_category in Hk. destruct Hk as [_ Hk].
  specialize (Hk k). unfold Panel.move_lower in Hk.
  rewrite PanelFacts.range_of_with_range, Hlo, Hhi in Hk.
  destruct (Panel.measure_of k d) as [|q]; [reflexivity|].
  apply FilterFacts.outside_spec in Hk. lra.
Qed.

(** The lower bound of the private area moved to 2500, above the upper bound
    2000. *)
Lemma crossed_sliders_keep_only_NaN_witness :
  let rawData := [FilterEngine.record_without_area;
                  Aggregation.project "Recife" 100] in
  let f := Panel.move_lower Panel.M2Range "2500"
             FilterEngine.DEFAULT_FILTERS in
  FilterEngine.filteredData rawData f = [FilterEngine.record_without_area]
  /\ Panel.measure_of Panel.M2Range FilterEngine.record_without_area = NaN.
Proof.
  intros rawData f. split; [reflexivity|].
  apply (crossed_sliders_keep_only_NaN Panel.M2Range "2500"
           FilterEngine.DEFAULT_FILTERS rawData (2500 # 1) (2000 # 1)).
  - reflexivity.
  - reflexivity.
  - unfold Qlt. simpl. lia.
  - now left.
Defined.

(** The upper slider of the private area moved to its own default. *)
Lemma no_badge_means_default_view_witness :
  let f := Panel.move_upper Panel.M2Range "2000.0"
             FilterEngine.DEFAULT_FILTERS in
  let rawData := [Aggregation.project "Recife" 100] in
  Panel.activeFilterCount f = 0%nat
  /\ FilterEngine.filteredData rawData f
     = FilterEngine.filteredData rawData (Panel.clearFilters f).
Proof.
  intros f rawData.
  assert (H0 : Panel.activeFilterCount f = 0%nat) by reflexivity.
  split; [exact H0|].
  exact (proj2 no_badge_means_default_view f rawData H0).
Defined.

(* ====================================================================== *)
(** * The indicators and the rankings                                      *)
(* ====================================================================== *)

Module RankingFacts.
Import Aggregation Ranking.

(** ** The ranking of the projects *)

Lemma goes_after_launched (x y : NormalizedRecord) :
  goes_after by_launched_desc x y = true <-> (launched x < launched y)%Q.
Proof.
  unfold goes_after, by_launched_desc, num_gt, launched.
  destruct (AggregationFacts.num_or_amount (Normalizer.vgvTotal x))
    as (p & -> & Hp).
  destruct (AggregationFacts.num_or_amount (Normalizer.vgvTotal y))
    as (q & -> & Hq).
  cbn [num_sub]. rewrite JSFacts.num_lt_spec. split.
  - intros (a & b & Ha & Hb & Hlt).
    injection Ha as <-. injection Hb as <-.
    rewrite Qred_correct in Hlt. unfold inject_Z in *. lra.
  - intros Hlt. exists 0%Q, (Qred (q - p)). repeat split.
    rewrite Qred_correct. lra.
Qed.

Lemma sort_launched_ordered (data : list NormalizedRecord) :
  StronglySorted outranks (sort by_launched_desc data).
Proof.
  apply (SortFacts.sort_ordered NormalizedRecord by_launched_desc (fun _ => True)
           outranks).
  - unfold outranks. intros x y z Hxy Hyz. lra.
  - intros x y _ _ H. unfold outranks. apply Qnot_lt_le. intros Hlt.
    apply goes_after_launched in Hlt. congruence.
  - intros x y _ _ H. apply goes_after_launched in H.
    unfold outranks. lra.
  - apply Forall_forall. trivial.
Qed.

(** Without a [NaN] among the launched values, the comparator of
    [generatePDF] orders as the comparator of [topEmpreendimentos]. *)
Lemma goes_after_vgvTotal (x y : NormalizedRecord) :
  is_nan (Normalizer.vgvTotal x) = false ->
  is_nan (Normalizer.vgvTotal y) = false ->
  goes_after Ranking.by_vgvTotal_desc x y = goes_after by_launched_desc x y.
Proof.
  intros Hx Hy.
  apply JSFacts.is_nan_false in Hx, Hy.
  destruct Hx as [p Hp], Hy as [q Hq].
  destruct (goes_after by_launched_desc x y) eqn:E.
  - apply goes_after_launched in E. unfold launched in E.
    rewrite Hp, Hq in E. simpl in E.
    unfold goes_after, Ranking.by_vgvTotal_desc, num_gt. rewrite Hp, Hq.
    apply JSFacts.num_lt_spec. exists 0%Q, (Qred (q - p)). repeat split.
    rewrite Qred_correct. lra.
  - apply not_true_iff_false. intros H. apply not_true_iff_false in E.
    apply E, goes_after_launched. unfold launched. rewrite Hp, Hq. simpl.
    unfold goes_after, Ranking.by_vgvTotal_desc, num_gt in H.
    rewrite Hp, Hq in H. apply JSFacts.num_lt_spec in H.
    destruct H as (a & b & Ha & Hb & Hlt).
    injection Ha as <-. simpl in Hb. injection Hb as <-.
    rewrite Qred_correct in Hlt. unfold inject_Z in *. lra.
Qed.

(** ** Sums over the groups *)

Lemma sum_of_app (f : NormalizedRecord -> num) (a b : list NormalizedRecord) :
  (sum_of f (a ++ b) == sum_of f a + sum_of f b)%Q.
Proof.
  induction a as [|i rest IH]; simpl.
  - lra.
  - rewrite IH. lra.
Qed.

Lemma sum_over_ext (ks : list string) (h h' : string -> Q) :
  (forall k, In k ks -> (h k == h' k)%Q) ->
  (sum_over ks h == sum_over ks h')%Q.
Proof.
  induction ks as [|k rest IH]; intros H; simpl; [reflexivity|].
  rewrite (H k (or_introl eq_refl)), IH; [reflexivity|].
  intros k' Hk'. apply H. now right.
Qed.

Lemma sum_over_app (a b : list string) (h : string -> Q) :
  (sum_over (a ++ b) h == sum_over a h + sum_over b h)%Q.
Proof.
  induction a as [|k rest IH]; simpl.
  - lra.
  - rewrite IH. lra.
Qed.

Lemma sum_over_plus (ks : list string) (h h' : string -> Q) :
  (sum_over ks (fun k => h k + h' k) == sum_over ks h + sum_over ks h')%Q.
Proof.
  induction ks as [|k rest IH]; simpl.
  - lra.
  - rewrite IH. lra.
Qed.

Lemma sum_over_absent (ks : list string) (k0 : string) (c : Q) :
  ~ In k0 ks ->
  (sum_over ks (fun k => if String.eqb k0 k then c else 0) == 0)%Q.
Proof.
  induction ks as [|k rest IH]; intros Hnot; simpl; [reflexivity|].
  destruct (String.eqb k0 k) eqn:E.
  - apply String.eqb_eq in E. subst. exfalso. apply Hnot. now left.
  - rewrite IH; [lra|]. intros H. apply Hnot. now right.
Qed.

Lemma sum_over_present (ks : list string) (k0 : string) (c : Q) :
  NoDup ks -> In k0 ks ->
  (sum_over ks (fun k => if String.eqb k0 k then c else 0) == c)%Q.
Proof.
  induction ks as [|k rest IH]; intros Hnd Hin; [contradiction|].
  inversion Hnd as [|? ? Hnotin Hnd']; subst. simpl.
  destruct (String.eqb k0 k) eqn:E.
  - apply String.eqb_eq in E. subst.
    rewrite (sum_over_absent rest k c Hnotin). lra.
  - destruct Hin as [-> | Hin]; [now rewrite String.eqb_refl in E|].
    rewrite (IH Hnd' Hin). lra.
Qed.

Section Partition.

Variable field : NormalizedRecord -> value.
Variable f : NormalizedRecord -> num.

(** A key that is not inherited and has a member got a group. *)
Lemma member_has_group (data : list NormalizedRecord) (k : string) :
  inherited k = false -> members field data k <> [] ->
  In k (group_keys field data).
Proof.
  intros Hk Hm. unfold group_keys.
  apply AggregationFacts.first_occurrences_In, filter_In. split; [|now rewrite Hk].
  destruct (members field data k) as [|i l] eqn:E; [contradiction|].
  assert (Hi : In i (members field data k)) by (rewrite E; now left).
  unfold members in Hi. apply filter_In in Hi. destruct Hi as [Hin Hkey].
  apply String.eqb_eq in Hkey. apply in_map_iff. now exists i.
Qed.

(** The groups partition the records: the sums of the groups add up to
    the sum over all the records. *)
Lemma groups_partition (data : list NormalizedRecord) :
  (forall d, In d data -> inherited (key_of field d) = false) ->
  (sum_over (group_keys field data)
     (fun k => sum_of f (members field data k))
   == sum_of f data)%Q.
Proof.
  induction data as [|i done IH] using rev_ind; intros Hplain.
  - reflexivity.
  - assert (Hdone : forall d, In d done -> inherited (key_of field d) = false).
    { intros d Hd. apply Hplain. apply in_or_app. now left. }
    assert (Hi : inherited (key_of field i) = false).
    { apply Hplain. apply in_or_app. right. now left. }
    specialize (IH Hdone).
    rewrite sum_of_app. simpl sum_of at 3.
    assert (Hmem : forall ks,
      (sum_over ks (fun k => sum_of f (members field (done ++ [i]) k))
       == sum_over ks (fun k => sum_of f (members field done k))
          + sum_over ks (fun k => if String.eqb (key_of field i) k
                                  then amount (f i) else 0))%Q).
    { intros ks. rewrite <- sum_over_plus. apply sum_over_ext.
      intros k _. rewrite AggregationFacts.members_snoc, sum_of_app.
      destruct (String.eqb (key_of field i) k); simpl; lra. }
    rewrite AggregationFacts.group_keys_snoc, Hi.
    destruct (members field done (key_of field i)) as [|i0 l] eqn:E.
    + rewrite sum_over_app. simpl sum_over at 2.
      rewrite AggregationFacts.members_snoc, String.eqb_refl, E.
      rewrite Hmem, IH. rewrite sum_over_absent.
      * simpl. lra.
      * intros Hin.
        destruct (AggregationFacts.group_keys_members field done _ Hin)
          as [_ Hne].
        now apply Hne.
    + rewrite Hmem, IH. rewrite sum_over_present.
      * lra.
      * apply AggregationFacts.first_occurrences_NoDup.
      * apply member_has_group; [exact Hi|]. rewrite E. discriminate.
Qed.

End Partition.

Lemma series_total_perm (l l' : list TipoGroup) :
  Permutation l l' -> (series_total l == series_total l')%Q.
Proof.
  induction 1 as [|x l l' _ IH|x y l|l l' l'' _ IH1 _ IH2]; simpl.
  - reflexivity.
  - rewrite IH. reflexivity.
  - lra.
  - now rewrite IH1.
Qed.

Lemma series_total_groups (data : list NormalizedRecord) (ks : list string) :
  (series_total (map (tipo_group_of data) ks)
   == sum_over ks (fun k => sum_of Normalizer.vgvTotal
                              (members Normalizer.tipo data k)))%Q.
Proof.
  induction ks as [|k rest IH]; simpl; [reflexivity|].
  rewrite IH, Qred_correct. reflexivity.
Qed.

(** ** The tally of the developers *)

Lemma store_update_create (G : Type) (g : store G) (k : string) (y : G)
  (h : G -> G) :
  store_get g k = None ->
  store_update (store_create g k y) k h = store_create g k (h y).
Proof.
  unfold store_create. induction g as [|[k0 x] rest IH]; simpl; intros Hget.
  - now rewrite String.eqb_refl.
  - destruct (String.eqb k0 k); [discriminate|]. now rewrite IH.
Qed.

Lemma tally_step_plain (text : string -> string) (g : store value)
  (d : NormalizedRecord) :
  inherited (key_of Normalizer.incorporadora d) = false ->
  tally_step text g d
  = group_step Normalizer.incorporadora tally_init tally_add g d.
Proof.
  unfold key_of. intros Hd. unfold tally_step, group_step. rewrite Hd.
  destruct (store_get g (to_string (Normalizer.incorporadora d))) eqn:E.
  - reflexivity.
  - now rewrite store_update_create.
Qed.

Lemma tally_plain (text : string -> string) (data : list NormalizedRecord) :
  plain_developers data ->
  tally text data
  = group_by Normalizer.incorporadora tally_init tally_add data.
Proof.
  unfold tally, group_by. generalize (@nil (string * value)).
  induction data as [|d rest IH]; intros g Hplain; [reflexivity|].
  simpl. rewrite tally_step_plain by (apply Hplain; now left).
  apply IH. intros d' Hd'. apply Hplain. now right.
Qed.

Lemma fold_tally_add (l : list NormalizedRecord) :
  forall a : Q,
    fold_left (fun x i => tally_add i x) l (VNum (Num (Qred a)))
    = VNum (Num (Qred (a + sum_of Normalizer.vgvTotal l))).
Proof.
  induction l as [|i rest IH]; intros a; simpl.
  - do 2 f_equal. apply Qred_complete. lra.
  - unfold tally_add at 2.
    destruct (AggregationFacts.num_or_amount (Normalizer.vgvTotal i))
      as (q & -> & Hq).
    assert (Hstep : plus (VNum (Num (Qred a)) ||| vint 0) (VNum (Num q))
                    = VNum (Num (Qred (a + q)))).
    { unfold or_else. cbn [truthy].
      destruct (Qeq_bool (Qred a) 0) eqn:E; unfold vint, int;
        cbn [negb plus to_number num_add].
      - apply Qeq_bool_eq in E. rewrite Qred_correct in E.
        do 2 f_equal. apply Qred_complete. lra.
      - do 2 f_equal. apply Qred_complete. rewrite Qred_correct. lra. }
    rewrite Hstep, IH. do 2 f_equal. apply Qred_complete. rewrite Hq. lra.
Qed.

Lemma folded_tally (data : list NormalizedRecord) (k : string) :
  In k (group_keys Normalizer.incorporadora data) ->
  folded Normalizer.incorporadora tally_init tally_add data k
  = Some (VNum (Num (Qred (developer_total data k)))).
Proof.
  intros Hin.
  destruct (AggregationFacts.group_keys_members Normalizer.incorporadora
              data k Hin) as [Hk Hm].
  unfold folded, developer_total. rewrite Hk.
  destruct (members Normalizer.incorporadora data k) as [|i0 l] eqn:E;
    [contradiction|].
  unfold tally_init. change (vint 0) with (VNum (Num (Qred 0))).
  rewrite fold_tally_add. do 3 f_equal. apply Qred_complete. lra.
Qed.

Lemma object_entries_perm (G : Type) (g : store G) :
  Permutation (object_entries g) g.
Proof.
  unfold object_entries.
  rewrite (AggregationFacts.object_values_perm _
             (map (fun e => (fst e, e)) g)).
  rewrite map_map. simpl. now rewrite map_id.
Qed.

Lemma store_get_In (G : Type) (g : store G) (k : string) (x : G) :
  NoDup (map fst g) -> In (k, x) g -> store_get g k = Some x.
Proof.
  induction g as [|[k0 y] rest IH]; intros Hnd Hin; [contradiction|].
  simpl in *. inversion Hnd as [|? ? Hnotin Hnd']; subst.
  destruct Hin as [Heq | Hin].
  - injection Heq as -> ->. now rewrite String.eqb_refl.
  - destruct (String.eqb k0 k) eqn:E; [|now apply IH].
    apply String.eqb_eq in E. subst k0. exfalso. apply Hnotin.
    apply in_map_iff. now exists (k, x).
Qed.

(** The entries of the tally: one for each developer, with the launched
    total of the developer. *)
Lemma tally_entries (text : string -> string) (data : list NormalizedRecord) :
  plain_developers data ->
  map fst (tally text data) = group_keys Normalizer.incorporadora data
  /\ forall e, In e (tally text data) ->
       snd e = VNum (Num (Qred (developer_total data (fst e)))).
Proof.
  intros Hplain. rewrite (tally_plain text data Hplain).
  destruct (AggregationFacts.group_by_spec value Normalizer.incorporadora
              tally_init tally_add data) as [Hkeys Hget].
  split; [exact Hkeys|]. intros [k v] Hin. simpl.
  assert (Hk : In k (group_keys Normalizer.incorporadora data)).
  { rewrite <- Hkeys. apply in_map_iff. now exists (k, v). }
  assert (Hv : store_get
                 (group_by Normalizer.incorporadora tally_init tally_add data)
                 k = Some v).
  { apply store_get_In; [|exact Hin]. rewrite Hkeys.
    apply AggregationFacts.first_occurrences_NoDup. }
  rewrite Hget, (folded_tally data k Hk) in Hv. now injection Hv as <-.
Qed.

Lemma goes_after_tally (x y : string * value) (p q : Q) :
  snd x = VNum (Num p) -> snd y = VNum (Num q) ->
  (goes_after by_tally_desc x y = true <-> (p < q)%Q).
Proof.
  intros Hx Hy. unfold goes_after, by_tally_desc, num_gt.
  rewrite Hx, Hy. cbn [to_number num_sub].
  rewrite JSFacts.num_lt_spec. split.
  - intros (a & b & Ha & Hb & Hlt).
    injection Ha as <-. injection Hb as <-.
    rewrite Qred_correct in Hlt. unfold inject_Z in *. lra.
  - intros Hlt. exists 0%Q, (Qred (q - p)). repeat split.
    rewrite Qred_correct. lra.
Qed.

(** ** The rows of the evolution *)

Lemma store_get_set_property (row : store value) (inc k : string)
  (v : value) :
  store_get (set_property row inc v) k
  = if String.eqb inc k && negb (String.eqb inc "__proto__") then Some v
    else store_get row k.
Proof.
  unfold set_property. destruct (String.eqb inc "__proto__") eqn:Ep.
  - now rewrite andb_false_r.
  - rewrite andb_true_r. destruct (store_get row inc) eqn:E.
    + rewrite AggregationFacts.store_get_update, E.
      now destruct (String.eqb inc k).
    + rewrite AggregationFacts.store_get_create.
      destruct (String.eqb inc k) eqn:Ek.
      * apply String.eqb_eq in Ek. subst k. now rewrite E.
      * now destruct (store_get row k).
Qed.

Lemma fold_set_property (h : string -> value) (l : list string) :
  forall (row : store value) (k : string),
    store_get (fold_left (fun row inc => set_property row inc (h inc)) l row) k
    = if existsb (String.eqb k) l && negb (String.eqb k "__proto__")
      then Some (h k) else store_get row k.
Proof.
  induction l as [|inc rest IH]; intros row k; [reflexivity|].
  cbn [fold_left existsb]. rewrite IH, store_get_set_property.
  rewrite (String.eqb_sym k inc).
  destruct (String.eqb inc k) eqn:E.
  - apply String.eqb_eq in E. subst inc. cbn [orb andb].
    destruct (String.eqb k "__proto__"); cbn [negb andb];
      [now rewrite andb_false_r | now rewrite andb_true_r; destruct (existsb _ rest)].
  - reflexivity.
Qed.

Lemma strict_eq_text (v : value) (s : string) :
  strict_eq v (VStr s) = true -> v = VStr s.
Proof.
  destruct v; simpl; try discriminate.
  intros H. apply String.eqb_eq in H. now subst.
Qed.

Lemma tied_launched (q : Q) (x y : NormalizedRecord) :
  launched_is q x = true -> launched_is q y = true ->
  goes_after by_launched_desc x y = false.
Proof.
  unfold launched_is. intros Hx Hy. apply Qeq_bool_eq in Hx, Hy.
  apply not_true_iff_false. intros H. apply goes_after_launched in H. lra.
Qed.

Lemma sort_vgvTotal_launched (data : list NormalizedRecord) :
  Forall (fun d => is_nan (Normalizer.vgvTotal d) = false) data ->
  sort Ranking.by_vgvTotal_desc data = sort by_launched_desc data.
Proof.
  intros Hnum. rewrite Forall_forall in Hnum.
  apply SortFacts.sort_ext. intros x y Hx Hy.
  apply goes_after_vgvTotal; now apply Hnum.
Qed.

End RankingFacts.

(** X8. For filtered records whose amounts are whole and add up to at most
    [2 ^ 53] in magnitude, each of the four totals of [kpis] is the sum of
    the field over the records, where a [NaN] counts for nothing: a [NaN]
    in a record does not make the total [NaN]. And [count] is the number of
    filtered records. No addition rounds on the way: what each [reduce] has
    added up after any number of records is a whole number of magnitude at
    most [2 ^ 53]. *)
Theorem kpis_are_sums (filteredData : list NormalizedRecord) :
  Aggregation.adds_exactly vgvTotal filteredData ->
  Aggregation.adds_exactly vgvVendido filteredData ->
  Aggregation.adds_exactly totalUnidades filteredData ->
  Aggregation.adds_exactly unidadesVendidas filteredData ->
  let k := Ranking.kpis filteredData in
  Ranking.vgvTotal k = Num (Qred (Aggregation.sum_of vgvTotal filteredData))
  /\ Ranking.vgvVendido k
     = Num (Qred (Aggregation.sum_of vgvVendido filteredData))
  /\ Ranking.totalUnidades k
     = Num (Qred (Aggregation.sum_of totalUnidades filteredData))
  /\ Ranking.unidadesVendidas k
     = Num (Qred (Aggregation.sum_of unidadesVendidas filteredData))
  /\ Ranking.count k = List.length filteredData
  /\ (forall f done rest,
        In f [vgvTotal; vgvVendido; totalUnidades; unidadesVendidas] ->
        filteredData = (done ++ rest)%list ->
        exists z, Ranking.total f done = int z /\ Z.abs z <= 2 ^ 53).
Proof.
  intros Hlaunched Hsold Hunits Hunits_sold. cbn. unfold Ranking.total.
  rewrite !AggregationFacts.total_from_zero.
  do 5 (split; [reflexivity|]).
  intros f done rest Hf ->.
  rewrite AggregationFacts.total_from_zero.
  apply AggregationFacts.adds_exactly_sum.
  apply (AggregationFacts.adds_exactly_prefix f done rest).
  destruct Hf as [<- | [<- | [<- | [<- | []]]]]; assumption.
Qed.

(** A project of 100 and a project without launched value: the total is
    100. *)
Lemma kpis_are_sums_witness :
  let data :=
    [Aggregation.project "A" 100;
     normalize (frozen 0) (VObj [("vgv_total", VStr "abc")]) 1] in
  Ranking.vgvTotal (Ranking.kpis data) = int 100
  /\ Ranking.count (Ranking.kpis data) = 2%nat.
Proof.
  intros data.
  destruct (kpis_are_sums data) as (Htotal & _ & _ & _ & Hcount & _);
    [by_evaluation..|].
  split; [rewrite Htotal; reflexivity | exact Hcount].
Defined.

(** X9. [topEmpreendimentos] holds the min(10, n) records of [filteredData]
    with the largest launched values, a [NaN] counted as 0, in descending
    order: every listed record has a launched value at least that of every
    record left out, and the records with one launched value come in the
    order they have in [filteredData]. *)
Theorem topEmpreendimentos_ranked (filteredData : list NormalizedRecord) :
  let top := Ranking.topEmpreendimentos filteredData in
  List.length top = Nat.min 10 (List.length filteredData)
  /\ StronglySorted Ranking.outranks top
  /\ (exists rest,
        Permutation filteredData (top ++ rest)%list
        /\ forall a b, In a top -> In b rest -> Ranking.outranks a b)
  /\ (forall q, exists tail,
        filter (Ranking.launched_is q) filteredData
        = (filter (Ranking.launched_is q) top ++ tail)%list).
Proof.
  intros top. subst top. unfold Ranking.topEmpreendimentos.
  pose proof (RankingFacts.sort_launched_ordered filteredData) as Hs.
  split; [|split; [|split]].
  - rewrite length_firstn.
    now rewrite (Permutation_length
                   (AggregationFacts.sort_perm _ Ranking.by_launched_desc
                      filteredData)).
  - now apply SortFacts.sorted_prefix.
  - exists (skipn 10 (sort Ranking.by_launched_desc filteredData)). split.
    + rewrite firstn_skipn. symmetry. apply AggregationFacts.sort_perm.
    + intros a b Ha Hb.
      exact (SortFacts.sorted_prefix_dominates _ _ _ Hs 10%nat a b Ha Hb).
  - intros q.
    exists (filter (Ranking.launched_is q)
              (skipn 10 (sort Ranking.by_launched_desc filteredData))).
    rewrite <- filter_app, firstn_skipn. symmetry.
    apply SortFacts.sort_keeps. apply RankingFacts.tied_launched.
Qed.

(** X10. When no launched value is [NaN], the table of [generatePDF] lists
    min(20, n) records by descending launched value, and its first ten rows
    are [topEmpreendimentos]. *)
Theorem generatePDF_rows_ranked (filteredData : list NormalizedRecord) :
  Forall (fun d => is_nan (vgvTotal d) = false) filteredData ->
  let rows := Ranking.generatePDF_rows filteredData in
  List.length rows = Nat.min 20 (List.length filteredData)
  /\ StronglySorted Ranking.outranks rows
  /\ firstn 10 rows = Ranking.topEmpreendimentos filteredData.
Proof.
  intros Hnum rows. subst rows.
  unfold Ranking.generatePDF_rows, Ranking.topEmpreendimentos.
  rewrite (RankingFacts.sort_vgvTotal_launched filteredData Hnum).
  split; [|split].
  - rewrite length_firstn.
    now rewrite (Permutation_length
                   (AggregationFacts.sort_perm _ Ranking.by_launched_desc
                      filteredData)).
  - apply SortFacts.sorted_prefix.
    apply RankingFacts.sort_launched_ordered.
  - now rewrite firstn_firstn.
Qed.

(** Three projects with launched values 30, 100 and 12. *)
Lemma generatePDF_rows_ranked_witness :
  let data := [Aggregation.project "A" 30; Aggregation.project "B" 100;
               Aggregation.project "C" 12] in
  firstn 10 (Ranking.generatePDF_rows data) = Ranking.topEmpreendimentos data.
Proof.
  intros data. apply (generatePDF_rows_ranked data).
  repeat constructor.
Defined.

(** X11. For filtered records whose type prints and is no name inherited
    from [Object.prototype], and whose launched values are whole and add up
    to at most [2 ^ 53] in magnitude (so that no addition rounds), the
    totals of the series by type, which is not truncated, add up to the
    launched total of [kpis]. *)
Theorem type_series_adds_up (filteredData : list NormalizedRecord) :
  printable tipo filteredData ->
  Aggregation.adds_exactly vgvTotal filteredData ->
  Ranking.plain_types filteredData ->
  Num (Qred (Ranking.series_total (Aggregation.vgvPorTipo filteredData)))
  = Ranking.vgvTotal (Ranking.kpis filteredData).
Proof.
  intros _ _ Hplain. cbn [Ranking.kpis Ranking.vgvTotal].
  unfold Ranking.total.
  rewrite AggregationFacts.total_from_zero. f_equal. apply Qred_complete.
  unfold Aggregation.vgvPorTipo.
  destruct (AggregationFacts.listing_of_groups Aggregation.TipoGroup tipo
              Aggregation.new_tipo_group Aggregation.add_to_tipo_group
              (Aggregation.tipo_group_of filteredData) filteredData
              (AggregationFacts.folded_tipo_group filteredData))
    as [Hperm _].
  rewrite (RankingFacts.series_total_perm _ _ Hperm).
  rewrite RankingFacts.series_total_groups.
  now apply RankingFacts.groups_partition.
Qed.

(** Two projects of type A and one of type B: 42 and 100 add up to 142. *)
Lemma type_series_adds_up_witness :
  let data := [Aggregation.project "A" 30; Aggregation.project "B" 100;
               Aggregation.project "A" 12] in
  Num (Qred (Ranking.series_total (Aggregation.vgvPorTipo data)))
  = Ranking.vgvTotal (Ranking.kpis data).
Proof.
  intros data. apply (type_series_adds_up data); [by_evaluation..|].
  intros d [<- | [<- | [<- | []]]]; reflexivity.
Defined.

(** X12. For filtered records whose developer prints and is no name
    inherited from [Object.prototype], and whose launched values are whole
    and add up to at most [2 ^ 53] in magnitude (so that no addition
    rounds), [topIncorporadoras] lists min(6, number of developers) distinct
    developers of the filtered records, by descending launched total, and
    every developer left out has a launched total at most that of every
    listed one. *)
Theorem topIncorporadoras_ranked (inherited_text : string -> string)
  (filteredData : list NormalizedRecord) :
  printable incorporadora filteredData ->
  Aggregation.adds_exactly vgvTotal filteredData ->
  Ranking.plain_developers filteredData ->
  let top := Ranking.topIncorporadoras inherited_text filteredData in
  let total := Ranking.developer_total filteredData in
  List.length top
  = Nat.min 6
      (List.length (Aggregation.group_keys incorporadora filteredData))
  /\ NoDup top
  /\ (forall k, In k top ->
        exists d, In d filteredData /\ Aggregation.key_of incorporadora d = k)
  /\ StronglySorted (fun a b => (total b <= total a)%Q) top
  /\ (forall a d, In a top -> In d filteredData ->
        ~ In (Aggregation.key_of incorporadora d) top ->
        (total (Aggregation.key_of incorporadora d) <= total a)%Q).
Proof.
  intros _ _ Hplain top total. subst top total.
  unfold Ranking.topIncorporadoras.
  destruct (RankingFacts.tally_entries inherited_text filteredData Hplain)
    as [Hkeys Hvals].
  set (g := Ranking.tally inherited_text filteredData) in *.
  set (s := sort Ranking.by_tally_desc (Ranking.object_entries g)).
  assert (Hperm : Permutation s g).
  { subst s. rewrite AggregationFacts.sort_perm.
    apply RankingFacts.object_entries_perm. }
  set (ok := fun e : string * value =>
               snd e = VNum (Num (Qred (Ranking.developer_total filteredData
                                          (fst e))))).
  set (before := fun a b : string * value =>
                   (Ranking.developer_total filteredData (fst b)
                    <= Ranking.developer_total filteredData (fst a))%Q).
  assert (Hok : Forall ok (Ranking.object_entries g)).
  { apply Forall_forall. intros e He. apply Hvals.
    exact (Permutation_in e (RankingFacts.object_entries_perm _ g) He). }
  assert (Hs : StronglySorted before s).
  { subst s.
    apply (SortFacts.sort_ordered _ Ranking.by_tally_desc ok before);
      [| | |exact Hok].
    - unfold before. intros x y z Hxy Hyz. lra.
    - intros x y Hx Hy H. unfold before. apply Qnot_lt_le. intros Hlt.
      apply not_true_iff_false in H. apply H.
      apply (RankingFacts.goes_after_tally x y _ _ Hx Hy).
      now rewrite !Qred_correct.
    - intros x y Hx Hy H.
      apply (RankingFacts.goes_after_tally x y _ _ Hx Hy) in H.
      rewrite !Qred_correct in H. unfold before. lra. }
  assert (Hnd : NoDup (map fst s)).
  { apply (Permutation_NoDup (Permutation_map fst (Permutation_sym Hperm))).
    rewrite Hkeys. apply AggregationFacts.first_occurrences_NoDup. }
  assert (Hin : forall k, In k (map fst s)
                          <-> In k (Aggregation.group_keys incorporadora
                                      filteredData)).
  { intros k. rewrite <- Hkeys. split; apply Permutation_in;
      [apply Permutation_map; exact Hperm
      | apply Permutation_map; exact (Permutation_sym Hperm)]. }
  split; [|split; [|split; [|split]]].
  - rewrite length_map, length_firstn, (Permutation_length Hperm).
    now rewrite <- Hkeys, length_map.
  - rewrite <- firstn_map. now apply SortFacts.NoDup_firstn.
  - intros k Hk. rewrite <- firstn_map in Hk.
    assert (Hk' : In k (map fst s)).
    { rewrite <- (firstn_skipn 6 (map fst s)). apply in_or_app. now left. }
    apply Hin in Hk'. unfold Aggregation.group_keys in Hk'.
    apply AggregationFacts.first_occurrences_In, filter_In in Hk'.
    destruct Hk' as [Hk' _]. apply in_map_iff in Hk'.
    destruct Hk' as (d & Hd & Hdin). now exists d.
  - apply SortFacts.StronglySorted_map.
    now apply SortFacts.sorted_prefix.
  - intros a d Ha Hd Hnot.
    apply in_map_iff in Ha. destruct Ha as (ea & <- & Hea).
    assert (Hkey : In (Aggregation.key_of incorporadora d) (map fst s)).
    { apply Hin. unfold Aggregation.group_keys.
      apply AggregationFacts.first_occurrences_In, filter_In. split.
      - apply in_map_iff. now exists d.
      - now rewrite (Hplain d Hd). }
    apply in_map_iff in Hkey. destruct Hkey as (e & He & Hes).
    rewrite <- He.
    apply (SortFacts.sorted_prefix_dominates _ before s Hs 6%nat ea e Hea).
    rewrite <- (firstn_skipn 6 s) in Hes. apply in_app_or in Hes.
    destruct Hes as [Hes | Hes]; [|exact Hes].
    exfalso. apply Hnot. rewrite <- He. apply in_map_iff. now exists e.
Qed.

(** Two developers, the first with two projects. *)
Lemma topIncorporadoras_ranked_witness :
  let developer (name : string) (launched : Z) :=
    normalize (frozen 0)
      (VObj [("incorporadora", VStr name); ("vgv_total", vint launched)]) 0 in
  let data := [developer "Alfa" 30; developer "Beta" 100; developer "Alfa" 90] in
  StronglySorted
    (fun a b => (Ranking.developer_total data b
                 <= Ranking.developer_total data a)%Q)
    (Ranking.topIncorporadoras (fun _ => "") data).
Proof.
  intros developer data.
  apply (topIncorporadoras_ranked (fun _ => "") data); [by_evaluation..|].
  intros d [<- | [<- | [<- | []]]]; reflexivity.
Defined.

(** X13. For years that are numbers and filtered records whose launched
    values are whole and add up to at most [2 ^ 53] in magnitude (so that
    no addition rounds), [evolucaoIncorporadoras] returns one row for each
    year, by ascending year. In a row, every developer of
    [topIncorporadoras] holds the sum of the launched values of the
    filtered records of that year whose developer is that text, hence 0
    when no record has that text as developer (as for a developer that is
    not a string); and [ano] holds the year as a text unless a developer is
    named [ano]. *)
Theorem evolucaoIncorporadoras_rows (anosLancamento : list value)
  (topIncorporadoras : list string) (filteredData : list NormalizedRecord) :
  Forall Panel.is_number anosLancamento ->
  Aggregation.adds_exactly vgvTotal filteredData ->
  exists rows,
    Ranking.evolucaoIncorporadoras anosLancamento topIncorporadoras
      filteredData = Ok rows
    /\ List.length rows = List.length anosLancamento
    /\ StronglySorted Panel.number_before
         (sort Panel.ascending anosLancamento)
    /\ forall n row,
         nth_error rows n = Some row ->
         exists ano,
           nth_error (sort Panel.ascending anosLancamento) n = Some ano
           /\ (~ In "ano" topIncorporadoras ->
               store_get row "ano" = Some (VStr (to_string ano)))
           /\ forall inc,
                In inc topIncorporadoras -> inc <> "__proto__" ->
                store_get row inc
                = Some (VNum (Num (Qred (Aggregation.sum_of vgvTotal
                                           (Ranking.launched_in ano inc
                                              filteredData)))))
                /\ ((forall d, In d filteredData ->
                               incorporadora d <> VStr inc) ->
                    store_get row inc = Some (vint 0)).
Proof.
  intros Hnum _. unfold Ranking.evolucaoIncorporadoras.
  pose proof (AggregationFacts.sort_perm _ Panel.ascending anosLancamento)
    as Hperm.
  assert (Hnone : existsb nullish (sort Panel.ascending anosLancamento)
                  = false).
  { apply not_true_iff_false. intros H. apply existsb_exists in H.
    destruct H as (a & Ha & Hnull).
    apply (Permutation_in a Hperm) in Ha.
    rewrite Forall_forall in Hnum. destruct (Hnum a Ha) as [q ->].
    discriminate Hnull. }
  rewrite Hnone. eexists. split; [reflexivity|]. split; [|split].
  - rewrite length_map. exact (Permutation_length Hperm).
  - now apply PanelFacts.sort_ascending_ordered.
  - intros n row Hrow. rewrite nth_error_map in Hrow.
    destruct (nth_error (sort Panel.ascending anosLancamento) n)
      as [ano|]; [|discriminate].
    injection Hrow as <-. exists ano. split; [reflexivity|].
    assert (Hin : forall k, existsb (String.eqb k) topIncorporadoras = true
                            <-> In k topIncorporadoras).
    { intros k. rewrite existsb_exists. split.
      - intros (x & Hx & E). apply String.eqb_eq in E. now subst.
      - intros H. exists k. split; [exact H | apply String.eqb_refl]. }
    unfold Ranking.evolution_row. split.
    + intros Hnot.
      rewrite (RankingFacts.fold_set_property
                 (fun inc => VNum (Ranking.total vgvTotal
                                     (Ranking.launched_in ano inc filteredData)))).
      destruct (existsb (String.eqb "ano") topIncorporadoras) eqn:E.
      * apply Hin in E. contradiction.
      * reflexivity.
    + intros inc Hinc Hproto.
      rewrite (RankingFacts.fold_set_property
                 (fun inc => VNum (Ranking.total vgvTotal
                                     (Ranking.launched_in ano inc filteredData)))).
      apply Hin in Hinc. rewrite Hinc.
      apply String.eqb_neq in Hproto. rewrite Hproto. cbn [negb andb].
      unfold Ranking.total. rewrite AggregationFacts.total_from_zero.
      split; [reflexivity|]. intros Hother.
      assert (Hempty : Ranking.launched_in ano inc filteredData = []).
      { unfold Ranking.launched_in.
        induction filteredData as [|d rest IH]; [reflexivity|].
        simpl. destruct (strict_eq (incorporadora d) (VStr inc)) eqn:E.
        - apply RankingFacts.strict_eq_text in E.
          exfalso. exact (Hother d (or_introl eq_refl) E).
        - rewrite andb_false_r. apply IH.
          intros d' Hd'. apply Hother. now right. }
      rewrite Hempty. reflexivity.
Qed.

(** Two years and two developers. *)
Lemma evolucaoIncorporadoras_rows_witness :
  let developer (name : string) (year launched : Z) :=
    normalize (frozen 0)
      (VObj [("incorporadora", VStr name); ("ano_lancamento", vint year);
             ("vgv_total", vint launched)]) 0 in
  let data := [developer "Alfa" 2024 30; developer "Beta" 2023 100;
               developer "Alfa" 2024 90] in
  exists rows,
    Ranking.evolucaoIncorporadoras [vint 2024; vint 2023] ["Alfa"; "Beta"] data
    = Ok rows
    /\ List.length rows = 2%nat.
Proof.
  intros developer data.
  destruct (evolucaoIncorporadoras_rows [vint 2024; vint 2023]
              ["Alfa"; "Beta"] data) as (rows & Hrows & Hlen & _).
  - repeat constructor; eexists; reflexivity.
  - by_evaluation.
  - exists rows. split; [exact Hrows | exact Hlen].
Defined.

(* ====================================================================== *)
(** * The synchronisation                                                  *)
(* ====================================================================== *)

Module SyncFacts.
Import Session Client Sync.

Section ExchangeFacts.

Variable jwt_payload : value -> option value.
Variable net : Network.

(** A request returns what the first answer it does not ask again for
    says, after one invalidation of the token for each answer before it. *)
Lemma request_from_settles (e : string) :
  forall k fuel retryCount w r,
    (S k <= fuel)%nat ->
    idle w ->
    logins_succeed net ->
    (forall j a, (j < k)%nat ->
       retried (retryCount + j) (page_response net (fetches w + j) e a)
       = true) ->
    (forall a, page_response net (fetches w + k) e a = r) ->
    retried (retryCount + k) r = false ->
    exists w',
      request_from jwt_payload net fuel e retryCount w
      = Some (answer_of r, w')
      /\ effect e w w' (S k) k.
Proof.
  induction k as [|k IH]; intros fuel rc w r Hfuel Hw Hnet Hretry Hfinal Hr;
    (destruct fuel as [|fuel]; [lia|]);
    cbn [request_from]; unfold bind at 1;
    destruct (ClientFacts.ensureValidToken_effect jwt_payload net e w Hw)
      as (r1 & w1 & -> & E1 & Hok1);
    destruct (Hok1 Hnet) as [t ->];
    unfold bind at 1;
    destruct (ClientFacts.fetch_page_effect net e w1 (proj1 E1))
      as (r2 & w2 & -> & E2 & a & Ha);
    pose proof (ClientFacts.effect_trans e w w1 w2 0 1 0 0 E1 E2) as E12;
    assert (Hf1 : fetches w1 = fetches w)
      by (destruct E1 as (_ & F & _); lia);
    rewrite Hf1 in Ha.
  - rewrite Nat.add_0_r in Hfinal, Hr. rewrite Hfinal in Ha.
    exists w2. split; [|exact E12].
    destruct r as [|status body]; subst r2; [reflexivity|].
    cbn [fst snd]. cbn [retried] in Hr. rewrite Hr.
    cbn [answer_of]. destruct (negb (ok status)); [reflexivity|].
    now destruct body.
  - pose proof (Hretry 0%nat a ltac:(lia)) as H0.
    rewrite !Nat.add_0_r in H0.
    destruct (page_response net (fetches w) e a) as [|status body];
      [discriminate H0|].
    subst r2. cbn [fst snd]. cbn [retried] in H0. rewrite H0.
    unfold bind at 1.
    destruct (ClientFacts.invalidate_effect jwt_payload e w2 (proj1 E2))
      as (w3 & -> & E3).
    pose proof (ClientFacts.effect_trans e w w2 w3 1 0 0 1 E12 E3) as E123.
    unfold bind at 1.
    destruct (ClientFacts.login_effect jwt_payload net e w3 (proj1 E3))
      as (r4 & w4 & -> & E4 & Hok4).
    pose proof (ClientFacts.effect_trans e w w3 w4 1 0 1 0 E123 E4) as E1234.
    destruct (Hnet (loginCalls (runtime w3))) as (st & data & E & Hst & Hd).
    rewrite (Hok4 st data E Hst Hd).
    assert (Hf4 : fetches w4 = S (fetches w))
      by (destruct E1234 as (_ & F & _); lia).
    destruct (IH fuel (S rc) w4 r ltac:(lia) (proj1 E4) Hnet)
      as (w' & -> & E5).
    + intros j a' Hj. rewrite Hf4.
      replace (S rc + j)%nat with (rc + S j)%nat by lia.
      replace (S (fetches w) + j)%nat with (fetches w + S j)%nat by lia.
      apply Hretry. lia.
    + intros a'. rewrite Hf4.
      replace (S (fetches w) + k)%nat with (fetches w + S k)%nat by lia.
      apply Hfinal.
    + now replace (S rc + k)%nat with (rc + S k)%nat by lia.
    + exists w'. split; [reflexivity|].
      exact (ClientFacts.effect_trans e w w4 w' 1 (S k) 1 k E1234 E5).
Qed.

(** ** What the requests leave alone *)

Lemma silent_bind (A B : Type) (c : M A) (k : A -> M B) :
  silent c -> (forall a, silent (k a)) -> silent (bind c k).
Proof.
  intros Hc Hk w r w' H. unfold bind in H.
  destruct (c w) as [[[a|e] w1]|] eqn:E; [| |discriminate].
  - rewrite (Hk a w1 r w' H). exact (Hc w _ w1 E).
  - injection H as <- <-. exact (Hc w _ w1 E).
Qed.

Lemma silent_login : silent (login jwt_payload net).
Proof.
  intros w r w' H. unfold login in H.
  destruct (settlement _ _) as [r0|]; [|discriminate].
  injection H as <- <-. cbn [set_runtime observed].
  now destruct (refreshPromise (service (runtime w))).
Qed.

Lemma silent_ensureValidToken : silent (ensureValidToken jwt_payload net).
Proof.
  intros w r w' H. unfold ensureValidToken in H.
  destruct (isTokenExpired _ _).
  - revert H. apply silent_bind; [apply silent_login|].
    intros _ w1 r1 w1' H1. unfold ret in H1. now injection H1 as <- <-.
  - unfold ret in H. now injection H as <- <-.
Qed.

Lemma silent_fetch_page (e : string) : silent (fetch_page net e).
Proof.
  intros w r w' H. unfold fetch_page in H.
  destruct (page_response _ _ _ _); now injection H as <- <-.
Qed.

Lemma silent_request_from (e : string) :
  forall fuel retryCount,
    silent (request_from jwt_payload net fuel e retryCount).
Proof.
  induction fuel as [|fuel IH]; intros rc; [intros w r w' H; discriminate|].
  cbn [request_from].
  apply silent_bind; [apply silent_ensureValidToken|]. intros _.
  apply silent_bind; [apply silent_fetch_page|]. intros res.
  destruct ((fst res =? 401) && (rc <? 2)%nat).
  - apply silent_bind.
    + intros w r w' H. unfold invalidate in H. now injection H as <- <-.
    + intros _. apply silent_bind; [apply silent_login|]. intros _. apply IH.
  - destruct (negb (ok (fst res))).
    + intros w r w' H. unfold throw in H. now injection H as <- <-.
    + destruct (snd res); intros w r w' H; unfold ret, throw in H;
        now injection H as <- <-.
Qed.

End ExchangeFacts.

(** ** The walk up to a page that ends it *)

Section Pages.

Variable request : string -> M value.
Variable onProgress : option (Progress -> World -> World).
Variable Inv : World -> Prop.
Variable resp : nat -> value.

(** The pages before [bound] are answered with pages that carry a list of
    records. *)
Variable bound : nat.

Hypothesis request_answers :
  forall p w, (1 <= p < bound)%nat -> Inv w ->
    exists w', request (endpoint_of p) w = Some (Ok (resp p), w') /\ Inv w'.

Hypothesis progress_keeps :
  forall callback pr w,
    onProgress = Some callback -> Inv w -> Inv (callback pr w).

Hypothesis pages_carry_lists :
  forall p, (1 <= p < bound)%nat ->
    exists items, get (resp p) "data" = VArr items.

Lemma continue_below (page : nat) (allData : list value) (w : World) :
  (1 <= page < bound)%nat -> Inv w ->
  ~ stops_at page (resp page) ->
  exists w',
    Inv w'
    /\ forall fuel,
         fetch_pages request onProgress (S fuel) allData page w
         = fetch_pages request onProgress fuel
             (allData ++ records_of resp page 1)%list (S page) w'.
Proof.
  intros Hpage Hw Hgo.
  destruct (request_answers page w Hpage Hw) as (w1 & Hreq & Hw1).
  destruct (pages_carry_lists page Hpage) as [items Hitems].
  assert (Hdec : no_data (resp page) || negb (hasMore page (resp page))
                 = false).
  { apply not_true_iff_false. intros H.
    apply Hgo. now apply (ClientFacts.stops_at_decision page (resp page) items). }
  apply orb_false_iff in Hdec. destruct Hdec as [Hdata Hmore].
  assert (Hnull : nullish (resp page) = false).
  { destruct (resp page); try discriminate Hitems; reflexivity. }
  set (pr := {| loaded := List.length (allData ++ items)%list;
                total := get (get (resp page) "meta") "total"
                         ||| vint (Z.of_nat (List.length (allData ++ items)%list));
                Client.page := page |}).
  assert (Hrep : exists w2, report onProgress pr w1 = Some (Ok tt, w2)
                            /\ Inv w2).
  { unfold report. destruct onProgress as [callback|] eqn:E.
    - eexists. split; [reflexivity|]. now apply (progress_keeps callback).
    - now exists w1. }
  destruct Hrep as (w2 & Hrep & Hw2).
  exists w2. split; [exact Hw2|]. intros fuel.
  cbn [fetch_pages records_of]. unfold bind at 1.
  rewrite Hreq, Hnull, Hdata, Hitems. cbn [spread].
  unfold bind at 1. fold pr. rewrite Hrep, Hmore. now rewrite app_nil_r.
Qed.

(** The walk reaches the page [bound] with the records of the pages
    before it. *)
Lemma reach_bound (n : nat) :
  forall page allData w,
    (1 <= page)%nat -> (page + n = bound)%nat -> Inv w ->
    (forall p, (page <= p < bound)%nat -> ~ stops_at p (resp p)) ->
    exists w',
      Inv w'
      /\ forall fuel,
           fetch_pages request onProgress (n + fuel) allData page w
           = fetch_pages request onProgress fuel
               (allData ++ records_of resp page n)%list bound w'.
Proof.
  induction n as [|n IH]; intros page allData w Hpage Hsum Hw Hgo.
  - exists w. split; [exact Hw|]. intros fuel. simpl.
    rewrite app_nil_r. now replace bound with page by lia.
  - destruct (continue_below page allData w ltac:(lia) Hw
                (Hgo page ltac:(lia))) as (w1 & Hw1 & Hstep).
    destruct (IH (S page) (allData ++ records_of resp page 1)%list w1
                ltac:(lia) ltac:(lia) Hw1) as (w' & Hw' & Hrun).
    { intros p Hp. apply Hgo. lia. }
    exists w'. split; [exact Hw'|]. intros fuel.
    cbn [Nat.add]. rewrite Hstep, Hrun. f_equal.
    simpl. now rewrite <- !app_assoc.
Qed.

(** One turn of the loop, by the answer to its request. *)
Lemma fetch_pages_answer (fuel : nat) (allData : list value) (page : nat)
  (w w1 : World) (answer : result value) :
  request (endpoint_of page) w = Some (answer, w1) ->
  (forall err, answer = Throw err ->
     fetch_pages request onProgress (S fuel) allData page w
     = Some (Throw err, w1))
  /\ (forall response, answer = Ok response -> nullish response = true ->
        fetch_pages request onProgress (S fuel) allData page w
        = Some (Throw TypeError, w1))
  /\ (forall response, answer = Ok response -> nullish response = false ->
        no_data response = true ->
        fetch_pages request onProgress (S fuel) allData page w
        = Some (Ok allData, w1))
  /\ (forall response, answer = Ok response -> nullish response = false ->
        no_data response = false ->
        spread (get response "data") = Throw TypeError ->
        fetch_pages request onProgress (S fuel) allData page w
        = Some (Throw TypeError, w1)).
Proof.
  intros Hreq. repeat split.
  - intros err ->. cbn [fetch_pages]. unfold bind at 1. now rewrite Hreq.
  - intros response -> Hn. cbn [fetch_pages]. unfold bind at 1.
    now rewrite Hreq, Hn.
  - intros response -> Hn Hd. cbn [fetch_pages]. unfold bind at 1.
    now rewrite Hreq, Hn, Hd.
  - intros response -> Hn Hd Hs. cbn [fetch_pages]. unfold bind at 1.
    now rewrite Hreq, Hn, Hd, Hs.
Qed.

End Pages.

(** ** The reports of the walk *)

Lemma progress_of_split (resp : nat -> value) (n : nat) :
  forall first loaded,
    progress_of resp first (S n) loaded
    = (progress_of resp first 1 loaded
       ++ progress_of resp (S first) n
            (loaded + List.length (records_of resp first 1)))%list.
Proof.
  intros first loaded. cbn [progress_of records_of].
  destruct (get (resp first) "data") as [| |b|x|t|[|x rest]|fs];
    cbn [app List.length]; rewrite ?Nat.add_0_r; try reflexivity.
  now rewrite app_nil_r.
Qed.

Section Reports.

Variable request : string -> M value.
Variable Inv : World -> Prop.
Variable resp : nat -> value.

Hypothesis request_answers :
  forall p w, Inv w ->
    exists w', request (endpoint_of p) w = Some (Ok (resp p), w') /\ Inv w'.

Hypothesis request_is_silent : keeps_observed request.

Hypothesis report_keeps :
  forall pr w, Inv w -> Inv (setLoadingProgress pr w).

Hypothesis pages_carry_lists :
  forall p, exists items, get (resp p) "data" = VArr items.

(** One turn of the loop: the page is reported when it holds records, and
    the walk goes on or returns. *)
Lemma reported_turn (page : nat) (allData : list value) (w : World) :
  Inv w ->
  exists w',
    Inv w'
    /\ observed w'
       = (observed w ++ progress_of resp page 1 (List.length allData))%list
    /\ forall fuel,
         fetch_pages request (Some setLoadingProgress) (S fuel) allData page w
         = if no_data (resp page) || negb (hasMore page (resp page))
           then Some (Ok (allData ++ records_of resp page 1)%list, w')
           else fetch_pages request (Some setLoadingProgress) fuel
                  (allData ++ records_of resp page 1)%list (S page) w'.
Proof.
  intros Hw.
  destruct (request_answers page w Hw) as (w1 & Hreq & Hw1).
  pose proof (request_is_silent _ w _ w1 Hreq) as Hobs.
  destruct (pages_carry_lists page) as [items Hitems].
  assert (Hnull : nullish (resp page) = false).
  { destruct (resp page); try discriminate Hitems; reflexivity. }
  destruct items as [|x rest].
  - exists w1. split; [exact Hw1|]. split.
    + cbn [progress_of]. rewrite Hitems, Hobs. now rewrite app_nil_r.
    + intros fuel. cbn [fetch_pages records_of]. unfold bind at 1.
      rewrite Hreq, Hnull.
      assert (Hdata : no_data (resp page) = true).
      { unfold no_data. rewrite Hitems. reflexivity. }
      rewrite Hdata, Hitems. cbn [orb]. now rewrite !app_nil_r.
  - assert (Hdata : no_data (resp page) = false).
    { unfold no_data. rewrite Hitems. cbn [truthy negb orb length_of].
      rewrite ClientFacts.strict_eq_vint. apply Z.eqb_neq.
      cbn [List.length]. lia. }
    exists (setLoadingProgress
              {| loaded := List.length (allData ++ x :: rest)%list;
                 total := get (get (resp page) "meta") "total"
                          ||| vint (Z.of_nat
                                      (List.length (allData ++ x :: rest)%list));
                 Client.page := page |} w1).
    split; [|split].
    + apply (report_keeps _ w1 Hw1).
    + cbn [setLoadingProgress observed progress_of]. rewrite Hitems, Hobs.
      rewrite <- length_app. reflexivity.
    + intros fuel. cbn [fetch_pages records_of]. unfold bind at 1.
      rewrite Hreq, Hnull, Hdata, Hitems. cbn [spread orb].
      unfold bind at 1. cbn [report]. rewrite !app_nil_r.
      now destruct (negb (hasMore page (resp page))).
Qed.

Lemma reported_until (count : nat) :
  forall page allData w,
    Inv w ->
    (forall p, (page <= p < page + count)%nat -> ~ stops_at p (resp p)) ->
    stops_at (page + count) (resp (page + count)) ->
    exists w',
      (forall fuel, (S count <= fuel)%nat ->
          fetch_pages request (Some setLoadingProgress) fuel allData page w
          = Some (Ok (allData ++ records_of resp page (S count))%list, w'))
      /\ observed w'
         = (observed w
            ++ progress_of resp page (S count) (List.length allData))%list.
Proof.
  induction count as [|count IH]; intros page allData w Hw Hgo Hstop;
    destruct (reported_turn page allData w Hw) as (w1 & Hw1 & Hobs & Hturn);
    destruct (pages_carry_lists page) as [items Hitems].
  - rewrite Nat.add_0_r in Hstop.
    apply (ClientFacts.stops_at_decision page (resp page) items Hitems)
      in Hstop.
    exists w1. split; [|exact Hobs].
    intros [|fuel] Hfuel; [lia|]. now rewrite Hturn, Hstop.
  - assert (Hdec : no_data (resp page) || negb (hasMore page (resp page))
                   = false).
    { apply not_true_iff_false. intros H.
      apply (Hgo page ltac:(lia)).
      now apply (ClientFacts.stops_at_decision page (resp page) items). }
    destruct (IH (S page) (allData ++ records_of resp page 1)%list w1 Hw1)
      as (w' & Hsome & Hobs').
    + intros p Hp. apply Hgo. lia.
    + now replace (S page + count)%nat with (page + S count)%nat by lia.
    + exists w'. split.
      * intros [|fuel] Hfuel; [lia|]. rewrite Hturn, Hdec, Hsome by lia.
        do 2 f_equal. f_equal. simpl. now rewrite <- !app_assoc.
      * rewrite Hobs', Hobs, <- app_assoc. f_equal.
        rewrite (progress_of_split resp (S count)). f_equal. f_equal.
        apply length_app.
Qed.

End Reports.

(** The last report says how many records the walk has read. *)
Lemma progress_of_total (resp : nat -> value) (count : nat) :
  forall first loaded,
    (forall pr, In pr (progress_of resp first count loaded) ->
       (first <= page pr < first + count)%nat
       /\ (loaded < Client.loaded pr
           <= loaded + List.length (records_of resp first count))%nat)
    /\ (records_of resp first count <> [] ->
        exists before pr,
          progress_of resp first count loaded = (before ++ [pr])%list
          /\ Client.loaded pr
             = (loaded + List.length (records_of resp first count))%nat).
Proof.
  induction count as [|count IH]; intros first loaded.
  - split; [intros pr [] | intros H; now contradiction H].
  - cbn [progress_of records_of].
    destruct (get (resp first) "data") as [| |b|x|t|[|x rest]|fs];
      try (cbn [app]; destruct (IH (S first) loaded) as [Hall Hlast]; split;
           [ intros pr Hpr; destruct (Hall pr Hpr); lia
           | exact Hlast ]).
    destruct (IH (S first) (loaded + List.length (x :: rest))%nat)
      as [Hall Hlast].
    split.
    + intros pr [<- | Hpr].
      * cbn [page Client.loaded]. rewrite length_app.
        cbn [List.length]. lia.
      * destruct (Hall pr Hpr). rewrite length_app.
        cbn [List.length] in *. lia.
    + intros _.
      destruct (records_of resp (S first) count) as [|y more] eqn:E.
      * eexists [], _. split.
        -- cbn [app]. f_equal.
           destruct (progress_of resp (S first) count
                       (loaded + List.length (x :: rest))) as [|pr l] eqn:P;
             [reflexivity|].
           destruct (Hall pr (or_introl eq_refl)) as [_ H].
           cbn [List.length] in H. lia.
        -- cbn [Client.loaded]. now rewrite app_nil_r.
      * destruct Hlast as (before & pr & Hsplit & Hloaded); [discriminate|].
        eexists (_ :: before), pr. split.
        -- rewrite Hsplit. reflexivity.
        -- rewrite Hloaded, length_app. cbn [List.length]. lia.
Qed.

End SyncFacts.



(** X15. [request] sends a login request first exactly when the token is
    missing or expired. The page request carries [Bearer] followed by the
    token as a text, for a token that prints ([undefined] included: a login
    answer without token gives [Bearer undefined]; a token that is an object
    with an own [toString] makes the template literal throw); and when the
    login fails, its error is thrown and no page request is sent. *)
Theorem request_logs_in_only_when_expired
  (jwt_payload : value -> option value) (net : Network) (endpoint : string)
  (retryCount : nat) (w : World) (r : Session.fetch_result) :
  idle w ->
  (forall a, page_response net (fetches w) endpoint a = r) ->
  Sync.retried retryCount r = false ->
  (Session.isTokenExpired (Session.service (runtime w)) (now net w) = false ->
   prints (Session.token (Session.service (runtime w))) = true ->
   exists w',
     request jwt_payload net endpoint retryCount w
     = Some (Sync.answer_of r, w')
     /\ log w'
        = (log w
           ++ [GetPage endpoint
                 ("Bearer "
                  ++ to_string (Session.token (Session.service (runtime w))))])%list)
  /\ (Session.isTokenExpired (Session.service (runtime w)) (now net w) = true ->
      exists w',
        match Sync.login_outcome
                (login_response net (Session.loginCalls (runtime w))) with
        | Ok t =>
            prints t = true ->
            request jwt_payload net endpoint retryCount w
            = Some (Sync.answer_of r, w')
            /\ log w'
               = (log w ++ [PostLogin;
                            GetPage endpoint ("Bearer " ++ to_string t)])%list
        | Throw err =>
            request jwt_payload net endpoint retryCount w
            = Some (Throw err, w')
            /\ log w' = (log w ++ [PostLogin])%list
            /\ fetches w' = fetches w
        end).
Proof.
  intros Hw Hr Hfinal.
  assert (Hrest : forall w1 : World,
            idle w1 -> fetches w1 = fetches w ->
            exists w',
              (res <- fetch_page net endpoint ;;
               if (fst res =? 401) && (retryCount <? 2)%nat then
                 invalidate jwt_payload ;;;
                 login jwt_payload net ;;;
                 request_from jwt_payload net (2 - retryCount) endpoint
                   (S retryCount)
               else if negb (Session.ok (fst res))
                    then throw (ApiError (fst res))
               else match snd res with
                    | Some v => ret v
                    | None => throw SyntaxError
                    end) w1
              = Some (Sync.answer_of r, w')
              /\ log w'
                 = (log w1
                    ++ [GetPage endpoint
                          ("Bearer "
                           ++ to_string
                                (Session.token
                                   (Session.service (runtime w1))))])%list).
  { intros w1 Hw1 Hf1.
    destruct (ClientFacts.fetch_page_returns net endpoint w1 Hw1)
      as (w2 & Hfetch & _ & Hlog & _).
    rewrite Hf1, Hr in Hfetch.
    exists w2. split; [|exact Hlog].
    unfold bind. rewrite Hfetch.
    destruct r as [|status body]; [reflexivity|].
    cbn [fst snd]. cbn [Sync.retried] in Hfinal. rewrite Hfinal.
    cbn [Sync.answer_of]. destruct (negb (Session.ok status)); [reflexivity|].
    now destruct body. }
  unfold request. cbn [request_from]. split; intros Hexp.
  - intros _. destruct (Hrest w Hw eq_refl) as (w' & Hrun & Hlog).
    exists w'. split; [|exact Hlog].
    unfold bind at 1. unfold ensureValidToken. rewrite Hexp.
    unfold ret at 1. exact Hrun.
  - destruct (ClientFacts.login_returns jwt_payload net w Hw)
      as (w1 & m & Hlogin & Hw1 & Hlog1 & Hf1 & _ & _ & Hserv).
    destruct (Sync.login_outcome
                (login_response net (Session.loginCalls (runtime w))))
      as [t|err] eqn:Eout.
    + destruct (Hrest w1 Hw1 Hf1) as (w' & Hrun & Hlog).
      exists w'. intros _. split.
      * unfold bind at 1. unfold ensureValidToken. rewrite Hexp.
        unfold bind at 1. rewrite Hlogin. unfold ret at 1. exact Hrun.
      * rewrite Hlog, Hlog1, Hserv, <- app_assoc. reflexivity.
    + exists w1. split; [|split; assumption].
      unfold bind at 1. unfold ensureValidToken. rewrite Hexp.
      unfold bind at 1. now rewrite Hlogin.
Qed.

(** A login answered with an empty object: the page request is sent with the
    token [undefined]. *)
Lemma request_logs_in_only_when_expired_witness :
  let net :=
    {| login_response := fun _ => Session.Response 200 (Some (VObj []));
       page_response := fun _ _ _ => Session.Response 200 (Some (page_of 0));
       time := fun _ => 0 |} in
  exists w',
    request (fun _ => None) net (endpoint_of 1) 0 initial
    = Some (Ok (page_of 0), w')
    /\ log w' = [PostLogin; GetPage (endpoint_of 1) "Bearer undefined"].
Proof.
  intros net.
  destruct (request_logs_in_only_when_expired (fun _ => None) net
              (endpoint_of 1) 0 initial
              (Session.Response 200 (Some (page_of 0))))
    as [_ Hexpired].
  - split; [apply SessionFacts.consistent_start | reflexivity].
  - reflexivity.
  - reflexivity.
  - destruct (Hexpired eq_refl) as (w' & Hrun).
    exists w'. exact (Hrun eq_refl).
Defined.

(** X16. A token whose payload cannot be decoded expires 50 minutes after
    the login: [isTokenExpired] is true from 49 minutes after the login on,
    and false before. A token whose payload decodes but holds no numeric
    [exp] ([exp] missing, or a readable value that is not a number: an
    object with an own [toString] throws inside the [try] and falls back on
    the 50 minutes, and the text [-Infinity] is an expiry in the past) gets
    the expiry [NaN] and is never reported expired. *)
Theorem token_expiry_fallback (jwt_payload : value -> option value)
  (s : Session.Service) (tok : value) (loginTime now : Z) :
  truthy tok = true ->
  let s' := Sync.logged_in jwt_payload s tok loginTime in
  ((jwt_payload tok = None
    \/ exists payload, jwt_payload tok = Some payload
                       /\ nullish payload = true) ->
   (Session.isTokenExpired s' now = true <-> loginTime + 2940000 <= now))
  /\ (forall payload,
        jwt_payload tok = Some payload -> nullish payload = false ->
        readable (get payload "exp") = true ->
        to_number (get payload "exp") = NaN ->
        Session.isTokenExpired s' now = false).
Proof.
  intros Htok s'. subst s'.
  unfold Sync.logged_in, Session.isTokenExpired.
  cbn [Session.token Session.set_tokenExpiresAt Session.set_token
       Session.tokenExpiresAt].
  rewrite Htok. cbn [negb]. split.
  - intros Hfallback.
    assert (Hexpiry : Session.parseTokenExpiry jwt_payload tok loginTime
                      = int (loginTime + 50 * 60 * 1000)).
    { unfold Session.parseTokenExpiry.
      destruct Hfallback as [-> | (payload & -> & ->)]; reflexivity. }
    rewrite Hexpiry. unfold int. cbn [num_sub num_ge].
    rewrite Qle_bool_iff, Qred_correct.
    unfold Qle, Qminus, Qplus, Qopp. cbn [Qnum Qden]. lia.
  - intros payload Hdec Hnull _ Hexp.
    unfold Session.parseTokenExpiry. rewrite Hdec, Hnull, Hexp. reflexivity.
Qed.

(** A login at 1000 ms: with an opaque token the session expires at 2941000
    ms, and with a payload without [exp] it never does. *)
Lemma token_expiry_fallback_witness :
  let opaque := fun _ : value => @None value in
  let claimless := fun _ : value => Some (VObj [("sub", VStr "piemonte")]) in
  Session.isTokenExpired
    (Sync.logged_in opaque Session.new_service (VStr "t") 1000) 2941000 = true
  /\ Session.isTokenExpired
       (Sync.logged_in opaque Session.new_service (VStr "t") 1000) 2940999
     = false
  /\ Session.isTokenExpired
       (Sync.logged_in claimless Session.new_service (VStr "t") 1000)
       99999999999999 = false.
Proof.
  intros opaque claimless.
  destruct (token_expiry_fallback opaque Session.new_service (VStr "t") 1000
              2941000 eq_refl) as [Hlate _].
  destruct (token_expiry_fallback opaque Session.new_service (VStr "t") 1000
              2940999 eq_refl) as [Hearly _].
  destruct (token_expiry_fallback claimless Session.new_service (VStr "t")
              1000 99999999999999 eq_refl) as [_ Hnever].
  split; [|split].
  - apply (Hlate (or_introl eq_refl)). lia.
  - apply not_true_iff_false. intros H.
    apply (Hearly (or_introl eq_refl)) in H. lia.
  - exact (Hnever (VObj [("sub", VStr "piemonte")]) eq_refl eq_refl eq_refl
             eq_refl).
Defined.







(* ====================================================================== *)
(** * The records the dashboard works on                                   *)
(* ====================================================================== *)

Module ShapeFacts.
Import Aggregation Panel.

(** ** [parseInt] returns [NaN] or a whole number *)

Lemma signed_whole (neg : bool) (z : Z) :
  Qred (signed neg (z # 1)) = (if neg then - z else z) # 1.
Proof.
  destruct neg; cbn [signed].
  - change (- (z # 1))%Q with ((- z) # 1). apply NormalizerFacts.Qred_int.
  - apply NormalizerFacts.Qred_int.
Qed.

Lemma parseInt_str_whole (s : string) : whole (parseInt_str s).
Proof.
  unfold parseInt_str.
  destruct (read_sign (trim_left (list_ascii_of_string s))) as [neg cs].
  match goal with
  | |- whole (let (radix, ds) := ?p in _) => destruct p as [radix ds]
  end.
  destruct (read_digits radix ds 0 0) as [[v [|n]] rest]; [now left|].
  right. rewrite signed_whole. eexists. reflexivity.
Qed.

Lemma parseInt_whole (v : value) : whole (parseInt v).
Proof.
  destruct v; try apply parseInt_str_whole.
  unfold parseInt, parseInt_num. destruct n as [|q]; [now left|].
  destruct (Qeq_bool q 0); [right; now exists 0|].
  destruct (_ && _).
  - right. rewrite signed_whole. eexists. reflexivity.
  - destruct (scientific (Qabs q)) as [e m].
    right. rewrite signed_whole. eexists. reflexivity.
Qed.

(** What [transformData] returns are normalized records. *)
Lemma transform_from_normalized (clock : nat -> Clock)
  (apiData : list value) :
  forall index out,
    transform_from clock index apiData = Ok out ->
    Forall (fun r => exists now emp i, r = normalize now emp i) out.
Proof.
  induction apiData as [|e rest IH]; intros index out Hout.
  - injection Hout as <-. constructor.
  - simpl in Hout. destruct (nullish e); [discriminate|].
    destruct (transform_from clock (S index) rest) as [out'|] eqn:E;
      [|discriminate].
    injection Hout as <-. constructor.
    + now exists (clock index), e, index.
    + exact (IH (S index) out' E).
Qed.

(** ** The entries of a series come from the records *)

Lemma grouped_label (field : NormalizedRecord -> value)
  (data : list NormalizedRecord) (x : Group) :
  In x (object_values (group_by field new_group add_to_group data)) ->
  exists i, In i data /\ label x = field i.
Proof.
  intros Hx.
  destruct (AggregationFacts.listing_of_groups Group field new_group
              add_to_group (group_of field data) data
              (AggregationFacts.folded_group field data)) as [Hperm _].
  apply (Permutation_in x Hperm), in_map_iff in Hx.
  destruct Hx as (k & <- & Hk).
  destruct (AggregationFacts.group_keys_members field data k Hk) as [_ Hm].
  unfold group_of. cbn [label].
  destruct (members field data k) as [|i l] eqn:E; [contradiction|].
  exists i. split; [|reflexivity].
  assert (Hi : In i (members field data k)) by (rewrite E; now left).
  unfold members in Hi. apply filter_In in Hi. tauto.
Qed.

Lemma grouped_tipo (data : list NormalizedRecord) (x : TipoGroup) :
  In x (vgvPorTipo data) ->
  exists i, In i data /\ Aggregation.tipo x = Normalizer.tipo i.
Proof.
  intros Hx. unfold vgvPorTipo in Hx.
  destruct (AggregationFacts.listing_of_groups TipoGroup Normalizer.tipo
              new_tipo_group add_to_tipo_group (tipo_group_of data) data
              (AggregationFacts.folded_tipo_group data)) as [Hperm _].
  apply (Permutation_in x Hperm), in_map_iff in Hx.
  destruct Hx as (k & <- & Hk).
  destruct (AggregationFacts.group_keys_members Normalizer.tipo data k Hk)
    as [_ Hm].
  unfold tipo_group_of. cbn [Aggregation.tipo].
  destruct (members Normalizer.tipo data k) as [|i l] eqn:E; [contradiction|].
  exists i. split; [|reflexivity].
  assert (Hi : In i (members Normalizer.tipo data k)) by (rewrite E; now left).
  unfold members in Hi. apply filter_In in Hi. tauto.
Qed.

Lemma ranked_label (field : NormalizedRecord -> value)
  (data : list NormalizedRecord) (x : Group) :
  In x (firstn 8 (sort by_vgvTotal_desc
                    (object_values
                       (group_by field new_group add_to_group data)))) ->
  exists i, In i data /\ label x = field i.
Proof.
  intros Hx. apply grouped_label.
  apply (Permutation_in x (AggregationFacts.sort_perm Group by_vgvTotal_desc _)).
  rewrite <- (firstn_skipn 8 (sort by_vgvTotal_desc _)).
  apply in_or_app. now left.
Qed.

(** A record that is kept holds a selected value in every category with
    a selection. *)
Lemma kept_is_selected (f : FilterEngine.Filters) (c : category)
  (rawData : list NormalizedRecord) (i : NormalizedRecord) :
  In i (FilterEngine.filteredData rawData f) ->
  selection f c <> [] ->
  includes (selection f c) (field_of c i) = true.
Proof.
  intros Hi Hsel. unfold FilterEngine.filteredData in Hi.
  apply filter_In in Hi. destruct Hi as [_ Hk].
  apply PanelFacts.keeps_by_category in Hk. destruct Hk as [Hk _].
  specialize (Hk c). unfold FilterEngine.excludes in Hk.
  apply andb_false_iff in Hk. destruct Hk as [Hk | Hk].
  - apply negb_false_iff, Nat.eqb_eq in Hk.
    apply length_zero_iff_nil in Hk. contradiction.
  - now apply negb_false_iff in Hk.
Qed.

End ShapeFacts.

(** X20. For raw records whose numeric properties are readable (a run of
    more than 308 digits is read as an infinity), the four fields read by
    [parseInt] (bedrooms, units sold, total units, launch year) are [NaN]
    or whole numbers, and the bedroom and launch-year check boxes built
    from the output of [transformData] are whole numbers other than 0. *)
Theorem normalized_counts_are_whole :
  (forall now emp index,
     readable_record emp ->
     let r := normalize now emp index in
     Panel.whole (quartos r) /\ Panel.whole (unidadesVendidas r)
     /\ Panel.whole (totalUnidades r) /\ Panel.whole (anoLancamento r))
  /\ (forall clock apiData rawData,
        Forall readable_record apiData ->
        transformData clock apiData = Ok rawData ->
        forall v,
          In v (Panel.quartos (Panel.filterOptions rawData))
          \/ In v (Panel.anosLancamento (Panel.filterOptions rawData)) ->
          exists z, v = vint z /\ z <> 0).
Proof.
  split.
  - intros now emp index _ r. subst r. unfold normalize.
    cbn [quartos unidadesVendidas totalUnidades anoLancamento].
    repeat split; apply ShapeFacts.parseInt_whole.
  - intros clock apiData rawData _ Hout v Hv.
    pose proof (ShapeFacts.transform_from_normalized clock apiData 0 rawData
                  Hout) as Hnorm.
    rewrite Forall_forall in Hnorm.
    assert (Hfield : truthy v = true
                     /\ exists d, In d rawData
                                  /\ (VNum (quartos d) = v
                                      \/ VNum (anoLancamento d) = v)).
    { destruct Hv as [Hv | Hv];
        apply PanelFacts.options_truthy in Hv;
        destruct Hv as (Ht & d & Hd & E); (split; [exact Ht|]);
        exists d; (split; [exact Hd|]); [now left | now right]. }
    destruct Hfield as (Ht & d & Hd & E).
    destruct (Hnorm d Hd) as (now & emp & i & ->).
    assert (Hwhole : exists x, v = VNum x /\ Panel.whole x).
    { destruct E as [<- | <-]; eexists; (split; [reflexivity|]);
        unfold normalize; cbn [quartos anoLancamento];
        apply ShapeFacts.parseInt_whole. }
    destruct Hwhole as (x & -> & [-> | [z ->]]); [discriminate Ht|].
    exists z. split; [reflexivity|]. intros ->. discriminate Ht.
Qed.

(** The text [3 suites] is read as 3 bedrooms. *)
Lemma normalized_counts_are_whole_witness :
  let apiData :=
    [VObj [("quartos", VStr "3 suites")]; VObj [("quartos", VStr "0")]] in
  exists rawData,
    transformData frozen apiData = Ok rawData
    /\ exists z, vint 3 = vint z /\ z <> 0.
Proof.
  intros apiData. eexists. split; [reflexivity|].
  eapply (proj2 normalized_counts_are_whole frozen apiData);
    [by_evaluation | reflexivity |].
  left. vm_compute. now left.
Defined.

(** X21. Under a selection of cities every entry of [vgvPorCidade] is
    labelled with a selected city; likewise for the quality tiers and
    [vgvPorPadrao], and for the types and [vgvPorTipo]; and every record of
    [topEmpreendimentos] is kept by the filter. *)
Theorem series_show_only_selected_values
  (rawData : list NormalizedRecord) (f : FilterEngine.Filters) :
  let data := FilterEngine.filteredData rawData f in
  (forall x, In x (Aggregation.vgvPorCidade data) ->
     FilterEngine.cidades f <> [] ->
     includes (FilterEngine.cidades f) (Aggregation.label x) = true)
  /\ (forall x, In x (Aggregation.vgvPorPadrao data) ->
        FilterEngine.padroes f <> [] ->
        includes (FilterEngine.padroes f) (Aggregation.label x) = true)
  /\ (forall x, In x (Aggregation.vgvPorTipo data) ->
        FilterEngine.tipos f <> [] ->
        includes (FilterEngine.tipos f) (Aggregation.tipo x) = true)
  /\ (forall d, In d (Ranking.topEmpreendimentos data) ->
        FilterEngine.keeps f d = true).
Proof.
  intros data. subst data. repeat split.
  - intros x Hx Hsel. apply ShapeFacts.ranked_label in Hx.
    destruct Hx as (i & Hi & ->).
    exact (ShapeFacts.kept_is_selected f Panel.Cidades rawData i Hi Hsel).
  - intros x Hx Hsel. apply ShapeFacts.ranked_label in Hx.
    destruct Hx as (i & Hi & ->).
    exact (ShapeFacts.kept_is_selected f Panel.Padroes rawData i Hi Hsel).
  - intros x Hx Hsel. apply ShapeFacts.grouped_tipo in Hx.
    destruct Hx as (i & Hi & ->).
    exact (ShapeFacts.kept_is_selected f Panel.Tipos rawData i Hi Hsel).
  - intros d Hd. unfold Ranking.topEmpreendimentos in Hd.
    assert (Hin : In d (FilterEngine.filteredData rawData f)).
    { apply (Permutation_in d
               (AggregationFacts.sort_perm _ Ranking.by_launched_desc _)).
      rewrite <- (firstn_skipn 10 (sort Ranking.by_launched_desc _)).
      apply in_or_app. now left. }
    unfold FilterEngine.filteredData in Hin. apply filter_In in Hin. tauto.
Qed.

(** X22. For records whose dimension prints and whose launched and sold
    values are whole and add up to at most [2 ^ 53] in magnitude (so that
    no addition rounds), the series by city and by quality tier show the
    eight largest groups: min(8, number of groups) entries, each with a
    launched total at least that of every group left out. The groups are
    those of the distinct keys of the records that are no names inherited
    from [Object.prototype]: a record under such a name gets no group. *)
Theorem series_keep_the_eight_largest :
  forall series field,
    (series = Aggregation.vgvPorCidade /\ field = cidade)
    \/ (series = Aggregation.vgvPorPadrao /\ field = padrao) ->
    forall data,
      printable field data ->
      Aggregation.adds_exactly vgvTotal data ->
      Aggregation.adds_exactly vgvVendido data ->
      List.length (series data)
      = Nat.min 8 (List.length (Aggregation.group_keys field data))
      /\ exists rest,
           Permutation
             (map (Aggregation.group_of field data)
                  (Aggregation.group_keys field data))
             (series data ++ rest)%list
           /\ forall x y, In x (series data) -> In y rest ->
                          Aggregation.at_least x y.
Proof.
  intros series field Hseries data _ _ _.
  set (all := object_values
                (Aggregation.group_by field Aggregation.new_group
                   Aggregation.add_to_group data)).
  assert (Hdef : series data
                 = firstn 8 (sort Aggregation.by_vgvTotal_desc all)).
  { destruct Hseries as [[-> ->] | [-> ->]]; reflexivity. }
  destruct (AggregationFacts.listing_of_groups Aggregation.Group field
              Aggregation.new_group Aggregation.add_to_group
              (Aggregation.group_of field data) data
              (AggregationFacts.folded_group field data)) as [Hperm _].
  fold all in Hperm.
  pose proof (AggregationFacts.sort_perm _ Aggregation.by_vgvTotal_desc all)
    as Hsort.
  assert (Hnum : Forall Aggregation.numeric_total all).
  { apply (Permutation_Forall (Permutation_sym Hperm)).
    apply AggregationFacts.group_of_numeric. }
  pose proof (AggregationFacts.sort_sorted all Hnum) as Hs.
  rewrite Hdef. split.
  - rewrite length_firstn, (Permutation_length Hsort),
      (Permutation_length Hperm), length_map. reflexivity.
  - exists (skipn 8 (sort Aggregation.by_vgvTotal_desc all)). split.
    + rewrite firstn_skipn. symmetry. now transitivity all.
    + intros x y Hx Hy.
      exact (SortFacts.sorted_prefix_dominates _ _ _ Hs 8%nat x y Hx Hy).
Qed.

(** Three projects in two cities: two entries. *)
Lemma series_keep_the_eight_largest_witness :
  let data := [Aggregation.project "A" 100; Aggregation.project "A" 50;
               Aggregation.project "B" 30] in
  List.length (Aggregation.vgvPorCidade data)
  = Nat.min 8 (List.length (Aggregation.group_keys cidade data)).
Proof.
  intros data.
  destruct (series_keep_the_eight_largest Aggregation.vgvPorCidade cidade
              (or_introl (conj eq_refl eq_refl)) data) as [Hlen _];
    [by_evaluation..|exact Hlen].
Defined.
